(** * A console file explorer with an activity log

  Shallow embedding of [2241002027.cpp].  The program is a thin layer over
  the operating system, so the development has two parts:

  - an executable model of the POSIX calls the program makes ([stat],
    [opendir]/[readdir], [chdir], [getcwd], [fopen]/[fread]/[fwrite],
    [unlink], [rmdir], [mkdir], [rename], [time]/[localtime]/[strftime])
    over an in-memory file system;
  - the functions of the program, written over that model as the source
    writes them over the real calls.

  The file system is a finite map from canonical paths (the list of names
  from the root) to inodes.  An entry is a regular file or a directory:
  there are no symbolic or hard links, no devices, sockets or FIFOs, and a
  single process, so a canonical path identifies a file.  What is proved
  is proved of such file systems. *)

From Stdlib Require Import ZArith Ascii String.
From Stdlib.Strings Require Import Byte.
From stdpp Require Import gmap strings list fin_maps pretty.

Open Scope Z_scope.

(** ** Text *)

Module Text.

Definition slash : ascii := "/"%char.
Definition newline : ascii := "010"%char.

(** [PATH_SEP] outside of _WIN32. *)
Definition PATH_SEP : string := String slash EmptyString.

Definition endl : string := String newline EmptyString.

(** The characters for which [isspace] holds in the C locale; [operator>>]
    on a string skips them and stops a word at them. *)
Definition isspace (c : ascii) : bool :=
  let n := nat_of_ascii c in
  bool_decide (n = 32%nat) || (bool_decide (9 <= n)%nat && bool_decide (n <= 13)%nat).

(** [split_aux cur line]: [cur] is the word being read, in reverse. *)
Fixpoint split_aux (cur : list ascii) (line : string) : list string :=
  match line with
  | EmptyString =>
      match cur with
      | [] => []
      | _ => [string_of_list_ascii (rev cur)]
      end
  | String c rest =>
      if isspace c then
        match cur with
        | [] => split_aux [] rest
        | _ => string_of_list_ascii (rev cur) :: split_aux [] rest
        end
      else split_aux (c :: cur) rest
  end.

(** [name.find(pattern) != string::npos] *)
Fixpoint contains (pattern name : string) : bool :=
  String.prefix pattern name ||
  match name with
  | EmptyString => false
  | String _ rest => contains pattern rest
  end.

(** The components of a path: the pieces between the slashes.  An absolute
    path starts with an empty component, a trailing slash ends with one. *)
Fixpoint components (s : string) : list string :=
  match s with
  | EmptyString => [EmptyString]
  | String c rest =>
      if Ascii.eqb c slash then EmptyString :: components rest
      else match components rest with
           | h :: t => String c h :: t
           | [] => [String c EmptyString]
           end
  end.

Fixpoint has_slash (s : string) : bool :=
  match s with
  | EmptyString => false
  | String c rest => Ascii.eqb c slash || has_slash rest
  end.

Definition is_absolute (s : string) : bool :=
  match s with
  | String c _ => Ascii.eqb c slash
  | EmptyString => false
  end.

(** The lines [getline] reads from a file: every newline ends a line, and
    text after the last newline is a last line. *)
Fixpoint lines_aux (cur : list byte) (data : list byte) : list string :=
  match data with
  | [] =>
      match cur with
      | [] => []
      | _ => [string_of_list_byte (rev cur)]
      end
  | b :: rest =>
      if Byte.eqb b x0a then string_of_list_byte (rev cur) :: lines_aux [] rest
      else lines_aux (b :: cur) rest
  end.

Definition lines (data : list byte) : list string := lines_aux [] data.

End Text.

(** ** Calendar time *)

Module Time.

(** [struct tm], the fields [strftime] reads here. *)
Record tm := mk_tm {
  tm_year : Z;   (* years since 1900 *)
  tm_mon : Z;    (* 0 .. 11 *)
  tm_mday : Z;   (* 1 .. 31 *)
  tm_hour : Z;   (* 0 .. 23 *)
  tm_min : Z;    (* 0 .. 59 *)
  tm_sec : Z     (* 0 .. 60 *)
}.

(** What the C library guarantees of a [tm] that [localtime] fills in,
    for a year that is written with four digits. *)
Definition tm_ok (t : tm) : Prop :=
  1000 <= 1900 + tm_year t <= 9999 /\
  0 <= tm_mon t <= 11 /\ 1 <= tm_mday t <= 31 /\
  0 <= tm_hour t <= 23 /\ 0 <= tm_min t <= 59 /\ 0 <= tm_sec t <= 60.

(** printf's [%02d] *)
Definition pad2 (n : Z) : string :=
  if bool_decide (0 <= n < 10) then "0" +:+ pretty n else pretty n.

(** [strftime(buf, 64, "%Y-%m-%d %H:%M:%S", t)] *)
Definition strftime (t : tm) : string :=
  pretty (1900 + tm_year t) +:+ "-" +:+ pad2 (tm_mon t + 1) +:+ "-" +:+
  pad2 (tm_mday t) +:+ " " +:+ pad2 (tm_hour t) +:+ ":" +:+
  pad2 (tm_min t) +:+ ":" +:+ pad2 (tm_sec t).

(** [gmtime]: the civil date of a count of seconds since the epoch, a
    possible [localtime] (the zone UTC). *)
Definition gmtime (t : Z) : tm :=
  let days := t / 86400 in
  let rem := t mod 86400 in
  let z := days + 719468 in
  let era := z / 146097 in
  let doe := z - era * 146097 in
  let yoe := (doe - doe / 1460 + doe / 36524 - doe / 146096) / 365 in
  let doy := doe - (365 * yoe + yoe / 4 - yoe / 100) in
  let mp := (5 * doy + 2) / 153 in
  let d := doy - (153 * mp + 2) / 5 + 1 in
  let m := if bool_decide (mp < 10) then mp + 3 else mp - 9 in
  let y := yoe + era * 400 + (if bool_decide (m <= 2) then 1 else 0) in
  mk_tm (y - 1900) (m - 1) d (rem / 3600) (rem mod 3600 / 60) (rem mod 60).

End Time.

(** ** The operating system *)

Module Posix.
Import Text Time.

Inductive errno :=
| ENOENT | ENOTDIR | EISDIR | EACCES | EEXIST | ENOTEMPTY | EINVAL | EBUSY
| ERANGE.

(** A regular file has its bytes and the time of its last modification; of a
    directory only whether it may be read ([opendir]) matters here.  Other
    kinds of entry are not modelled: a symbolic link, which [stat] follows,
    and a device or a socket, whose file type has the bit of [S_IFDIR] in
    it, are outside of every statement below. *)
Inductive inode :=
| File (data : list byte) (mtime : Z)
| Dir (readable : bool).

(** The process and its environment.  [cwd] is [None] once the working
    directory has been removed under the process.  [clock] is what
    [time(NULL)] returns and [localtime] the zone conversion of the C
    library; [stdout] has one item for each line or prompt written to
    [cout], [stderr] one for each [perror]. *)
Record World := mkWorld {
  fs : gmap (list string) inode;
  cwd : option (list string);
  clock : Z;
  localtime : Z -> tm;
  errno_var : errno;
  stdout : list string;
  stderr : list (string * errno)
}.

Definition set_fs (m : gmap (list string) inode) (w : World) : World :=
  mkWorld m (cwd w) (clock w) (localtime w) (errno_var w) (stdout w) (stderr w).
Definition set_cwd (c : option (list string)) (w : World) : World :=
  mkWorld (fs w) c (clock w) (localtime w) (errno_var w) (stdout w) (stderr w).
Definition set_errno (e : errno) (w : World) : World :=
  mkWorld (fs w) (cwd w) (clock w) (localtime w) e (stdout w) (stderr w).

(** [cout << s << endl] *)
Definition print (s : string) (w : World) : World :=
  mkWorld (fs w) (cwd w) (clock w) (localtime w) (errno_var w)
          (stdout w ++ [s]) (stderr w).

Definition perror (prefix : string) (w : World) : World :=
  mkWorld (fs w) (cwd w) (clock w) (localtime w) (errno_var w)
          (stdout w) (stderr w ++ [(prefix, errno_var w)]).

(** *** Path resolution *)

Definition step (cur : list string) (c : string) : list string :=
  if bool_decide (c = "" ∨ c = ".") then cur
  else if bool_decide (c = "..") then removelast cur
  else cur ++ [c].

(** Every component is looked up in a directory: the walk fails on a missing
    or regular file in the middle of a path.  The last component may be
    missing, for the calls that create it. *)
Fixpoint walk (m : gmap (list string) inode) (cur : list string)
    (cs : list string) : errno + list string :=
  match cs with
  | [] => inr cur
  | c :: rest =>
      match m !! cur with
      | Some (Dir _) => walk m (step cur c) rest
      | Some (File _ _) => inl ENOTDIR
      | None => inl ENOENT
      end
  end.

Definition resolve (w : World) (p : string) : errno + list string :=
  if bool_decide (p = "") then inl ENOENT
  else if is_absolute p then walk (fs w) [] (components p)
  else match cwd w with
       | Some c => walk (fs w) c (components p)
       | None => inl ENOENT
       end.

(** The last component that names something, as [rmdir] and [rename] look
    at it. *)
Definition final_component (p : string) : string :=
  List.last (filter (λ c, c ≠ "") (components p)) "".

Definition stat (w : World) (p : string) : errno + inode :=
  match resolve w p with
  | inl e => inl e
  | inr c =>
      match fs w !! c with
      | Some i => inr i
      | None => inl ENOENT
      end
  end.

(** The file type in [st_mode], with [S_IFREG] and [S_IFDIR] of
    <sys/stat.h> (octal 0100000 and 0040000); the permission bits are not
    read by the program. *)
Definition S_IFREG : Z := 32768.
Definition S_IFDIR : Z := 16384.

Definition st_mode (i : inode) : Z :=
  match i with
  | File _ _ => S_IFREG
  | Dir _ => S_IFDIR
  end.

(** The size of a file is the number of its bytes.  That of a directory is
    for the file system to say; it is one block here, and no statement
    depends on it. *)
Definition st_size (i : inode) : Z :=
  match i with
  | File data _ => Z.of_nat (length data)
  | Dir _ => 4096
  end.

(** *** Directories *)

Fixpoint child_of (c k : list string) : option string :=
  match c, k with
  | [], [n] => Some n
  | x :: c', y :: k' => if bool_decide (x = y) then child_of c' k' else None
  | _, _ => None
  end.

(** The names in the directory [c].  The order in which [readdir] gives
    them is for the file system to say; it is the order of the keys of the
    map here; the theorems below are of the names, not of their order, and
    only the sample runs show the order of this model. *)
Definition children (m : gmap (list string) inode) (c : list string) : list string :=
  omap (λ kv, child_of c kv.1) (map_to_list m).

(** [opendir] and the [readdir]s until [NULL]: the names of the directory as
    it is when it is opened. *)
Definition opendir (w : World) (p : string) : World * option (list string) :=
  match resolve w p with
  | inl e => (set_errno e w, None)
  | inr c =>
      match fs w !! c with
      | Some (Dir true) => (w, Some ("." :: ".." :: children (fs w) c))
      | Some (Dir false) => (set_errno EACCES w, None)
      | Some (File _ _) => (set_errno ENOTDIR w, None)
      | None => (set_errno ENOENT w, None)
      end
  end.

Definition chdir (w : World) (p : string) : World * bool :=
  match resolve w p with
  | inl e => (set_errno e w, false)
  | inr c =>
      match fs w !! c with
      | Some (Dir _) => (set_cwd (Some c) w, true)
      | Some (File _ _) => (set_errno ENOTDIR w, false)
      | None => (set_errno ENOENT w, false)
      end
  end.

Definition path_string (c : list string) : string :=
  match c with
  | [] => "/"
  | _ => foldr (λ n s, "/" +:+ n +:+ s) "" c
  end.

(** [getcwd(buf, size)] *)
Definition getcwd (w : World) (size : nat) : World * option string :=
  match cwd w with
  | Some c =>
      if bool_decide (String.length (path_string c) < size)%nat
      then (w, Some (path_string c))
      else (set_errno ERANGE w, None)
  | None => (set_errno ENOENT w, None)
  end.

Definition mkdir (w : World) (p : string) : World * bool :=
  match resolve w p with
  | inl e => (set_errno e w, false)
  | inr c =>
      match fs w !! c with
      | Some _ => (set_errno EEXIST w, false)
      | None => (set_fs (<[c := Dir true]> (fs w)) w, true)
      end
  end.

Definition unlink (w : World) (p : string) : World * bool :=
  match resolve w p with
  | inl e => (set_errno e w, false)
  | inr c =>
      match fs w !! c with
      | Some (File _ _) => (set_fs (delete c (fs w)) w, true)
      | Some (Dir _) => (set_errno EISDIR w, false)
      | None => (set_errno ENOENT w, false)
      end
  end.

(** Removing the working directory itself is allowed, as on Linux: the
    process is left without one. *)
Definition rmdir (w : World) (p : string) : World * bool :=
  match resolve w p with
  | inl e => (set_errno e w, false)
  | inr c =>
      match fs w !! c with
      | Some (Dir _) =>
          if bool_decide (final_component p = ".") then (set_errno EINVAL w, false)
          else if bool_decide (final_component p = "..") then (set_errno ENOTEMPTY w, false)
          else if bool_decide (c = []) then (set_errno EBUSY w, false)
          else if bool_decide (children (fs w) c = []) then
            (set_cwd (if bool_decide (cwd w = Some c) then None else cwd w)
               (set_fs (delete c (fs w)) w), true)
          else (set_errno ENOTEMPTY w, false)
      | Some (File _ _) => (set_errno ENOTDIR w, false)
      | None => (set_errno ENOENT w, false)
      end
  end.

(** [remove] of <cstdio>: [unlink], and [rmdir] for a directory. *)
Definition remove (w : World) (p : string) : World * bool :=
  match stat w p with
  | inr (Dir _) => rmdir w p
  | _ => unlink w p
  end.

(** *** Renaming *)

Fixpoint strip_prefix (c k : list string) : option (list string) :=
  match c, k with
  | [], _ => Some k
  | x :: c', y :: k' => if bool_decide (x = y) then strip_prefix c' k' else None
  | _ :: _, [] => None
  end.

Definition rebase (src dst k : list string) : list string :=
  match strip_prefix src k with
  | Some rest => dst ++ rest
  | None => k
  end.

(** The map with the tree at [src] moved to [dst] (and what was at [dst]
    gone). *)
Definition move_tree (src dst : list string) (m : gmap (list string) inode)
    : gmap (list string) inode :=
  list_to_map (map (λ kv, (rebase src dst kv.1, kv.2))
                   (map_to_list (delete dst m))).

Definition rename (w : World) (old new : string) : World * bool :=
  match resolve w old, resolve w new with
  | inl e, _ => (set_errno e w, false)
  | _, inl e => (set_errno e w, false)
  | inr so, inr sn =>
      let dots := bool_decide (final_component old = "." ∨ final_component old = ".." ∨
                               final_component new = "." ∨ final_component new = "..") in
      let moved :=
        set_cwd (rebase so sn <$> cwd w) (set_fs (move_tree so sn (fs w)) w) in
      match fs w !! so with
      | None => (set_errno ENOENT w, false)
      | Some node =>
          if dots then (set_errno EINVAL w, false)
          else if bool_decide (so = [] ∨ sn = []) then (set_errno EBUSY w, false)
          else if bool_decide (so = sn) then (w, true)
          else
            match node, fs w !! sn with
            | File _ _, Some (Dir _) => (set_errno EISDIR w, false)
            | File _ _, _ => (moved, true)
            | Dir _, Some (File _ _) => (set_errno ENOTDIR w, false)
            | Dir _, other =>
                if bool_decide (is_Some (strip_prefix so sn)) then (set_errno EINVAL w, false)
                else if bool_decide (other ≠ None ∧ children (fs w) sn ≠ [])
                then (set_errno ENOTEMPTY w, false)
                else (moved, true)
            end
      end
  end.

(** *** Streams *)

(** [fopen(p, "rb")].  A stream is the canonical path of its file.  A
    readable directory opens too; reading it gives nothing. *)
Definition fopen_rb (w : World) (p : string) : World * option (list string) :=
  match resolve w p with
  | inl e => (set_errno e w, None)
  | inr c =>
      match fs w !! c with
      | Some (File _ _) | Some (Dir true) => (w, Some c)
      | Some (Dir false) => (set_errno EACCES w, None)
      | None => (set_errno ENOENT w, None)
      end
  end.

(** [fopen(p, "wb")]: the file is created or cut to length zero. *)
Definition fopen_wb (w : World) (p : string) : World * option (list string) :=
  match resolve w p with
  | inl e => (set_errno e w, None)
  | inr c =>
      match fs w !! c with
      | Some (Dir _) => (set_errno EISDIR w, None)
      | _ => (set_fs (<[c := File [] (clock w)]> (fs w)) w, Some c)
      end
  end.

(** [fopen(p, "ab")] and [ofstream(p, ios::app)]: the file is created when
    it is missing; a file that exists is left as it is, its time stamp
    too. *)
Definition fopen_ab (w : World) (p : string) : World * option (list string) :=
  match resolve w p with
  | inl e => (set_errno e w, None)
  | inr c =>
      match fs w !! c with
      | Some (Dir _) => (set_errno EISDIR w, None)
      | Some (File _ _) => (w, Some c)
      | None => (set_fs (<[c := File [] (clock w)]> (fs w)) w, Some c)
      end
  end.

(** [fread(buf, 1, n, in)] with the stream at [pos]. *)
Definition fread (w : World) (h : list string) (pos n : nat) : list byte :=
  match fs w !! h with
  | Some (File data _) => take n (drop pos data)
  | _ => []
  end.

(** Writing at the end of the file, where the streams of this program
    stand. *)
Definition fwrite (h : list string) (buf : list byte) (w : World) : World :=
  match fs w !! h with
  | Some (File data _) => set_fs (<[h := File (data ++ buf) (clock w)]> (fs w)) w
  | _ => w
  end.

Definition file_data (w : World) (c : list string) : option (list byte) :=
  match fs w !! c with
  | Some (File data _) => Some data
  | _ => None
  end.

End Posix.

(** ** The program *)

Module Explorer.
Import Text Time Posix.

Definition LOG_FILE : string := "activity_log.txt".

Definition tab : string := String "009"%char EmptyString.

Definition log_record (w : World) (action : string) : string :=
  let timeStr := strftime (localtime w (clock w)) in
  "[" +:+ timeStr +:+ "] " +:+ action +:+ endl.

Definition logAction (action : string) (w : World) : World :=
  match fopen_ab w LOG_FILE with
  | (w1, None) => w1
  | (w1, Some log) => fwrite log (list_byte_of_string (log_record w1 action)) w1
  end.

Definition split (line : string) : list string := split_aux [] line.

(** [return (st.st_mode & S_IFDIR);] as a [bool]: whether the bit is set.
    It is set for a directory and not for a regular file. *)
Definition isDirectory (w : World) (path : string) : bool :=
  match stat w path with
  | inr st => negb (Z.land (st_mode st) S_IFDIR =? 0)
  | inl _ => false
  end.

(** The body of a [while ((entry = readdir(dir)) != NULL)] loop, run over
    the names of the directory; [None] is passed on (see [searchFile_rec]). *)
Fixpoint for_each (body : string → World → option World) (names : list string)
    (w : World) : option World :=
  match names with
  | [] => Some w
  | name :: rest =>
      match body name w with
      | Some w1 => for_each body rest w1
      | None => None
      end
  end.

Definition listEntry (path name : string) (w : World) : World :=
  if bool_decide (name = "." ∨ name = "..") then w
  else
    let fullPath := path +:+ PATH_SEP +:+ name in
    match stat w fullPath with
    | inr st =>
        print ((if isDirectory w fullPath then "[DIR]  " else "       ") +:+
               name +:+ tab +:+ "(" +:+ pretty (st_size st) +:+ " bytes)") w
    | inl _ => w
    end.

Definition listFiles (path : string) (w : World) : World :=
  match opendir w path with
  | (w1, None) => perror "ls" w1
  | (w1, Some entries) =>
      let w2 := print ("Contents of " +:+ path +:+ ":") w1 in
      let w3 := foldl (λ w name, listEntry path name w) w2 entries in
      logAction ("Listed contents of: " +:+ path) w3
  end.

Definition changeDir (path : string) (w : World) : World :=
  match chdir w path with
  | (w1, true) =>
      logAction ("Changed directory to: " +:+ path)
        (print ("Changed directory to: " +:+ path) w1)
  | (w1, false) => perror "cd" w1
  end.

Definition printPwd (w : World) : World :=
  let w1 :=
    match getcwd w 1024 with
    | (w1, Some cwd) => print cwd w1
    | (w1, None) => perror "pwd" w1
    end in
  logAction "Checked current directory." w1.

(** The [while ((n = fread(...)) > 0) fwrite(...)] loop of [copyFile], with
    the input stream at [pos].  It ends when a read gives nothing; [None]
    only when [fuel] reads were not enough. *)
Fixpoint copy_loop (fuel : nat) (inp out : list string) (pos : nat)
    (w : World) : option World :=
  match fuel with
  | O => None
  | S fuel' =>
      let buffer := fread w inp pos 4096 in
      if bool_decide (0 < length buffer)%nat
      then copy_loop fuel' inp out (pos + length buffer) (fwrite out buffer w)
      else Some w
  end.

Definition stream_length (w : World) (h : list string) : nat :=
  match file_data w h with
  | Some data => length data
  | None => 0
  end.

(** The loop run to its end: a read gives at least one byte until the input
    is used up, so one read more than it has bytes is enough. *)
Definition stream_copy (inp out : list string) (w : World) : World :=
  default w (copy_loop (S (stream_length w inp)) inp out 0 w).

Definition copyFile (src dest : string) (w : World) : World * bool :=
  match fopen_rb w src with
  | (w1, None) => (w1, false)
  | (w1, Some inp) =>
      match fopen_wb w1 dest with
      | (w2, None) => (w2, false)
      | (w2, Some out) =>
          let w3 := stream_copy inp out w2 in
          (logAction ("Copied file: " +:+ src +:+ " -> " +:+ dest) w3, true)
      end
  end.

Definition removeEntry (rec : string → World → option World) (path name : string)
    (w : World) : option World :=
  if bool_decide (name = "." ∨ name = "..") then Some w
  else
    let subPath := path +:+ PATH_SEP +:+ name in
    rec subPath w.

(** [removeRecursive] with its depth of recursion bounded by [fuel]. *)
Fixpoint removeRecursive_rec (fuel : nat) (path : string) (w : World) : option World :=
  match fuel with
  | O => None
  | S fuel' =>
      if isDirectory w path then
        match opendir w path with
        | (w1, None) => Some w1
        | (w1, Some entries) =>
            match for_each (removeEntry (removeRecursive_rec fuel') path) entries w1 with
            | Some w2 => Some (logAction ("Removed: " +:+ path) (rmdir w2 path).1)
            | None => None
            end
        end
      else Some (logAction ("Removed: " +:+ path) (remove w path).1)
  end.

(** The longest path of a directory: no recursion over directories of the
    file system goes deeper. *)
Definition dir_depth (m : gmap (list string) inode) : nat :=
  max_list (omap (λ kv, match kv.2 with
                        | Dir _ => Some (length kv.1)
                        | File _ _ => None
                        end) (map_to_list m)).

(** The longest path of all. *)
Definition fs_depth (m : gmap (list string) inode) : nat :=
  max_list (map (λ kv, length kv.1) (map_to_list m)).

Definition removeRecursive (path : string) (w : World) : World :=
  default w (removeRecursive_rec (S (fs_depth (fs w))) path w).

Definition searchEntry (rec : string → World → option World) (pattern path name : string)
    (w : World) : option World :=
  if bool_decide (name = "." ∨ name = "..") then Some w
  else
    let fullPath := path +:+ PATH_SEP +:+ name in
    let w1 := if contains pattern name then print fullPath w else w in
    if isDirectory w1 fullPath then rec fullPath w1 else Some w1.

Fixpoint searchFile_rec (fuel : nat) (pattern path : string) (w : World) : option World :=
  match fuel with
  | O => None
  | S fuel' =>
      match opendir w path with
      | (w1, None) => Some w1
      | (w1, Some entries) =>
          match for_each (searchEntry (searchFile_rec fuel' pattern) pattern path) entries w1 with
          | Some w2 => Some (logAction ("Searched for: " +:+ pattern +:+ " in " +:+ path) w2)
          | None => None
          end
      end
  end.

Definition searchFile (pattern path : string) (w : World) : World :=
  default w (searchFile_rec (S (dir_depth (fs w))) pattern path w).

Definition touchFile (path : string) (w : World) : World :=
  match fopen_ab w path with
  | (w1, Some f) =>
      logAction ("Created or updated file: " +:+ path)
        (print ("File created/updated: " +:+ path) w1)
  | (w1, None) => perror "touch" w1
  end.

Definition makeDir (path : string) (w : World) : World :=
  let w1 :=
    match mkdir w path with
    | (w1, true) => print ("Directory created: " +:+ path) w1
    | (w1, false) => perror "mkdir" w1
    end in
  logAction ("Created directory: " +:+ path) w1.

Definition moveFile (src dest : string) (w : World) : World :=
  match rename w src dest with
  | (w1, true) =>
      logAction ("Moved/Renamed: " +:+ src +:+ " -> " +:+ dest)
        (print ("Moved: " +:+ src +:+ " -> " +:+ dest) w1)
  | (w1, false) => perror "mv" w1
  end.

(** [ifstream log("activity_log.txt")] and the [getline] loop.  Opening a
    directory succeeds and reads no line. *)
Definition showHistory (w : World) : World :=
  match fopen_rb w LOG_FILE with
  | (w1, None) => print "No activity history found yet." w1
  | (w1, Some log) =>
      let w2 := print "----------- ACTIVITY LOG -----------" w1 in
      let w3 := foldl (λ w line, print line w) w2
                      (lines (default [] (file_data w1 log))) in
      print "------------------------------------" w3
  end.

Definition help_text : list string :=
  [ ""; "Available Commands:";
    "  ls [path]        - List files and folders";
    "  cd <dir>         - Change directory";
    "  pwd              - Print current directory";
    "  cp <src> <dest>  - Copy file";
    "  mv <src> <dest>  - Move or rename file";
    "  rm <path>        - Delete file/folder";
    "  touch <file>     - Create empty file";
    "  mkdir <dir>      - Create new folder";
    "  search <name>    - Search file by name";
    "  history          - Show activity log";
    "  help             - Show help menu";
    "  exit             - Exit explorer"; "" ].

Definition showHelp (w : World) : World :=
  foldl (λ w line, print line w) w help_text.

(** One turn of the loop of [main] from the words of the line on: the new
    state, or [None] for [break]. *)
Definition dispatch (args : list string) (w : World) : option World :=
  match args with
  | [] => Some w
  | cmd :: rest =>
      if bool_decide (cmd = "exit" ∨ cmd = "quit") then None
      else if bool_decide (cmd = "help") then Some (showHelp w)
      else if bool_decide (cmd = "ls") then
        Some (listFiles (match rest with a1 :: _ => a1 | [] => "." end) w)
      else if bool_decide (cmd = "cd") then
        match rest with
        | a1 :: _ => Some (changeDir a1 w)
        | [] => Some (print "Usage: cd <dir>" w)
        end
      else if bool_decide (cmd = "pwd") then Some (printPwd w)
      else if bool_decide (cmd = "cp") then
        match rest with
        | a1 :: a2 :: _ =>
            match copyFile a1 a2 w with
            | (w1, true) => Some (print ("Copied: " +:+ a1 +:+ " -> " +:+ a2) w1)
            | (w1, false) => Some (perror "cp" w1)
            end
        | _ => Some (print "Usage: cp <src> <dest>" w)
        end
      else if bool_decide (cmd = "mv") then
        match rest with
        | a1 :: a2 :: _ => Some (moveFile a1 a2 w)
        | _ => Some (print "Usage: mv <src> <dest>" w)
        end
      else if bool_decide (cmd = "rm") then
        match rest with
        | a1 :: _ => Some (removeRecursive a1 w)
        | [] => Some (print "Usage: rm <path>" w)
        end
      else if bool_decide (cmd = "touch") then
        match rest with
        | a1 :: _ => Some (touchFile a1 w)
        | [] => Some (print "Usage: touch <file>" w)
        end
      else if bool_decide (cmd = "mkdir") then
        match rest with
        | a1 :: _ => Some (makeDir a1 w)
        | [] => Some (print "Usage: mkdir <dir>" w)
        end
      else if bool_decide (cmd = "search") then
        match rest with
        | a1 :: _ => Some (searchFile a1 "." w)
        | [] => Some (print "Usage: search <pattern>" w)
        end
      else if bool_decide (cmd = "history") then Some (showHistory w)
      else Some (print "Unknown command. Type 'help' for list." w)
  end.

(** The prompt [cout << cwd << " $ "]; the buffer is not set when [getcwd]
    fails, and is taken as empty then. *)
Definition prompt (w : World) : World :=
  match getcwd w 1024 with
  | (w1, Some cwd) => print (cwd +:+ " $ ") w1
  | (w1, None) => print " $ " w1
  end.

(** The loop of [main] over the lines of the standard input. *)
Fixpoint repl (input : list string) (w : World) : World :=
  match input with
  | [] => prompt w
  | line :: rest =>
      match dispatch (split line) (prompt w) with
      | Some w1 => repl rest w1
      | None => prompt w
      end
  end.

Definition main (input : list string) (w : World) : World :=
  let banner :=
    [ "---------------------------------------------";
      "   SIMPLE CONSOLE FILE EXPLORER (C++ / GCC6)";
      "---------------------------------------------";
      "Type 'help' to see available commands."; "" ] in
  let w1 := repl input (foldl (λ w line, print line w) w banner) in
  print "Goodbye! Have a nice day :)" (print "" w1).

End Explorer.


(** ** Notions for the statements *)

Module Spec.
Import Text Time Posix Explorer.

(** A name that a directory entry can have. *)
Definition valid_name (n : string) : bool :=
  bool_decide (n ≠ "" ∧ n ≠ "." ∧ n ≠ "..") && negb (has_slash n).

(** A file system is well formed when every entry has valid names on its
    path and lies in a directory. *)
Definition wf_entry (m : gmap (list string) inode) (k : list string) : bool :=
  forallb valid_name k &&
  match k with
  | [] => true
  | _ => match m !! removelast k with
         | Some (Dir _) => true
         | _ => false
         end
  end.

Definition wf_fs (m : gmap (list string) inode) : bool :=
  forallb (λ kv, wf_entry m kv.1) (map_to_list m).

(** Where [logAction] writes: the canonical path that [activity_log.txt]
    names when the log can be opened for appending. *)
Definition log_key (w : World) : option (list string) :=
  match resolve w LOG_FILE with
  | inr c =>
      match fs w !! c with
      | Some (Dir _) => None
      | _ => Some c
      end
  | inl _ => None
  end.

(** The bytes of the activity log, as [showHistory] would read them. *)
Definition log_bytes (w : World) : list byte :=
  match resolve w LOG_FILE with
  | inr c => default [] (file_data w c)
  | inl _ => []
  end.

Definition history (w : World) : list string := lines (log_bytes w).

Definition record_bytes (w : World) (action : string) : list byte :=
  list_byte_of_string (log_record w action).

(** [s] has no newline in it. *)
Fixpoint plain (s : string) : bool :=
  match s with
  | EmptyString => true
  | String c rest => negb (Ascii.eqb c newline) && plain rest
  end.

Definition plain_names (m : gmap (list string) inode) : Prop :=
  ∀ k v, m !! k = Some v → Forall (λ n, plain n = true) k.

(** The line of a record, without the newline at its end. *)
Definition record_line (w : World) (action : string) : string :=
  "[" +:+ strftime (localtime w (clock w)) +:+ "] " +:+ action.

(** The file system of [w] with [recs] appended to the activity log. *)
Definition with_log (recs : list byte) (w : World) : gmap (list string) inode :=
  match log_key w with
  | Some L =>
      if bool_decide (recs = []) then fs w
      else <[L := File (log_bytes w ++ recs) (clock w)]> (fs w)
  | None => fs w
  end.

(** The state of everything but the file system, the output and [errno]. *)
Definition same_process (w w' : World) : Prop :=
  cwd w' = cwd w ∧ clock w' = clock w ∧ localtime w' = localtime w.

Definition is_dir (m : gmap (list string) inode) (k : list string) : bool :=
  match m !! k with
  | Some (Dir _) => true
  | _ => false
  end.

(** Every name on every path is one that a directory entry can have. *)
Definition names_ok (m : gmap (list string) inode) : Prop :=
  ∀ k v, m !! k = Some v → Forall (λ n, valid_name n = true) k.

(** [traversed m c p k q]: a walk down from the directory [c], written [p],
    through directories that can be read arrives at the directory [k],
    written [q], which can be read too. *)
Inductive traversed (m : gmap (list string) inode) :
    list string → string → list string → string → Prop :=
| traversed_here c p :
    m !! c = Some (Dir true) → traversed m c p c p
| traversed_down c p n k q :
    m !! c = Some (Dir true) →
    traversed m (c ++ [n]) (p +:+ PATH_SEP +:+ n) k q →
    traversed m c p k q.

(** [found m pattern c p line]: [line] is the full path of an entry of a
    directory traversed from [c] whose name has [pattern] in it. *)
Definition found (m : gmap (list string) inode) (pattern : string)
    (c : list string) (p : string) (line : string) : Prop :=
  ∃ k q n, traversed m c p k q ∧ is_Some (m !! (k ++ [n])) ∧
           contains pattern n = true ∧ line = q +:+ PATH_SEP +:+ n.

(** The records that a search writes for the directories [ds]. *)
Definition search_records (w : World) (pattern : string)
    (ds : list (list string * string)) : list byte :=
  concat (map (λ d, record_bytes w ("Searched for: " +:+ pattern +:+ " in " +:+ d.2)) ds).

(** The lines of these records, as [showHistory] prints them. *)
Definition search_lines (w : World) (pattern : string)
    (ds : list (list string * string)) : list string :=
  map (λ d, record_line w ("Searched for: " +:+ pattern +:+ " in " +:+ d.2)) ds.

(** When the log file is still to be created, it is not created in a
    directory strictly below [c]: the working directory is not there. *)
Definition log_outside (w : World) (c : list string) : Prop :=
  ∀ L, log_key w = Some L → fs w !! L = None → c `prefix_of` L →
       (length L ≤ S (length c))%nat.

(** [w'] is [w] after some calls of [logAction] and some output. *)
Definition log_ext (w w' : World) : Prop :=
  same_process w w' ∧ ∃ recs, fs w' = with_log recs w.

(** What is shown of a search with recursion depth [fuel]: it ends, prints
    the lines of [found] and writes a record for each directory of
    [traversed], once. *)
Definition search_ok (fuel : nat) (pattern : string) : Prop :=
  ∀ p w c,
    names_ok (fs w) → resolve w p = inr c →
    (∀ k r, fs w !! k = Some (Dir r) → (length k < fuel + length c)%nat) →
    (0 < fuel)%nat → log_outside w c →
    ∃ w' ds printed,
      searchFile_rec fuel pattern p w = Some w' ∧
      same_process w w' ∧
      stdout w' = stdout w ++ printed ∧
      fs w' = with_log (search_records w pattern ds) w ∧
      NoDup ds.*1 ∧
      (∀ k q, (k, q) ∈ ds ↔ traversed (fs w) c p k q) ∧
      (∀ line, line ∈ printed ↔ found (fs w) pattern c p line).

(** *** Recursive removal *)

(** The directories that the resolution of a path looks names up in. *)
Fixpoint walk_dirs (m : gmap (list string) inode) (cur : list string)
    (cs : list string) : list (list string) :=
  match cs with
  | [] => []
  | x :: rest =>
      cur :: match m !! cur with
             | Some (Dir _) => walk_dirs m (step cur x) rest
             | _ => []
             end
  end.

Definition resolve_dirs (w : World) (p : string) : list (list string) :=
  if bool_decide (p = "") then []
  else if is_absolute p then walk_dirs (fs w) [] (components p)
  else match cwd w with
       | Some c => walk_dirs (fs w) c (components p)
       | None => []
       end.

Definition strictly_below (c d : list string) : Prop := c `prefix_of` d ∧ c ≠ d.

(** The path [p] of the tree at [c] is not resolved through that tree (as
    [c/x/..] would be). *)
Definition path_avoids (w : World) (p : string) (c : list string) : bool :=
  forallb (λ d, negb (bool_decide (strictly_below c d))) (resolve_dirs w p).

(** The working directory, and with it the activity log, is not in the tree
    at [c]. *)
Definition rm_outside (w : World) (c : list string) : bool :=
  match cwd w with
  | Some cw => negb (bool_decide (c `prefix_of` cw ++ [LOG_FILE]))
  | None => true
  end.

(** [rmdir] accepts the path when its directory is empty. *)
Definition proper_target (p : string) (c : list string) : bool :=
  bool_decide (final_component p ≠ "." ∧ final_component p ≠ ".." ∧ c ≠ []).

(** Every directory in the tree at [c] can be read. *)
Definition readable_below (m : gmap (list string) inode) (c : list string) : bool :=
  forallb (λ kv, match kv.2 with
                 | Dir r => r || negb (bool_decide (c `prefix_of` kv.1))
                 | File _ _ => true
                 end) (map_to_list m).

(** [removal_logged m c p k q]: the removal of [c], written [p], comes to
    [k], written [q], and writes a record for it: [k] is in the tree at
    [c], below directories that can be read, and is not itself a directory
    that cannot be read. *)
Inductive removal_logged (m : gmap (list string) inode) :
    list string → string → list string → string → Prop :=
| removal_here c p :
    m !! c ≠ Some (Dir false) → removal_logged m c p c p
| removal_down c p n k q :
    m !! c = Some (Dir true) → is_Some (m !! (c ++ [n])) →
    removal_logged m (c ++ [n]) (p +:+ PATH_SEP +:+ n) k q →
    removal_logged m c p k q.


(** What a call of [logAction] adds to the log: [recs] when the log can be
    opened, nothing when it cannot. *)
Definition appended {A} (w : World) (recs : list A) : list A :=
  match log_key w with
  | Some _ => recs
  | None => []
  end.

Definition rm_records (w : World) (ds : list (list string * string)) : list byte :=
  concat (map (λ d, record_bytes w ("Removed: " +:+ d.2)) ds).

(** [w'] is [w] with [recs] at the end of the log and some of the paths in
    [P] removed. *)
Definition changed_only (P : list string → Prop) (recs : list byte)
    (w w' : World) : Prop :=
  same_process w w' ∧
  (∀ k, ¬ P k → fs w' !! k = with_log recs w !! k) ∧
  (∀ k, fs w' !! k = with_log recs w !! k ∨ fs w' !! k = None).

(** Neither the working directory nor the log is in [P]. *)
Definition spares_log (P : list string → Prop) (w : World) : Prop :=
  ∀ cw, cwd w = Some cw → ¬ P cw ∧ ¬ P (cw ++ [LOG_FILE]).

Definition all_readable (m : gmap (list string) inode) (c : list string) : Prop :=
  ∀ k r, c `prefix_of` k → m !! k = Some (Dir r) → r = true.

(** What is strictly below [c] lies in a directory. *)
Definition closed_below (m : gmap (list string) inode) (c : list string) : Prop :=
  ∀ k, strictly_below c k → is_Some (m !! k) → ∃ r, m !! removelast k = Some (Dir r).

(** In the list [ds] no path comes after a path that it lies below: what is
    in a directory comes before the directory. *)
Fixpoint children_first (ds : list (list string * string)) : Prop :=
  match ds with
  | [] => True
  | d :: rest => (∀ d', d' ∈ rest → ¬ strictly_below d.1 d'.1) ∧ children_first rest
  end.

(** What is shown of a removal with recursion depth [fuel]: it ends, changes
    nothing outside the tree, writes a record for each path of
    [removal_logged], once and after those of the paths below it, and leaves
    nothing of the tree when all of it can be read. *)
Definition rm_ok (fuel : nat) : Prop :=
  ∀ p w c,
    names_ok (fs w) → resolve w p = inr c →
    path_avoids w p c = true → rm_outside w c = true →
    (∀ k v, c `prefix_of` k → fs w !! k = Some v → (length k < fuel + length c)%nat) →
    (0 < fuel)%nat →
    ∃ w' ds,
      removeRecursive_rec fuel p w = Some w' ∧
      changed_only (λ k, c `prefix_of` k) (rm_records w ds) w w' ∧
      NoDup ds.*1 ∧
      (∀ k q, (k, q) ∈ ds ↔ removal_logged (fs w) c p k q) ∧
      (all_readable (fs w) c → closed_below (fs w) c → proper_target p c = true →
         ∀ k, c `prefix_of` k → fs w' !! k = None) ∧
      children_first ds.

(** *** The history *)

Definition is_digit (c : ascii) : bool :=
  let n := nat_of_ascii c in bool_decide (48 ≤ n)%nat && bool_decide (n ≤ 57)%nat.

(** [s] is [n] decimal digits. *)
Definition digits (n : nat) (s : string) : bool :=
  bool_decide (String.length s = n) && forallb is_digit (list_ascii_of_string s).


(** The bytes are whole lines: there are none, or the last is a newline. *)
Definition terminated (data : list byte) : bool :=
  match last data with
  | Some b => Byte.eqb b x0a
  | None => true
  end.


(** The command did what it is for: its call succeeded (the path is gone,
    for [rm]).  A command that is not an operation on files, or that is not
    run for want of arguments, does not count. *)
Definition succeeded (args : list string) (w : World) : bool :=
  match args with
  | cmd :: rest =>
      if bool_decide (cmd = "ls") then
        bool_decide (is_Some (opendir w (match rest with a1 :: _ => a1 | [] => "." end)).2)
      else if bool_decide (cmd = "cd") then
        match rest with
        | a1 :: _ => (chdir w a1).2
        | [] => false
        end
      else if bool_decide (cmd = "mv") then
        match rest with
        | a1 :: a2 :: _ => (rename w a1 a2).2
        | _ => false
        end
      else if bool_decide (cmd = "pwd") then bool_decide (is_Some (getcwd w 1024).2)
      else if bool_decide (cmd = "cp") then
        match rest with
        | a1 :: a2 :: _ => (copyFile a1 a2 w).2
        | _ => false
        end
      else if bool_decide (cmd = "rm") then
        match rest with
        | a1 :: _ =>
            match resolve w a1 with
            | inr c => bool_decide (is_Some (fs w !! c) ∧
                                    fs (removeRecursive a1 w) !! c = None)
            | inl _ => false
            end
        | [] => false
        end
      else if bool_decide (cmd = "touch") then
        match rest with
        | a1 :: _ => bool_decide (is_Some (fopen_ab w a1).2)
        | [] => false
        end
      else if bool_decide (cmd = "mkdir") then
        match rest with
        | a1 :: _ => (mkdir w a1).2
        | [] => false
        end
      else if bool_decide (cmd = "search") then
        match rest with
        | _ :: _ => bool_decide (is_Some (opendir w ".").2)
        | [] => false
        end
      else false
  | [] => false
  end.

(** The vocabulary of the dispatcher. *)
Definition commands : list string :=
  ["exit"; "quit"; "help"; "ls"; "cd"; "pwd"; "cp"; "mv"; "rm"; "touch"; "mkdir";
   "search"; "history"].






(** The number of commands of the input that succeeded. *)
Fixpoint successes (input : list string) (w : World) : nat :=
  match input with
  | [] => 0
  | line :: rest =>
      ((if succeeded (split line) (prompt w) then 1 else 0) +
       match dispatch (split line) (prompt w) with
       | Some w1 => successes rest w1
       | None => 0
       end)%nat
  end.

End Spec.

(** ** Sample states *)

Module Sample.
Import Text Time Posix Explorer.

Definition at_home (m : gmap (list string) inode) : World :=
  mkWorld m (Some ["home"]) 1793608205 gmtime ENOENT [] [].

Definition hello : list byte := list_byte_of_string "hello".

Definition old_log : list byte :=
  list_byte_of_string ("[2026-11-01 10:00:00] Checked current directory." +:+ endl).

(** /home with a file, a directory with two files and a directory that
    cannot be read; no activity log yet. *)
Definition tree : gmap (list string) inode :=
  list_to_map
    [ ([], Dir true); (["home"], Dir true);
      (["home"; "notes.txt"], File hello 100);
      (["home"; "sub"], Dir true);
      (["home"; "sub"; "a.txt"], File [] 100);
      (["home"; "sub"; "a.txt.bak"], File hello 100);
      (["home"; "locked"], Dir false);
      (["home"; "locked"; "a.txt"], File [] 100) ].

Definition fresh : World := at_home tree.

(** The same with an activity log of one record. *)
Definition home : World :=
  at_home (<[ ["home"; "activity_log.txt"] := File old_log 50 ]> tree).

(** A name with a newline in it, and the root with one directory of that
    name as the working directory; no activity log yet. *)
Definition odd_name : string := "a" +:+ endl +:+ "b".

Definition odd : World :=
  mkWorld (list_to_map [ ([], Dir true); ([odd_name], Dir true) ])
          (Some []) 1793608205 gmtime ENOENT [] [].

End Sample.
(** ** Notions for further properties of the program *)

Module Props.
Import Text Time Posix Explorer Spec Sample.

(** A word of a command line: not empty, no white space in it. *)
Definition is_word (s : string) : bool :=
  negb (bool_decide (s = "")) &&
  forallb (λ c, negb (isspace c)) (list_ascii_of_string s).

(** Nothing but white space. *)
Definition blank (s : string) : bool := forallb isspace (list_ascii_of_string s).

(** Where a word can end: at the end of the line or before white space. *)
Definition word_end (rest : string) : Prop :=
  match rest with
  | EmptyString => True
  | String c _ => isspace c = true
  end.

(** The line ends the session: its first word is [exit] or [quit]. *)
Definition leaves (line : string) : bool :=
  match split line with
  | cmd :: _ => bool_decide (cmd = "exit" ∨ cmd = "quit")
  | [] => false
  end.

(** The commands that are not run without arguments: how many they need,
    and what is printed when there are fewer. *)
Definition usage : list (string * (nat * string)) :=
  [ ("cd", (1%nat, "Usage: cd <dir>"));
    ("cp", (2%nat, "Usage: cp <src> <dest>"));
    ("mv", (2%nat, "Usage: mv <src> <dest>"));
    ("rm", (1%nat, "Usage: rm <path>"));
    ("touch", (1%nat, "Usage: touch <file>"));
    ("mkdir", (1%nat, "Usage: mkdir <dir>"));
    ("search", (1%nat, "Usage: search <pattern>")) ].

(** The number of words after its name that a command reads. *)
Definition arity (cmd : string) : nat :=
  if bool_decide (cmd = "cp" ∨ cmd = "mv") then 2
  else if bool_decide (cmd ∈ ["ls"; "cd"; "rm"; "touch"; "mkdir"; "search"]) then 1
  else 0.

(** The line that [ls] prints for the entry [name]. *)
Definition entry_line (name : string) (i : inode) : string :=
  (match i with
   | Dir _ => "[DIR]  "
   | File _ _ => "       "
   end) +:+ name +:+ tab +:+ "(" +:+ pretty (st_size i) +:+ " bytes)".

(** The lines for the names [names] of the directory [c]. *)
Definition listing (m : gmap (list string) inode) (c : list string)
    (names : list string) : list (string * string) :=
  omap (λ n, (λ i, (n, entry_line n i)) <$> m !! (c ++ [n])) names.

(** [line] is a line for the entry [name]: the name after the mark [DIR]
    for a directory, after seven spaces for a file, then the size in bytes
    that [stat] gives; for a file that is the number of its bytes, for a
    directory it is for the file system to say. *)
Definition shown (name : string) (i : inode) (line : string) : Prop :=
  match i with
  | Dir _ =>
      ∃ size : Z, line = "[DIR]  " +:+ name +:+ tab +:+ "(" +:+ pretty size +:+ " bytes)"
  | File data _ =>
      line = "       " +:+ name +:+ tab +:+
             "(" +:+ pretty (Z.of_nat (length data)) +:+ " bytes)"
  end.

(** A name of 1024 characters, and a state with a working directory of
    that name, whose path [getcwd] cannot write into 1024 bytes. *)
Definition long_name : string := string_of_list_ascii (replicate 1024 "a"%char).

Definition deep : World :=
  mkWorld (list_to_map [ ([], Dir true); ([long_name], Dir true) ])
          (Some [long_name]) 1793608205 gmtime ENOENT [] [].

(** What is at [k] once the tree at [src] has been moved to [dst]: below
    [dst] what was below [src], nothing where [src] was, and elsewhere what
    was there. *)
Definition moved (src dst : list string) (m : gmap (list string) inode)
    (k : list string) : option inode :=
  match strip_prefix dst k with
  | Some rest => m !! (src ++ rest)
  | None => if bool_decide (is_Some (strip_prefix src k)) then None else m !! k
  end.

(** A state in which [activity_log.txt] is a directory: the log cannot be
    opened. *)
Definition blocked : World :=
  at_home (<[ ["home"; "activity_log.txt"] := Dir true ]> tree).

(** The words of a line that does not ask for a change of the files or of
    the working directory: its command is none of [cd], [cp], [mv], [rm],
    [touch] and [mkdir]. *)
Definition reads_only (args : list string) : bool :=
  match args with
  | [] => true
  | cmd :: _ => negb (bool_decide (cmd ∈ ["cd"; "cp"; "mv"; "rm"; "touch"; "mkdir"]))
  end.

End Props.
(** * Properties *)

(** ** Text *)

Module TextFacts.
Import Text.

Lemma app_cons (c : ascii) (a b : string) : String c a +:+ b = String c (a +:+ b).
Proof. reflexivity. Qed.

Lemma app_empty_l (s : string) : "" +:+ s = s.
Proof. reflexivity. Qed.

Lemma app_empty_r (s : string) : s +:+ "" = s.
Proof. induction s as [|c s IH]; [done|]. by rewrite app_cons, IH. Qed.

Lemma app_assoc (a b c : string) : (a +:+ b) +:+ c = a +:+ b +:+ c.
Proof. induction a as [|x a IH]; [done|]. by rewrite !app_cons, IH. Qed.

Lemma bytes_app (a b : string) :
  list_byte_of_string (a +:+ b) = list_byte_of_string a ++ list_byte_of_string b.
Proof.
  unfold list_byte_of_string.
  induction a as [|x a IH]; [done|]. rewrite app_cons. simpl. by rewrite IH.
Qed.

Lemma components_nonempty (s : string) : components s ≠ [].
Proof.
  induction s as [|c s IH]; simpl; [done|].
  destruct (Ascii.eqb c slash); [done|]. by destruct (components s).
Qed.

(** A name without a slash is one component. *)
Lemma components_name (n : string) : has_slash n = false → components n = [n].
Proof.
  induction n as [|c n IH]; simpl; [done|].
  destruct (Ascii.eqb c slash); simpl; [done|].
  intros Hn. by rewrite IH.
Qed.

(** The components of [a/b] are those of [a], then those of [b]. *)
Lemma components_sep (a b : string) :
  components (a +:+ PATH_SEP +:+ b) = components a ++ components b.
Proof.
  induction a as [|c a IH].
  - rewrite app_empty_l. unfold PATH_SEP. rewrite app_cons, app_empty_l. done.
  - rewrite app_cons. simpl. rewrite IH.
    destruct (Ascii.eqb c slash); [done|].
    pose proof (components_nonempty a). by destruct (components a).
Qed.

Lemma is_absolute_sep (a b : string) :
  a ≠ "" → is_absolute (a +:+ PATH_SEP +:+ b) = is_absolute a.
Proof. by destruct a. Qed.

Lemma sep_nonempty (a b : string) : a +:+ PATH_SEP +:+ b ≠ "".
Proof. by destruct a. Qed.

Lemma prefix_app (p s : string) : String.prefix p s = true ↔ ∃ b, s = p +:+ b.
Proof.
  revert s. induction p as [|c p IH]; intros s.
  - split; [intros _; by exists s | by destruct s].
  - destruct s as [|d s]; simpl.
    { split; [done|]. intros [b Hb]. by rewrite app_cons in Hb. }
    destruct (ascii_dec c d) as [->|Hne].
    + rewrite IH. split; intros [b Hb]; exists b.
      * by rewrite app_cons, Hb.
      * rewrite app_cons in Hb. by injection Hb.
    + split; [done|]. intros [b Hb]. rewrite app_cons in Hb. congruence.
Qed.

(** [contains] is the substring test. *)
Lemma contains_spec (pattern name : string) :
  contains pattern name = true ↔ ∃ a b, name = a +:+ pattern +:+ b.
Proof.
  induction name as [|c name IH]; cbn [contains].
  - rewrite orb_false_r, prefix_app. split.
    + intros [b Hb]. by exists "", b.
    + intros [a [b Hab]]. destruct a; [by exists b|done].
  - rewrite orb_true_iff, IH, prefix_app. split.
    + intros [[b Hb]|[a [b Hab]]]; [by exists "", b|].
      exists (String c a), b. by rewrite app_cons, Hab.
    + intros [a [b Hab]]. destruct a as [|x a].
      * left. by exists b.
      * right. rewrite app_cons in Hab. injection Hab as _ Hab. by exists a, b.
Qed.

End TextFacts.

(** ** Paths and directories *)

Module PosixFacts.
Import Text Time Posix Explorer Spec TextFacts.

Lemma child_of_spec (c k : list string) (n : string) :
  child_of c k = Some n ↔ k = c ++ [n].
Proof.
  revert k. induction c as [|x c IH]; intros k; simpl.
  - destruct k as [|y [|z k]]; naive_solver.
  - destruct k as [|y k]; [naive_solver|].
    case_bool_decide; [subst; rewrite IH|]; naive_solver.
Qed.

Lemma elem_of_children (m : gmap (list string) inode) (c : list string) (n : string) :
  n ∈ children m c ↔ is_Some (m !! (c ++ [n])).
Proof.
  unfold children. rewrite list_elem_of_omap. split.
  - intros [[k v] [Hin Hc]]. apply elem_of_map_to_list in Hin.
    apply child_of_spec in Hc. simpl in Hc. subst. eauto.
  - intros [v Hv]. exists (c ++ [n], v). split.
    + by apply elem_of_map_to_list.
    + by apply child_of_spec.
Qed.

Lemma NoDup_children (m : gmap (list string) inode) (c : list string) :
  NoDup (children m c).
Proof.
  unfold children.
  assert (Hnd : NoDup (map_to_list m).*1) by apply NoDup_fst_map_to_list.
  induction (map_to_list m) as [|[k v] l IH]; simpl; [constructor|].
  apply NoDup_cons in Hnd as [Hk Hnd].
  destruct (child_of c k) as [n|] eqn:Hc; [|by apply IH].
  apply NoDup_cons. split; [|by apply IH].
  rewrite list_elem_of_omap. intros [[k' v'] [Hin Hc']].
  apply child_of_spec in Hc, Hc'. simpl in *. subst.
  apply Hk. apply list_elem_of_fmap. by exists (c ++ [n], v').
Qed.

Lemma children_nil (m : gmap (list string) inode) (c : list string) :
  children m c = [] ↔ ∀ n, m !! (c ++ [n]) = None.
Proof.
  split.
  - intros Hnil n. destruct (m !! (c ++ [n])) eqn:E; [|done].
    assert (n ∈ children m c) as Hin by (apply elem_of_children; eauto).
    rewrite Hnil in Hin. by apply elem_of_nil in Hin.
  - intros Hall. destruct (children m c) as [|n l] eqn:E; [done|].
    assert (n ∈ children m c) as Hin by (rewrite E; left).
    apply elem_of_children in Hin as [v Hv]. by rewrite Hall in Hv.
Qed.

Lemma valid_name_spec (n : string) :
  valid_name n = true ↔ n ≠ "" ∧ n ≠ "." ∧ n ≠ ".." ∧ has_slash n = false.
Proof.
  unfold valid_name. rewrite andb_true_iff, bool_decide_eq_true, negb_true_iff.
  naive_solver.
Qed.

Lemma step_name (c : list string) (n : string) :
  valid_name n = true → step c n = c ++ [n].
Proof.
  intros (H1 & H2 & H3 & _)%valid_name_spec. unfold step.
  rewrite bool_decide_eq_false_2 by naive_solver.
  by rewrite bool_decide_eq_false_2.
Qed.

Lemma walk_app (m : gmap (list string) inode) (cur : list string) (cs cs' : list string) :
  walk m cur (cs ++ cs') =
  match walk m cur cs with
  | inr c => walk m c cs'
  | inl e => inl e
  end.
Proof.
  revert cur. induction cs as [|x cs IH]; intros cur; simpl; [done|].
  destruct (m !! cur) as [[|]|]; auto.
Qed.

(** Resolving [p/n] is resolving [p], then looking a name up in it. *)
Lemma resolve_sub (w : World) (p n : string) (c : list string) (r : bool) :
  resolve w p = inr c → fs w !! c = Some (Dir r) → valid_name n = true →
  resolve w (p +:+ PATH_SEP +:+ n) = inr (c ++ [n]).
Proof.
  intros Hres Hdir Hn. unfold resolve in *.
  case_bool_decide as Hp; [done|].
  rewrite bool_decide_eq_false_2 by apply sep_nonempty.
  rewrite is_absolute_sep by done.
  assert (components (p +:+ PATH_SEP +:+ n) = components p ++ [n]) as ->.
  { rewrite components_sep, (components_name n); [done|].
    by apply valid_name_spec in Hn as (_ & _ & _ & ?). }
  assert (∀ cur, walk (fs w) cur (components p) = inr c →
                 walk (fs w) cur (components p ++ [n]) = inr (c ++ [n])) as Hw.
  { intros cur Hcur. rewrite walk_app, Hcur. simpl. by rewrite Hdir, step_name. }
  destruct (is_absolute p); [by apply Hw|].
  destruct (cwd w); [by apply Hw|done].
Qed.

Lemma resolve_log (w : World) :
  resolve w LOG_FILE =
  match cwd w with
  | Some c =>
      match fs w !! c with
      | Some (Dir _) => inr (c ++ [LOG_FILE])
      | Some (File _ _) => inl ENOTDIR
      | None => inl ENOENT
      end
  | None => inl ENOENT
  end.
Proof.
  unfold resolve. rewrite bool_decide_eq_false_2 by done.
  change (is_absolute LOG_FILE) with false. cbv iota.
  destruct (cwd w) as [c|]; [|done].
  change (components LOG_FILE) with [LOG_FILE]. simpl.
  destruct (fs w !! c) as [[|]|]; done.
Qed.

(** Resolution looks at the directories on the way only. *)
Lemma walk_same_dirs (m m' : gmap (list string) inode) (cur c : list string)
    (cs : list string) :
  (∀ k r, m !! k = Some (Dir r) → ∃ r', m' !! k = Some (Dir r')) →
  walk m cur cs = inr c → walk m' cur cs = inr c.
Proof.
  intros Hdirs. revert cur. induction cs as [|x cs IH]; intros cur; simpl; [done|].
  destruct (m !! cur) as [[|r]|] eqn:E; try done.
  destruct (Hdirs _ _ E) as [r' ->]. apply IH.
Qed.

Lemma resolve_same_dirs (w w' : World) (p : string) (c : list string) :
  cwd w' = cwd w →
  (∀ k r, fs w !! k = Some (Dir r) → ∃ r', fs w' !! k = Some (Dir r')) →
  resolve w p = inr c → resolve w' p = inr c.
Proof.
  intros Hcwd Hdirs. unfold resolve. rewrite Hcwd.
  case_bool_decide; [done|].
  destruct (is_absolute p); [by apply walk_same_dirs|].
  destruct (cwd w); [by apply walk_same_dirs|done].
Qed.

Lemma wf_fs_lookup (m : gmap (list string) inode) (k : list string) (v : inode) :
  wf_fs m = true → m !! k = Some v →
  Forall (λ n, valid_name n = true) k ∧
  (k ≠ [] → ∃ r, m !! removelast k = Some (Dir r)).
Proof.
  unfold wf_fs. intros Hwf%Is_true_eq_left Hk.
  rewrite forallb_True, Forall_forall in Hwf.
  specialize (Hwf (k, v)). simpl in Hwf.
  assert (wf_entry m k) as Hwk by (apply Hwf, elem_of_map_to_list, Hk).
  unfold wf_entry in Hwk. apply andb_True in Hwk as [Hnames Hpar].
  split.
  - apply forallb_True in Hnames. eapply Forall_impl; [done|].
    intros n Hn. by apply Is_true_eq_true.
  - intros Hne. destruct k; [done|].
    destruct (m !! removelast (s :: k)) as [[|r]|]; try done. eauto.
Qed.

Lemma wf_fs_child (m : gmap (list string) inode) (c : list string) (n : string) :
  wf_fs m = true → n ∈ children m c → valid_name n = true.
Proof.
  intros Hwf [v Hv]%elem_of_children.
  destruct (wf_fs_lookup _ _ _ Hwf Hv) as [Hnames _].
  apply Forall_app in Hnames as [_ Hn]. by inversion Hn.
Qed.

Lemma dir_depth_bound (m : gmap (list string) inode) (k : list string) (r : bool) :
  m !! k = Some (Dir r) → (length k ≤ dir_depth m)%nat.
Proof.
  intros Hk. unfold dir_depth. apply max_list_elem_of_le.
  apply list_elem_of_omap. exists (k, Dir r). split; [|done].
  by apply elem_of_map_to_list.
Qed.

End PosixFacts.
(** ** Renaming *)

Module RenameFacts.
Import Text Time Posix Explorer Spec TextFacts PosixFacts.

Lemma strip_prefix_spec (c k rest : list string) :
  strip_prefix c k = Some rest ↔ k = c ++ rest.
Proof.
  revert k. induction c as [|x c IH]; intros k; simpl.
  - naive_solver.
  - destruct k as [|y k]; [naive_solver|]. case_bool_decide.
    + subst y. rewrite IH. naive_solver.
    + naive_solver.
Qed.

Lemma strip_prefix_None (c k : list string) :
  strip_prefix c k = None ↔ ¬ c `prefix_of` k.
Proof.
  split.
  - intros Hn [rest ->]. assert (strip_prefix c (c ++ rest) = Some rest) as H
      by (by apply strip_prefix_spec). congruence.
  - intros Hn. destruct (strip_prefix c k) as [rest|] eqn:E; [|done].
    apply strip_prefix_spec in E as ->. destruct Hn. by exists rest.
Qed.

Lemma rebase_under (src dst rest : list string) :
  rebase src dst (src ++ rest) = dst ++ rest.
Proof.
  unfold rebase.
  by rewrite (proj2 (strip_prefix_spec src (src ++ rest) rest) eq_refl).
Qed.

Lemma rebase_outside (src dst k : list string) :
  ¬ src `prefix_of` k → rebase src dst k = k.
Proof. intros H. unfold rebase. by apply strip_prefix_None in H as ->. Qed.

Lemma rebase_same (src k : list string) : rebase src src k = k.
Proof.
  unfold rebase. destruct (strip_prefix src k) as [rest|] eqn:E; [|done].
  by apply strip_prefix_spec in E.
Qed.

(** The entries of [move_tree]. *)
Lemma elem_of_move_tree (src dst : list string) (m : gmap (list string) inode)
    (k : list string) (v : inode) :
  (k, v) ∈ map (λ kv, (rebase src dst kv.1, kv.2)) (map_to_list (delete dst m)) ↔
  ∃ k0, m !! k0 = Some v ∧ k0 ≠ dst ∧ k = rebase src dst k0.
Proof.
  rewrite list_elem_of_fmap. split.
  - intros ([k0 v0] & [= -> ->] & Hin%elem_of_map_to_list).
    apply lookup_delete_Some in Hin as [Hne Hin]. exists k0. eauto.
  - intros (k0 & Hk0 & Hne & ->). exists (k0, v). split; [done|].
    apply elem_of_map_to_list, lookup_delete_Some. eauto.
Qed.




End RenameFacts.

(** ** The activity log *)

Module LogFacts.
Import Text Time Posix Explorer Spec TextFacts PosixFacts.

Lemma log_key_spec (w : World) (L : list string) :
  log_key w = Some L ↔
  ∃ c r, cwd w = Some c ∧ fs w !! c = Some (Dir r) ∧ L = c ++ [LOG_FILE] ∧
         ∀ r', fs w !! L ≠ Some (Dir r').
Proof.
  unfold log_key. rewrite resolve_log.
  destruct (cwd w) as [c|]; [|naive_solver].
  destruct (fs w !! c) as [[|r]|] eqn:Ec; [naive_solver| |naive_solver].
  destruct (fs w !! (c ++ [LOG_FILE])) as [[|r']|] eqn:EL.
  - split; [intros [= <-]|]; [exists c, r; rewrite EL|]; naive_solver.
  - split; [done|]. intros (c' & r0 & [= <-] & _ & -> & Hn). by destruct (Hn r').
  - split; [intros [= <-]|]; [exists c, r; rewrite EL|]; naive_solver.
Qed.

Lemma log_key_ext (w w' : World) :
  fs w' = fs w → cwd w' = cwd w → log_key w' = log_key w.
Proof. intros Hfs Hcwd. unfold log_key, resolve. by rewrite Hfs, Hcwd. Qed.

Lemma log_bytes_ext (w w' : World) :
  fs w' = fs w → cwd w' = cwd w → log_bytes w' = log_bytes w.
Proof. intros Hfs Hcwd. unfold log_bytes, resolve, file_data. by rewrite Hfs, Hcwd. Qed.

Lemma log_bytes_key (w : World) (L : list string) :
  log_key w = Some L → log_bytes w = default [] (file_data w L).
Proof.
  unfold log_key, log_bytes. destruct (resolve w LOG_FILE) as [|c]; [done|].
  destruct (fs w !! c) as [[|]|]; naive_solver.
Qed.

Lemma log_bytes_no_key (w : World) : log_key w = None → log_bytes w = [].
Proof.
  unfold log_key, log_bytes, file_data. destruct (resolve w LOG_FILE) as [|c]; [done|].
  by destruct (fs w !! c) as [[|]|].
Qed.

Lemma record_bytes_nonempty (w : World) (action : string) : record_bytes w action ≠ [].
Proof. unfold record_bytes, log_record. by rewrite app_cons. Qed.

(** What [logAction] leaves alone. *)
Lemma logAction_process (action : string) (w : World) :
  same_process w (logAction action w) ∧
  stdout (logAction action w) = stdout w ∧ stderr (logAction action w) = stderr w.
Proof.
  unfold same_process, logAction, fopen_ab, fwrite.
  destruct (resolve w LOG_FILE) as [e|c]; [done|].
  destruct (fs w !! c) as [[d t|r]|] eqn:Ec; simpl; [by rewrite Ec| done |].
  by rewrite lookup_insert_eq.
Qed.

(** [logAction] appends one record to the log, when the log opens. *)
Lemma fs_logAction (action : string) (w : World) :
  fs (logAction action w) = with_log (record_bytes w action) w.
Proof.
  unfold with_log. rewrite bool_decide_eq_false_2 by apply record_bytes_nonempty.
  unfold logAction, fopen_ab, fwrite, log_key, log_bytes, file_data.
  destruct (resolve w LOG_FILE) as [e|c]; [done|].
  destruct (fs w !! c) as [[d t|r]|] eqn:Ec; simpl; [by rewrite Ec| done |].
  rewrite lookup_insert_eq. simpl. by rewrite insert_insert_eq.
Qed.

Lemma with_log_nil (w : World) : with_log [] w = fs w.
Proof. unfold with_log. by destruct (log_key w). Qed.

Lemma with_log_no_key (recs : list byte) (w : World) :
  log_key w = None → with_log recs w = fs w.
Proof. unfold with_log. by intros ->. Qed.

Lemma with_log_lookup_ne (recs : list byte) (w : World) (k : list string) :
  log_key w ≠ Some k → with_log recs w !! k = fs w !! k.
Proof.
  unfold with_log. destruct (log_key w) as [L|]; [|done].
  intros Hne. case_bool_decide; [done|]. apply lookup_insert_ne. congruence.
Qed.

(** Appending twice is appending the two pieces. *)
Lemma with_log_app (r1 r2 : list byte) (w w1 : World) :
  cwd w1 = cwd w → clock w1 = clock w → fs w1 = with_log r1 w →
  with_log r2 w1 = with_log (r1 ++ r2) w.
Proof.
  intros Hcwd Hclock Hfs.
  destruct (decide (r1 = [])) as [->|Hr1].
  { rewrite with_log_nil in Hfs. simpl. unfold with_log.
    by rewrite (log_key_ext w w1), (log_bytes_ext w w1), Hfs, Hclock. }
  destruct (log_key w) as [L|] eqn:EL.
  2: { rewrite with_log_no_key in Hfs by done.
       rewrite !with_log_no_key; [done..|]. by rewrite (log_key_ext w w1). }
  assert (fs w1 = <[L := File (log_bytes w ++ r1) (clock w)]> (fs w)) as Hfs1.
  { rewrite Hfs. unfold with_log. by rewrite EL, bool_decide_eq_false_2. }
  assert (log_key w1 = Some L) as EL1.
  { apply log_key_spec in EL as (c & r & Hc & Hdir & -> & HL).
    apply log_key_spec. exists c, r. rewrite Hcwd, Hfs1.
    split_and!; [done| |done|].
    - rewrite lookup_insert_ne; [done|]. intros Heq.
      apply (f_equal length) in Heq. rewrite length_app in Heq. simpl in Heq. lia.
    - intros r'. by rewrite lookup_insert_eq. }
  unfold with_log. rewrite EL, EL1.
  rewrite (log_bytes_key w1 L EL1). unfold file_data. rewrite Hfs1, lookup_insert_eq.
  simpl. rewrite Hclock.
  case_bool_decide as Hr2.
  - subst r2. rewrite app_nil_r. by rewrite bool_decide_eq_false_2.
  - rewrite bool_decide_eq_false_2 by (by destruct r1).
    by rewrite insert_insert_eq, <- (assoc_L (++)).
Qed.

Lemma log_bytes_with_log (recs : list byte) (w w' : World) (L : list string) :
  log_key w = Some L → cwd w' = cwd w → fs w' = with_log recs w →
  log_bytes w' = log_bytes w ++ recs.
Proof.
  intros EL Hcwd Hfs.
  destruct (decide (recs = [])) as [->|Hr].
  { rewrite with_log_nil in Hfs. by rewrite app_nil_r, (log_bytes_ext w w'). }
  assert (fs w' = <[L := File (log_bytes w ++ recs) (clock w)]> (fs w)) as Hfs1.
  { rewrite Hfs. unfold with_log. by rewrite EL, bool_decide_eq_false_2. }
  apply log_key_spec in EL as (c & r & Hc & Hdir & -> & HL).
  unfold log_bytes at 1. unfold file_data. rewrite resolve_log, Hcwd, Hc, Hfs1.
  rewrite lookup_insert_ne.
  2: { intros Heq. apply (f_equal length) in Heq. rewrite length_app in Heq.
       simpl in Heq. lia. }
  rewrite Hdir. by rewrite lookup_insert_eq.
Qed.

End LogFacts.

(** ** Lines and time stamps *)

Module LineFacts.
Import Text Time Posix Explorer Spec TextFacts PosixFacts LogFacts.

(** *** Lines *)

Lemma lines_aux_newline (cur a b : list byte) :
  lines_aux cur (a ++ x0a :: b) = lines_aux cur (a ++ [x0a]) ++ lines_aux [] b.
Proof.
  revert cur. induction a as [|y a IH]; intros cur; simpl; [done|].
  destruct (Byte.eqb y x0a); simpl; by rewrite IH.
Qed.

(** After whole lines, the lines of what is appended are appended. *)
Lemma lines_app (a b : list byte) :
  terminated a = true → lines (a ++ b) = lines a ++ lines b.
Proof.
  unfold terminated, lines. destruct (last a) as [y|] eqn:E.
  - intros ->%byte_dec_bl. apply last_Some in E as [a' ->].
    rewrite <- (assoc_L (++)). simpl. apply lines_aux_newline.
  - intros _. apply last_None in E as ->. done.
Qed.


Lemma terminated_app (a b : list byte) :
  terminated a = true → terminated b = true → terminated (a ++ b) = true.
Proof.
  unfold terminated. rewrite last_app. by destruct (last b).
Qed.

Lemma record_bytes_terminated (w : World) (action : string) :
  terminated (record_bytes w action) = true.
Proof.
  unfold record_bytes, log_record, terminated.
  rewrite !bytes_app. rewrite !(assoc_L (++)).
  change (list_byte_of_string endl) with [x0a]. by rewrite last_snoc.
Qed.

Lemma records_terminated (w : World) (actions : list string) :
  terminated (concat (map (record_bytes w) actions)) = true.
Proof.
  induction actions as [|a actions IH]; cbn [map concat]; [done|].
  apply terminated_app; [apply record_bytes_terminated|done].
Qed.


(** *** The time stamp *)

Lemma digits_4_years (y : Z) : 1000 ≤ y ≤ 9999 → digits 4 (pretty y) = true.
Proof.
  intros Hy.
  assert (forallb (λ y, digits 4 (pretty y)) (seqZ 1000 9000) = true) as Hall
    by (vm_compute; reflexivity).
  apply Is_true_eq_left in Hall. rewrite forallb_True, Forall_forall in Hall.
  apply Is_true_eq_true, Hall. apply elem_of_seqZ. lia.
Qed.

Lemma digits_2_pad2 (n : Z) : 0 ≤ n ≤ 99 → digits 2 (pad2 n) = true.
Proof.
  intros Hn.
  assert (forallb (λ n, digits 2 (pad2 n)) (seqZ 0 100) = true) as Hall
    by (vm_compute; reflexivity).
  apply Is_true_eq_left in Hall. rewrite forallb_True, Forall_forall in Hall.
  apply Is_true_eq_true, Hall. apply elem_of_seqZ. lia.
Qed.

Lemma digits_4_inv (s : string) :
  digits 4 s = true →
  ∃ a b c d, s = String a (String b (String c (String d ""))) ∧
             forallb is_digit [a; b; c; d] = true.
Proof.
  unfold digits. intros [Hlen Hd]%andb_true_iff. apply bool_decide_eq_true in Hlen.
  destruct s as [|a [|b [|c [|d [|]]]]]; try done. by exists a, b, c, d.
Qed.

Lemma digits_2_inv (s : string) :
  digits 2 s = true →
  ∃ a b, s = String a (String b "") ∧ forallb is_digit [a; b] = true.
Proof.
  unfold digits. intros [Hlen Hd]%andb_true_iff. apply bool_decide_eq_true in Hlen.
  destruct s as [|a [|b [|]]]; try done. by exists a, b.
Qed.


(** *** Records of one line *)

Lemma plain_app (a b : string) : plain (a +:+ b) = plain a && plain b.
Proof.
  induction a as [|c a IH]; [done|]. rewrite app_cons. simpl.
  by rewrite IH, andb_assoc.
Qed.

Lemma byte_of_ascii_newline (c : ascii) :
  Ascii.eqb c newline = false → Byte.eqb (byte_of_ascii c) x0a = false.
Proof.
  intros Hc. destruct (Byte.eqb (byte_of_ascii c) x0a) eqn:E; [|done].
  apply byte_dec_bl in E. apply (f_equal ascii_of_byte) in E.
  rewrite ascii_of_byte_of_ascii in E. subst c. done.
Qed.

Lemma lines_aux_plain (cur : list byte) (s : string) :
  plain s = true →
  lines_aux cur (list_byte_of_string s ++ [x0a]) =
  [string_of_list_byte (rev cur ++ list_byte_of_string s)].
Proof.
  revert cur. induction s as [|c s IH]; intros cur Hs.
  - simpl. by rewrite app_nil_r.
  - simpl in Hs. apply andb_true_iff in Hs as [Hc%negb_true_iff Hs].
    change (list_byte_of_string (String c s))
      with (byte_of_ascii c :: list_byte_of_string s).
    cbn [app lines_aux]. rewrite (byte_of_ascii_newline c Hc), IH by done.
    simpl. by rewrite <- (assoc_L (++)).
Qed.

Lemma log_record_line (w : World) (action : string) :
  log_record w action = record_line w action +:+ endl.
Proof. unfold log_record, record_line. by rewrite !app_assoc. Qed.

Lemma lines_record (w : World) (action : string) :
  plain (record_line w action) = true →
  lines (record_bytes w action) = [record_line w action].
Proof.
  intros Hp. unfold lines, record_bytes. rewrite log_record_line, bytes_app.
  change (list_byte_of_string endl) with [x0a].
  rewrite lines_aux_plain by done. simpl. by rewrite string_of_list_byte_of_string.
Qed.

Lemma plain_digits (n : nat) (s : string) : digits n s = true → plain s = true.
Proof.
  unfold digits. intros [_ Hd]%andb_true_iff.
  induction s as [|c s IH]; [done|]. simpl in *.
  apply andb_true_iff in Hd as [Hc Hd]. rewrite IH by done. rewrite andb_true_r.
  apply negb_true_iff. destruct (Ascii.eqb c newline) eqn:E; [|done].
  apply Ascii.eqb_eq in E. subst c. done.
Qed.

Lemma plain_strftime (t : tm) : tm_ok t → plain (strftime t) = true.
Proof.
  intros (Hy & Hm & Hd & Hh & Hi & Hs). unfold strftime.
  rewrite !plain_app.
  rewrite (plain_digits 4 _ (digits_4_years _ Hy)).
  rewrite (plain_digits 2 _ (digits_2_pad2 (tm_mon t + 1) ltac:(lia))).
  rewrite (plain_digits 2 _ (digits_2_pad2 (tm_mday t) ltac:(lia))).
  rewrite (plain_digits 2 _ (digits_2_pad2 (tm_hour t) ltac:(lia))).
  rewrite (plain_digits 2 _ (digits_2_pad2 (tm_min t) ltac:(lia))).
  rewrite (plain_digits 2 _ (digits_2_pad2 (tm_sec t) ltac:(lia))). done.
Qed.

Lemma plain_record_line (w : World) (action : string) :
  tm_ok (localtime w (clock w)) → plain action = true →
  plain (record_line w action) = true.
Proof.
  intros Htm Ha. unfold record_line. rewrite !plain_app, plain_strftime, Ha by done. done.
Qed.

(** A number is written without a newline, whatever the number, and so is
    the time stamp of any time. *)
Lemma plain_pretty_N_go (x : N) (s : string) :
  plain s = true → plain (pretty_N_go x s) = true.
Proof.
  revert s. induction (N.lt_wf_0 x) as [x _ IH]; intros s Hs.
  assert (x = 0 ∨ 0 < x)%N as [->|Hx] by lia.
  - by rewrite pretty_N_go_0.
  - rewrite pretty_N_go_step by done. apply IH.
    { by apply N.div_lt. }
    simpl. rewrite Hs, andb_true_r. unfold pretty_N_char. by repeat case_match.
Qed.

Lemma plain_pretty (z : Z) : plain (pretty z) = true.
Proof.
  assert (∀ p, plain (pretty (Npos p)) = true) as Hpos.
  { intros p. unfold pretty, pretty_N. case_decide; [done|].
    by apply plain_pretty_N_go. }
  destruct z as [|p|p]; [done|apply Hpos|].
  unfold pretty, pretty_Z. rewrite plain_app. simpl. apply Hpos.
Qed.

Lemma plain_stamp (t : tm) : plain (strftime t) = true.
Proof.
  assert (∀ n, plain (pad2 n) = true) as Hpad.
  { intros n. unfold pad2. case_bool_decide; [|apply plain_pretty].
    rewrite plain_app. simpl. apply plain_pretty. }
  unfold strftime. rewrite !plain_app, plain_pretty, !Hpad. done.
Qed.

Lemma plain_record (w : World) (action : string) :
  plain action = true → plain (record_line w action) = true.
Proof.
  intros Ha. unfold record_line. by rewrite !plain_app, plain_stamp, Ha.
Qed.

Lemma lines_plain_records (w : World) (actions : list string) :
  Forall (λ a, plain a = true) actions →
  lines (concat (map (record_bytes w) actions)) = map (record_line w) actions.
Proof.
  induction 1 as [|a actions Ha _ IH]; [done|].
  cbn [map concat]. rewrite lines_app by apply record_bytes_terminated.
  rewrite IH, lines_record; [done|]. by apply plain_record.
Qed.

(** The lines of records of plain actions: one each. *)
Lemma lines_records (w : World) (actions : list string) :
  tm_ok (localtime w (clock w)) → Forall (λ a, plain a = true) actions →
  lines (concat (map (record_bytes w) actions)) = map (record_line w) actions.
Proof.
  intros Htm. induction 1 as [|a actions Ha _ IH]; [done|].
  cbn [map concat]. rewrite lines_app by apply record_bytes_terminated.
  rewrite IH, lines_record; [done|]. by apply plain_record_line.
Qed.

End LineFacts.

(** ** The operations and the log *)

Module OpFacts.
Import Text Time Posix Explorer Spec Sample TextFacts PosixFacts LogFacts.

Lemma print_fs s w : fs (print s w) = fs w.
Proof. done. Qed.

Lemma perror_fs s w : fs (perror s w) = fs w.
Proof. done. Qed.

(** A call that fails changes [errno] only. *)
Lemma chdir_false (w : World) (p : string) :
  (chdir w p).2 = false → ∃ e, (chdir w p).1 = set_errno e w.
Proof.
  unfold chdir. destruct (resolve w p) as [e|c]; [by eexists|].
  destruct (fs w !! c) as [[|]|]; simpl; by eauto.
Qed.

Lemma mkdir_false (w : World) (p : string) :
  (mkdir w p).2 = false → ∃ e, (mkdir w p).1 = set_errno e w.
Proof.
  unfold mkdir. destruct (resolve w p) as [e|c]; [by eexists|].
  destruct (fs w !! c); simpl; by eauto.
Qed.

Lemma rename_false (w : World) (old new : string) :
  (rename w old new).2 = false → ∃ e, (rename w old new).1 = set_errno e w.
Proof.
  unfold rename. destruct (resolve w old) as [e|ko]; [by eexists|].
  destruct (resolve w new) as [e|kn]; [by eexists|].
  destruct (fs w !! ko) as [node|] eqn:Eo; [|by eexists].
  destruct (fs w !! kn) as [[|]|] eqn:En, node;
    repeat case_bool_decide; simpl; by eauto.
Qed.

Lemma fopen_ab_None (w : World) (p : string) :
  (fopen_ab w p).2 = None → ∃ e, (fopen_ab w p).1 = set_errno e w.
Proof.
  unfold fopen_ab. destruct (resolve w p) as [e|c]; [by eexists|].
  destruct (fs w !! c) as [[|]|]; simpl; by eauto.
Qed.

Lemma opendir_None (w : World) (p : string) :
  (opendir w p).2 = None → ∃ e, (opendir w p).1 = set_errno e w.
Proof.
  unfold opendir. destruct (resolve w p) as [e|c]; [by eexists|].
  destruct (fs w !! c) as [[|[|]]|]; simpl; by eauto.
Qed.

Lemma opendir_Some (w : World) (p : string) (names : list string) :
  (opendir w p).2 = Some names → (opendir w p).1 = w.
Proof.
  unfold opendir. destruct (resolve w p) as [e|c]; [done|].
  by destruct (fs w !! c) as [[|[|]]|].
Qed.

Lemma fopen_rb_fs (w : World) (p : string) : fs (fopen_rb w p).1 = fs w.
Proof.
  unfold fopen_rb. destruct (resolve w p) as [e|c]; [done|].
  by destruct (fs w !! c) as [[|[|]]|].
Qed.

Lemma fopen_rb_cwd (w : World) (p : string) : cwd (fopen_rb w p).1 = cwd w.
Proof.
  unfold fopen_rb. destruct (resolve w p) as [e|c]; [done|].
  by destruct (fs w !! c) as [[|[|]]|].
Qed.

Lemma fopen_wb_None (w : World) (p : string) :
  (fopen_wb w p).2 = None → ∃ e, (fopen_wb w p).1 = set_errno e w.
Proof.
  unfold fopen_wb. destruct (resolve w p) as [e|c]; [by eexists|].
  destruct (fs w !! c) as [[|]|]; simpl; by eauto.
Qed.

Lemma with_log_ext (recs : list byte) (w w' : World) :
  fs w' = fs w → cwd w' = cwd w → clock w' = clock w →
  with_log recs w' = with_log recs w.
Proof.
  intros Hfs Hcwd Hclock. unfold with_log.
  by rewrite (log_key_ext w w'), (log_bytes_ext w w'), Hfs, Hclock.
Qed.

Lemma record_bytes_ext (w w' : World) (action : string) :
  clock w' = clock w → localtime w' = localtime w →
  record_bytes w' action = record_bytes w action.
Proof. intros H1 H2. unfold record_bytes, log_record. by rewrite H1, H2. Qed.

End OpFacts.

(** ** Which operations write a record *)

Module Operations.
Import Text Time Posix Explorer Spec Sample TextFacts PosixFacts LogFacts OpFacts.

Lemma history_ext (w w' : World) :
  fs w' = fs w → cwd w' = cwd w → history w' = history w.
Proof. intros Hfs Hcwd. unfold history. by rewrite (log_bytes_ext w w'). Qed.

Lemma listEntry_fs (path name : string) (w : World) :
  fs (listEntry path name w) = fs w ∧ same_process w (listEntry path name w).
Proof.
  unfold listEntry, same_process. case_bool_decide; [done|].
  by destruct (stat w _).
Qed.

Lemma listEntries_fs (path : string) (names : list string) (w : World) :
  fs (foldl (λ w name, listEntry path name w) w names) = fs w ∧
  same_process w (foldl (λ w name, listEntry path name w) w names).
Proof.
  revert w. induction names as [|n names IH]; intros w; simpl; [done|].
  destruct (IH (listEntry path n w)) as (H1 & H2 & H3 & H4).
  destruct (listEntry_fs path n w) as (G1 & G2 & G3 & G4).
  unfold same_process. by rewrite H1, H2, H3, H4.
Qed.

(** C1, counterexample: a [cd] to a directory that does not exist fails, and
    the history is afterwards what it was: no record was appended. *)
Lemma failed_cd_is_not_logged :
  (chdir home "nowhere").2 = false ∧
  history home = ["[2026-11-01 10:00:00] Checked current directory."] ∧
  history (changeDir "nowhere" home) = history home.
Proof. by vm_compute. Qed.

(** C1, amended: [changeDir], [moveFile], [touchFile] and [listFiles] write
    a record only when their system call succeeded; when it failed the file
    system, and with it the log, is left as it was.  [makeDir] and
    [printPwd] write their record whether the call succeeded or not.  (A
    record is written by [logAction], so only when the log opens:
    [with_log].) *)
Theorem record_only_after_success (w : World) (path src dest : string) :
  ((chdir w path).2 = false →
     fs (changeDir path w) = fs w ∧ history (changeDir path w) = history w) ∧
  ((rename w src dest).2 = false →
     fs (moveFile src dest w) = fs w ∧ history (moveFile src dest w) = history w) ∧
  ((fopen_ab w path).2 = None →
     fs (touchFile path w) = fs w ∧ history (touchFile path w) = history w) ∧
  ((opendir w path).2 = None →
     fs (listFiles path w) = fs w ∧ history (listFiles path w) = history w) ∧
  ((chdir w path).2 = true →
     fs (changeDir path w) =
     with_log (record_bytes w ("Changed directory to: " +:+ path)) (chdir w path).1) ∧
  ((rename w src dest).2 = true →
     fs (moveFile src dest w) =
     with_log (record_bytes w ("Moved/Renamed: " +:+ src +:+ " -> " +:+ dest))
              (rename w src dest).1) ∧
  (is_Some (fopen_ab w path).2 →
     fs (touchFile path w) =
     with_log (record_bytes w ("Created or updated file: " +:+ path)) (fopen_ab w path).1) ∧
  (is_Some (opendir w path).2 →
     fs (listFiles path w) =
     with_log (record_bytes w ("Listed contents of: " +:+ path)) w) ∧
  fs (makeDir path w) =
    with_log (record_bytes w ("Created directory: " +:+ path)) (mkdir w path).1 ∧
  fs (printPwd w) = with_log (record_bytes w "Checked current directory.") w.
Proof.
  split_and!.
  - intros Hf. destruct (chdir_false _ _ Hf) as [e He].
    unfold changeDir. destruct (chdir w path) as [w1 b]. simpl in *. subst.
    split; [done|]. by apply history_ext.
  - intros Hf. destruct (rename_false _ _ _ Hf) as [e He].
    unfold moveFile. destruct (rename w src dest) as [w1 b]. simpl in *. subst.
    split; [done|]. by apply history_ext.
  - intros Hf. destruct (fopen_ab_None _ _ Hf) as [e He].
    unfold touchFile. destruct (fopen_ab w path) as [w1 b]. simpl in *. subst.
    split; [done|]. by apply history_ext.
  - intros Hf. destruct (opendir_None _ _ Hf) as [e He].
    unfold listFiles. destruct (opendir w path) as [w1 b]. simpl in *. subst.
    split; [done|]. by apply history_ext.
  - unfold changeDir, chdir. destruct (resolve w path) as [e|c]; [done|].
    destruct (fs w !! c) as [[|]|]; try done. intros _. by rewrite fs_logAction.
  - unfold moveFile. destruct (rename w src dest) as [w1 [|]] eqn:E; [|done].
    intros _. rewrite fs_logAction. simpl.
    assert (clock w1 = clock w ∧ localtime w1 = localtime w) as [Hc Hl].
    { revert E. unfold rename.
      destruct (resolve w src) as [e|ko]; [naive_solver|].
      destruct (resolve w dest) as [e|kn]; [naive_solver|].
      destruct (fs w !! ko) as [node|]; [|naive_solver].
      destruct (fs w !! kn) as [[|]|], node;
        repeat case_bool_decide; naive_solver. }
    rewrite (record_bytes_ext w (print _ w1)) by done.
    by apply with_log_ext.
  - unfold touchFile, fopen_ab. destruct (resolve w path) as [e|c]; [by intros []|].
    destruct (fs w !! c) as [[|]|]; simpl; [|by intros []|];
      intros _; by rewrite fs_logAction.
  - unfold listFiles. destruct (opendir w path) as [w1 [names|]] eqn:E; [|by intros []].
    intros _. assert (w1 = w) as ->.
    { rewrite <- (opendir_Some w path names); by rewrite E. }
    rewrite fs_logAction.
    destruct (listEntries_fs path names (print ("Contents of " +:+ path +:+ ":") w))
      as (Hfs & Hcwd & Hc & Hl).
    rewrite (record_bytes_ext w) by done.
    by apply with_log_ext.
  - unfold makeDir, mkdir. destruct (resolve w path) as [e|c]; [by rewrite fs_logAction|].
    destruct (fs w !! c); by rewrite fs_logAction.
  - unfold printPwd, getcwd. destruct (cwd w) as [c|] eqn:E.
    + case_bool_decide; rewrite fs_logAction; unfold with_log, log_key, log_bytes,
        resolve, file_data; simpl; by rewrite E.
    + rewrite fs_logAction. unfold with_log, log_key, log_bytes, resolve, file_data.
      simpl. by rewrite E.
Qed.

(** The theorem at a failing [cd], [mv] and [touch] and a failing [mkdir]. *)
Lemma record_only_after_success_witness :
  history (changeDir "nowhere" home) = history home ∧
  history (moveFile "nowhere" "x" home) = history home ∧
  history (touchFile "nowhere/f" home) = history home ∧
  (mkdir home "sub").2 = false ∧
  fs (makeDir "sub" home) = with_log (record_bytes home "Created directory: sub") home.
Proof.
  pose proof (record_only_after_success home "nowhere" "nowhere" "x") as (H1 & H2 & _).
  pose proof (record_only_after_success home "nowhere/f" "" "") as (_ & _ & H3 & _).
  pose proof (record_only_after_success home "sub" "" "") as (_ & _ & _ & _ & _ & _ & _ & _ & H4 & _).
  split_and!.
  - apply H1. reflexivity.
  - apply H2. reflexivity.
  - apply H3. reflexivity.
  - reflexivity.
  - exact H4.
Defined.

(** C2, counterexample: [search notes sub] is not the search of [sub]: the
    dispatcher passes the pattern only, the search starts at [.] and finds
    [./notes.txt], which is not in [sub]. *)
Lemma search_root_is_ignored :
  dispatch (split "search notes sub") home ≠ Some (searchFile "notes" "sub" home) ∧
  stdout <$> dispatch (split "search notes sub") home = Some ["./notes.txt"] ∧
  stdout (searchFile "notes" "sub" home) = [].
Proof.
  split; [|by vm_compute].
  intros H. apply (f_equal (fmap stdout)) in H. vm_compute in H. discriminate.
Qed.

(** C2, amended: for a line whose first word is [search] and that has a
    pattern, the dispatcher starts the recursive search at the current
    directory [.], whatever words follow the pattern, and none need follow. *)
Theorem search_starts_at_dot (line pattern : string) (rest : list string) (w : World) :
  split line = "search" :: pattern :: rest →
  dispatch (split line) w = Some (searchFile pattern "." w).
Proof. intros ->. reflexivity. Qed.

Lemma search_starts_at_dot_witness :
  dispatch (split "search a.txt sub") home = Some (searchFile "a.txt" "." home) ∧
  dispatch (split "search a.txt") home = Some (searchFile "a.txt" "." home).
Proof.
  split.
  - apply (search_starts_at_dot "search a.txt sub" "a.txt" ["sub"]). reflexivity.
  - apply (search_starts_at_dot "search a.txt" "a.txt" []). reflexivity.
Defined.

End Operations.

(** ** Copying and touching *)

Module Copying.
Import Text Time Posix Explorer Spec Sample TextFacts PosixFacts LogFacts OpFacts.

Lemma take_drop_length {A} (n : nat) (l : list A) :
  take n l ++ drop (length (take n l)) l = l.
Proof.
  rewrite length_take. destruct (decide (n ≤ length l)%nat).
  - rewrite Nat.min_l by done. apply take_drop.
  - rewrite Nat.min_r by lia. rewrite take_ge, drop_all by lia. apply app_nil_r.
Qed.

Lemma fwrite_process (h : list string) (buf : list byte) (w : World) :
  same_process w (fwrite h buf w).
Proof. unfold fwrite, same_process. by destruct (fs w !! h) as [[|]|]. Qed.

(** The loop reads the input to its end and leaves all of it at the end of
    the output, when the two streams are different files. *)
Lemma copy_loop_spec (fuel : nat) (inp out : list string) (pos : nat) (w : World)
    (data d0 : list byte) (t t0 : Z) :
  inp ≠ out →
  fs w !! inp = Some (File data t) → fs w !! out = Some (File d0 t0) →
  (length data - pos < fuel)%nat →
  ∃ w', copy_loop fuel inp out pos w = Some w' ∧ same_process w w' ∧
        fs w' = <[out := File (d0 ++ drop pos data)
                           (if bool_decide (drop pos data = []) then t0 else clock w)]> (fs w).
Proof.
  revert pos w d0 t0. induction fuel as [|fuel IH]; intros pos w d0 t0 Hne Hin Hout Hfuel;
    [lia|].
  simpl. unfold fread. rewrite Hin.
  case_bool_decide as Hbuf.
  - remember (take 4096 (drop pos data)) as buffer eqn:Hb.
    assert (Hdrop : drop pos data = buffer ++ drop (pos + length buffer) data).
    { rewrite <- drop_drop, Hb. symmetry. apply take_drop_length. }
    assert (pos < length data)%nat.
    { destruct (decide (pos < length data)%nat); [done|].
      rewrite drop_ge in Hdrop by lia. destruct buffer; [simpl in Hbuf; lia|done]. }
    destruct (IH (pos + length buffer)%nat (fwrite out buffer w) (d0 ++ buffer) (clock w))
      as (w' & Hw' & Hproc & Hfs); [done| | |lia|].
    { unfold fwrite. rewrite Hout. simpl. by rewrite lookup_insert_ne. }
    { unfold fwrite. rewrite Hout. simpl. by rewrite lookup_insert_eq. }
    exists w'. split; [done|].
    destruct (fwrite_process out buffer w) as (Hc & Hk & Hl).
    destruct Hproc as (Hc' & Hk' & Hl').
    split; [unfold same_process; by rewrite Hc', Hk', Hl'|].
    rewrite Hfs. unfold fwrite. rewrite Hout. simpl.
    rewrite insert_insert_eq. f_equal. f_equal.
    { by rewrite <- (assoc_L (++)), <- Hdrop. }
    rewrite (bool_decide_eq_false_2 (drop pos data = [])); [by case_bool_decide|].
    rewrite Hdrop. destruct buffer; [simpl in Hbuf; lia|done].
  - exists w. split; [done|]. split; [done|].
    assert (drop pos data = []) as ->.
    { destruct (drop pos data); [done|]. simpl in Hbuf. lia. }
    rewrite bool_decide_eq_true_2 by done. by rewrite app_nil_r, insert_id.
Qed.

(** The loop writes to the output stream only, and always ends. *)
Lemma copy_loop_frame (fuel : nat) (inp out : list string) (pos : nat) (w w' : World) :
  copy_loop fuel inp out pos w = Some w' →
  same_process w w' ∧ ∀ k, k ≠ out → fs w' !! k = fs w !! k.
Proof.
  revert pos w. induction fuel as [|fuel IH]; intros pos w; simpl; [done|].
  case_bool_decide.
  - intros (Hp & Hk)%IH. destruct (fwrite_process out (fread w inp pos 4096) w) as (?&?&?).
    destruct Hp as (?&?&?). split; [unfold same_process; split_and!; congruence|].
    intros k Hne. rewrite Hk by done. unfold fwrite.
    destruct (fs w !! out) as [[|]|]; try done. simpl. by rewrite lookup_insert_ne.
  - by intros [= <-].
Qed.

Lemma stream_copy_frame (inp out : list string) (w : World) :
  same_process w (stream_copy inp out w) ∧
  ∀ k, k ≠ out → fs (stream_copy inp out w) !! k = fs w !! k.
Proof.
  unfold stream_copy.
  destruct (copy_loop _ inp out 0 w) as [w'|] eqn:E; [|done].
  by apply copy_loop_frame in E.
Qed.

(** Opening the output cuts it to nothing, so a copy of a file onto itself
    finds nothing to read. *)
Lemma stream_copy_same (h : list string) (w : World) (t : Z) :
  fs w !! h = Some (File [] t) → stream_copy h h w = w.
Proof.
  intros Hh. unfold stream_copy, stream_length, file_data. rewrite Hh. simpl.
  unfold fread. by rewrite Hh.
Qed.

Lemma stream_copy_spec (inp out : list string) (w : World) (data : list byte) (t t0 : Z) :
  inp ≠ out →
  fs w !! inp = Some (File data t) → fs w !! out = Some (File [] t0) →
  ∃ t', fs (stream_copy inp out w) = <[out := File data t']> (fs w).
Proof.
  intros Hne Hin Hout. unfold stream_copy, stream_length, file_data. rewrite Hin.
  destruct (copy_loop_spec (S (length data)) inp out 0 w data [] t t0)
    as (w' & -> & _ & Hfs); [done..|simpl; lia|].
  simpl. rewrite Hfs. eauto.
Qed.

Lemma fopen_rb_Some (w : World) (p : string) (h : list string) :
  (fopen_rb w p).2 = Some h →
  (fopen_rb w p).1 = w ∧ resolve w p = inr h ∧ is_Some (fs w !! h).
Proof.
  unfold fopen_rb. destruct (resolve w p) as [e|c]; [done|].
  destruct (fs w !! c) as [[|[|]]|] eqn:E; simpl; try done; intros [= <-];
    rewrite E; split_and!; eauto.
Qed.

Lemma fopen_wb_Some (w : World) (p : string) (h : list string) :
  (fopen_wb w p).2 = Some h →
  (fopen_wb w p).1 = set_fs (<[h := File [] (clock w)]> (fs w)) w ∧
  resolve w p = inr h ∧ ∀ r, fs w !! h ≠ Some (Dir r).
Proof.
  unfold fopen_wb. destruct (resolve w p) as [e|c]; [done|].
  destruct (fs w !! c) as [[|]|] eqn:E; simpl; try done; intros [= <-];
    rewrite ?E; split_and!; eauto; done.
Qed.

(** Writing to a file that is not the log leaves the log as it is. *)
Lemma log_frame (w w' : World) (L out : list string) :
  cwd w' = cwd w → (∀ k, k ≠ out → fs w' !! k = fs w !! k) →
  log_key w = Some L → out ≠ L → (∀ r, fs w !! out ≠ Some (Dir r)) →
  log_key w' = Some L ∧ log_bytes w' = log_bytes w.
Proof.
  intros Hcwd Hfs HL Hne Hout.
  assert (log_key w' = Some L) as HL'.
  { apply log_key_spec in HL as (c & r & Hc & Hdir & -> & Hnd).
    apply log_key_spec. exists c, r. rewrite Hcwd.
    split_and!; [done| |done|].
    - rewrite Hfs; [done|]. intros ->. by eapply Hout.
    - intros r'. by rewrite Hfs. }
  split; [done|].
  rewrite (log_bytes_key w L), (log_bytes_key w' L) by done.
  unfold file_data. by rewrite Hfs.
Qed.

(** C6: [copyFile] returns failure exactly when the source does not open
    for reading or the destination does not open for writing.  When it
    fails nothing is written, so the log is as it was; when it succeeds it
    calls [logAction] once, after the copy, and the log (when it opens and
    is not itself the destination) is longer by that one record. *)
Theorem copyFile_result_and_log (src dest : string) (w : World) :
  ((copyFile src dest w).2 = false ↔
     (fopen_rb w src).2 = None ∨ (fopen_wb w dest).2 = None) ∧
  ((copyFile src dest w).2 = false →
     fs (copyFile src dest w).1 = fs w ∧
     history (copyFile src dest w).1 = history w) ∧
  ((copyFile src dest w).2 = true →
     ∃ inp out,
       (fopen_rb w src).2 = Some inp ∧ (fopen_wb w dest).2 = Some out ∧
       fs (copyFile src dest w).1 =
         with_log (record_bytes w ("Copied file: " +:+ src +:+ " -> " +:+ dest))
                  (stream_copy inp out (fopen_wb w dest).1) ∧
       ∀ L, log_key w = Some L → out ≠ L →
            log_bytes (copyFile src dest w).1 =
            log_bytes w ++ record_bytes w ("Copied file: " +:+ src +:+ " -> " +:+ dest)).
Proof.
  unfold copyFile.
  destruct (fopen_rb w src) as [w1 [inp|]] eqn:Ein.
  2: { pose proof (fopen_rb_fs w src) as Hfs. pose proof (fopen_rb_cwd w src) as Hcwd.
       rewrite Ein in Hfs, Hcwd. simpl in *.
       split_and!; [naive_solver| |done].
       intros _. split; [done|]. unfold history. by rewrite (log_bytes_ext w w1). }
  destruct (fopen_rb_Some w src inp) as (Hw1 & _ & _); [by rewrite Ein|].
  rewrite Ein in Hw1. simpl in Hw1. subst w1.
  destruct (fopen_wb w dest) as [w2 [out|]] eqn:Eout.
  2: { destruct (fopen_wb_None w dest) as [e He]; [by rewrite Eout|].
       rewrite Eout in He. simpl in He. subst w2. simpl.
       split_and!; [naive_solver| |done].
       intros _. split; [done|]. unfold history. by rewrite (log_bytes_ext w (set_errno e w)). }
  destruct (fopen_wb_Some w dest out) as (Hw2 & _ & Hnd); [by rewrite Eout|].
  rewrite Eout in Hw2. simpl in Hw2. simpl.
  split_and!; [naive_solver|done|].
  intros _. exists inp, out.
  destruct (stream_copy_frame inp out w2) as ((Hc & Hk & Hl) & Hframe).
  assert (record_bytes (stream_copy inp out w2)
            ("Copied file: " +:+ src +:+ " -> " +:+ dest) =
          record_bytes w ("Copied file: " +:+ src +:+ " -> " +:+ dest)) as Hrec.
  { apply record_bytes_ext; [rewrite Hk|rewrite Hl]; by subst w2. }
  split_and!; [done..| |].
  { by rewrite fs_logAction, Hrec. }
  intros L HL Hne.
  destruct (log_frame w (stream_copy inp out w2) L out) as [HL3 Hb3]; [| |done..|].
  { rewrite Hc. by subst w2. }
  { intros k Hk'. rewrite Hframe by done. subst w2. simpl. by rewrite lookup_insert_ne. }
  rewrite <- Hb3, <- Hrec.
  apply (log_bytes_with_log _ _ _ L); [done| |apply fs_logAction].
  apply logAction_process.
Qed.

Lemma copyFile_result_and_log_witness :
  (copyFile "nowhere" "x" home).2 = false ∧
  history (copyFile "nowhere" "x" home).1 = history home ∧
  (copyFile "notes.txt" "x" home).2 = true ∧
  log_bytes (copyFile "notes.txt" "x" home).1 =
    log_bytes home ++ record_bytes home "Copied file: notes.txt -> x".
Proof.
  pose proof (copyFile_result_and_log "nowhere" "x" home) as (H1 & H2 & _).
  pose proof (copyFile_result_and_log "notes.txt" "x" home) as (_ & _ & H3).
  assert ((copyFile "nowhere" "x" home).2 = false) as Hf.
  { apply H1. left. reflexivity. }
  split_and!; [exact Hf|apply (H2 Hf)|reflexivity|].
  destruct (H3 eq_refl) as (inp & out & Hin & Hout & _ & Hlog).
  apply (Hlog ["home"; "activity_log.txt"]); [reflexivity|].
  vm_compute in Hout. by injection Hout as <-.
Defined.

(** C5, the input at which it fails: a copy of a file onto itself.  The
    call succeeds and the file, source and destination at once, has lost its
    five bytes. *)
Lemma copy_onto_itself_truncates :
  file_data home ["home"; "notes.txt"] = Some hello ∧
  (copyFile "notes.txt" "notes.txt" home).2 = true ∧
  file_data (copyFile "notes.txt" "notes.txt" home).1 ["home"; "notes.txt"] = Some [].
Proof. by vm_compute. Qed.

(** Away from that case the copy is right: when source and destination are
    different files and neither is the activity log, the destination has
    the bytes of the source afterwards and the source is as it was. *)
Lemma copyFile_distinct (src dest : string) (w : World) (ks kd : list string)
    (data : list byte) (t : Z) :
  resolve w src = inr ks → fs w !! ks = Some (File data t) →
  resolve w dest = inr kd → (∀ r, fs w !! kd ≠ Some (Dir r)) →
  ks ≠ kd → log_key w ≠ Some ks → log_key w ≠ Some kd →
  (copyFile src dest w).2 = true ∧
  file_data (copyFile src dest w).1 kd = Some data ∧
  fs (copyFile src dest w).1 !! ks = Some (File data t).
Proof.
  intros Hs Hks Hd Hkd Hne HLs HLd.
  assert (fopen_rb w src = (w, Some ks)) as Ein.
  { unfold fopen_rb. by rewrite Hs, Hks. }
  assert (fopen_wb w dest = (set_fs (<[kd := File [] (clock w)]> (fs w)) w, Some kd)) as Eout.
  { unfold fopen_wb. rewrite Hd.
    destruct (fs w !! kd) as [[|r]|] eqn:E; [done|by destruct (Hkd r)|done]. }
  unfold copyFile. rewrite Ein, Eout. simpl. split; [done|].
  set (w2 := set_fs (<[kd := File [] (clock w)]> (fs w)) w).
  destruct (stream_copy_spec ks kd w2 data t (clock w)) as [t' Hfs]; [done| | |].
  { subst w2. simpl. by rewrite lookup_insert_ne. }
  { subst w2. simpl. by rewrite lookup_insert_eq. }
  destruct (stream_copy_frame ks kd w2) as ((Hc & _) & _).
  assert (log_key (stream_copy ks kd w2) = log_key w) as HL.
  { destruct (log_key w) as [L|] eqn:EL.
    - destruct (log_frame w (stream_copy ks kd w2) L kd) as [HL3 _]; try done.
      + rewrite Hfs. intros k Hk. subst w2. simpl. by rewrite !lookup_insert_ne.
      + congruence.
    - unfold log_key in *. rewrite resolve_log in *. rewrite Hc. subst w2. simpl.
      destruct (cwd w) as [c|]; [|done].
      rewrite Hfs. simpl.
      destruct (decide (kd = c)) as [->|Hkc].
      { by rewrite lookup_insert_eq. }
      rewrite !(lookup_insert_ne _ kd c) by done.
      destruct (fs w !! c) as [[|r]|] eqn:Ec; try done.
      destruct (decide (kd = c ++ [LOG_FILE])) as [->|HkL].
      { destruct (fs w !! (c ++ [LOG_FILE])) as [[|r']|]; [done|by destruct (Hkd r')|done]. }
      by rewrite !(lookup_insert_ne _ kd) by done. }
  unfold file_data. rewrite fs_logAction.
  rewrite !with_log_lookup_ne by (rewrite HL; congruence).
  rewrite Hfs. subst w2. simpl.
  rewrite lookup_insert_eq. by rewrite !lookup_insert_ne.
Qed.

End Copying.

Module Touching.
Import Text Time Posix Explorer Spec Sample TextFacts PosixFacts LogFacts OpFacts.

(** C9, the input at which it fails: [touch notes.txt] on a file last
    modified at time 100, with the clock at 1793608205.  The file is opened
    and closed, the program reports "created/updated", and the time stamp of
    the file is still 100: nothing in [touchFile] sets it. *)
Lemma touch_keeps_modification_time :
  clock home = 1793608205 ∧
  fs home !! ["home"; "notes.txt"] = Some (File hello 100) ∧
  (fopen_ab home "notes.txt").2 = Some ["home"; "notes.txt"] ∧
  stdout (touchFile "notes.txt" home) = ["File created/updated: notes.txt"] ∧
  fs (touchFile "notes.txt" home) !! ["home"; "notes.txt"] = Some (File hello 100).
Proof. by vm_compute. Qed.

(** The rest of what is said of [touch] holds: a missing file is created
    empty, a file that exists keeps its bytes (and its time stamp).  The
    activity log itself is excepted, since the record of the touch is then
    appended to it. *)
Lemma touchFile_spec (w : World) (path : string) (c : list string) :
  resolve w path = inr c → log_key w ≠ Some c →
  match fs w !! c with
  | Some (File data t) => fs (touchFile path w) !! c = Some (File data t)
  | Some (Dir r) => fs (touchFile path w) = fs w
  | None => fs (touchFile path w) !! c = Some (File [] (clock w))
  end.
Proof.
  intros Hres HL. unfold touchFile, fopen_ab. rewrite Hres.
  destruct (fs w !! c) as [[data t|r]|] eqn:Ec; [| done |].
  - rewrite fs_logAction, with_log_lookup_ne; [done|].
    by rewrite (log_key_ext w).
  - rewrite fs_logAction, with_log_lookup_ne; [simpl; by rewrite lookup_insert_eq|].
    simpl. intros (k & r & Hk & Hdir & -> & Hnd)%log_key_spec. simpl in *.
    apply HL. apply log_key_spec. exists k, r. split_and!; try done.
    + rewrite lookup_insert_ne in Hdir; [done|].
      intros Heq. apply (f_equal length) in Heq. rewrite length_app in Heq.
      simpl in Heq. lia.
    + intros r'. by rewrite Ec.
Qed.

Lemma touchFile_spec_witness :
  fs (touchFile "new.txt" home) !! ["home"; "new.txt"] = Some (File [] (clock home)).
Proof.
  apply (touchFile_spec home "new.txt" ["home"; "new.txt"]); by vm_compute.
Defined.

End Touching.

(** ** Recursive search *)

Module Searching.
Import Text Time Posix Explorer Spec Sample TextFacts PosixFacts LogFacts LineFacts OpFacts.

Lemma log_key_not_dir (w : World) (L : list string) (r : bool) :
  log_key w = Some L → fs w !! L ≠ Some (Dir r).
Proof. intros (c & r0 & _ & _ & _ & Hnd)%log_key_spec. apply Hnd. Qed.

Lemma with_log_dir (recs : list byte) (w : World) (k : list string) (r : bool) :
  with_log recs w !! k = Some (Dir r) ↔ fs w !! k = Some (Dir r).
Proof.
  unfold with_log. destruct (log_key w) as [L|] eqn:EL; [|done].
  case_bool_decide; [done|].
  destruct (decide (L = k)) as [->|Hne].
  - rewrite lookup_insert_eq. split; [done|]. intros Hd. by apply log_key_not_dir in Hd.
  - by rewrite lookup_insert_ne.
Qed.

Lemma with_log_is_Some (recs : list byte) (w : World) (k : list string) :
  is_Some (fs w !! k) → is_Some (with_log recs w !! k).
Proof.
  unfold with_log. destruct (log_key w) as [L|] eqn:EL; [|done].
  case_bool_decide; [done|].
  destruct (decide (L = k)) as [->|Hne].
  - rewrite lookup_insert_eq. eauto.
  - by rewrite lookup_insert_ne.
Qed.

Lemma with_log_is_Some_inv (recs : list byte) (w : World) (k : list string) :
  is_Some (with_log recs w !! k) →
  is_Some (fs w !! k) ∨ (log_key w = Some k ∧ fs w !! k = None).
Proof.
  destruct (decide (log_key w = Some k)) as [Hk|Hk].
  - destruct (fs w !! k); eauto.
  - rewrite with_log_lookup_ne by done. eauto.
Qed.

Lemma is_dir_true (m : gmap (list string) inode) (k : list string) :
  is_dir m k = true ↔ ∃ r, m !! k = Some (Dir r).
Proof. unfold is_dir. destruct (m !! k) as [[|r]|]; naive_solver. Qed.

Lemma log_key_is_dir (w : World) :
  log_key w =
  match cwd w with
  | Some c =>
      if is_dir (fs w) c && negb (is_dir (fs w) (c ++ [LOG_FILE]))
      then Some (c ++ [LOG_FILE]) else None
  | None => None
  end.
Proof.
  unfold log_key, is_dir. rewrite resolve_log. destruct (cwd w) as [c|]; [|done].
  destruct (fs w !! c) as [[|r]|]; try done.
  by destruct (fs w !! (c ++ [LOG_FILE])) as [[|r']|].
Qed.

Lemma with_log_is_dir (recs : list byte) (w : World) (k : list string) :
  is_dir (with_log recs w) k = is_dir (fs w) k.
Proof.
  apply eq_true_iff_eq. rewrite !is_dir_true.
  split; intros [r Hr]; exists r; by apply (with_log_dir recs).
Qed.

Lemma log_key_with_log (recs : list byte) (w w1 : World) :
  cwd w1 = cwd w → fs w1 = with_log recs w → log_key w1 = log_key w.
Proof.
  intros Hcwd Hfs. rewrite !log_key_is_dir, Hcwd, Hfs.
  destruct (cwd w) as [c|]; [|done]. by rewrite !with_log_is_dir.
Qed.

Lemma log_ext_refl (w : World) : log_ext w w.
Proof. split; [done|]. exists []. by rewrite with_log_nil. Qed.

Lemma log_ext_print (s : string) (w : World) : log_ext w (print s w).
Proof. split; [done|]. exists []. by rewrite with_log_nil. Qed.

Lemma log_ext_errno (e : errno) (w : World) : log_ext w (set_errno e w).
Proof. split; [done|]. exists []. by rewrite with_log_nil. Qed.

Lemma log_ext_key (w w' : World) : log_ext w w' → log_key w' = log_key w.
Proof. intros [(Hc & _) [recs Hfs]]. by eapply log_key_with_log. Qed.

Lemma log_ext_dir (w w' : World) (k : list string) (r : bool) :
  log_ext w w' → fs w' !! k = Some (Dir r) ↔ fs w !! k = Some (Dir r).
Proof. intros [_ [recs ->]]. apply with_log_dir. Qed.

Lemma log_ext_is_Some (w w' : World) (k : list string) :
  log_ext w w' → is_Some (fs w !! k) → is_Some (fs w' !! k).
Proof. intros [_ [recs ->]]. apply with_log_is_Some. Qed.

Lemma log_ext_is_Some_inv (w w' : World) (k : list string) :
  log_ext w w' → is_Some (fs w' !! k) →
  is_Some (fs w !! k) ∨ (log_key w = Some k ∧ fs w !! k = None).
Proof. intros [_ [recs ->]]. apply with_log_is_Some_inv. Qed.

Lemma log_ext_resolve (w w' : World) (p : string) (c : list string) :
  log_ext w w' → resolve w p = inr c → resolve w' p = inr c.
Proof.
  intros Hext. apply resolve_same_dirs; [apply Hext|].
  intros k r Hk. exists r. by apply (log_ext_dir w w').
Qed.

Lemma log_ext_names_ok (w w' : World) :
  log_ext w w' → names_ok (fs w) → names_ok (fs w').
Proof.
  intros Hext Hok k v Hk.
  destruct (log_ext_is_Some_inv w w' k Hext) as [[v' Hv']|[HL _]]; [eauto|by eapply Hok|].
  apply log_key_spec in HL as (c & r & _ & Hdir & -> & _).
  apply Forall_app. split; [by eapply Hok|]. by apply Forall_singleton.
Qed.

Lemma log_ext_outside (w w' : World) (c : list string) :
  log_ext w w' → log_outside w c → log_outside w' c.
Proof.
  intros Hext Hout L HL HN. apply Hout.
  - by rewrite <- (log_ext_key w w').
  - destruct (fs w !! L) eqn:E; [|done].
    destruct (log_ext_is_Some w w' L Hext) as [v Hv]; [eauto|congruence].
Qed.

(** A log extension of a log extension. *)
Lemma log_ext_with_log (r1 r2 : list byte) (w w1 w2 : World) :
  same_process w w1 → fs w1 = with_log r1 w →
  same_process w1 w2 → fs w2 = with_log r2 w1 →
  same_process w w2 ∧ fs w2 = with_log (r1 ++ r2) w.
Proof.
  intros (Hc & Hk & Hl) Hfs (Hc' & Hk' & Hl') Hfs'.
  split; [unfold same_process; split_and!; congruence|].
  rewrite Hfs'. by apply with_log_app.
Qed.

Lemma traversed_prefix m c p k q : traversed m c p k q → c `prefix_of` k.
Proof.
  induction 1 as [|c p n k q _ _ IH]; [done|].
  etrans; [|exact IH]. by apply prefix_app_r.
Qed.

Lemma traversed_root m c p k q : traversed m c p k q → m !! c = Some (Dir true).
Proof. by destruct 1. Qed.

Lemma traversed_ext m m' c p k q :
  (∀ j, m !! j = Some (Dir true) → m' !! j = Some (Dir true)) →
  traversed m c p k q → traversed m' c p k q.
Proof.
  intros Hdirs. induction 1 as [c p Hc|c p n k q Hc _ IH].
  - apply traversed_here. by apply Hdirs.
  - eapply traversed_down; [by apply Hdirs|done].
Qed.

Lemma traversed_log_ext w w' c p k q :
  log_ext w w' → traversed (fs w') c p k q ↔ traversed (fs w) c p k q.
Proof.
  intros Hext. split; apply traversed_ext; intros j; by apply (log_ext_dir w w').
Qed.

Lemma prefix_snoc_length (c k : list string) (n : string) :
  (c ++ [n]) `prefix_of` k → c `prefix_of` k ∧ (length c < length k)%nat.
Proof.
  intros [rest ->]. split.
  - rewrite <- (assoc_L (++)). by apply prefix_app_r.
  - rewrite !length_app. simpl. lia.
Qed.

Lemma prefix_snoc_inj (c k : list string) (n n' : string) :
  (c ++ [n]) `prefix_of` k → (c ++ [n']) `prefix_of` k → n = n'.
Proof.
  intros [r1 ->] [r2 Heq]. rewrite <- !(assoc_L (++)) in Heq.
  apply app_inv_head in Heq. by injection Heq.
Qed.

(** Below a subdirectory of [c] the entries are those there were before any
    record was written. *)
Lemma found_log_ext w w' pattern c n p line :
  log_ext w w' → log_outside w c →
  found (fs w') pattern (c ++ [n]) p line ↔ found (fs w) pattern (c ++ [n]) p line.
Proof.
  intros Hext Hout. unfold found.
  split; intros (k & q & n0 & Ht & Hsome & Hrest); exists k, q, n0.
  - apply (traversed_log_ext w w') in Ht; [|done]. split; [done|]. split; [|done].
    destruct (log_ext_is_Some_inv w w' _ Hext Hsome) as [|[HL HN]]; [done|].
    apply traversed_prefix, prefix_snoc_length in Ht as [Hpre Hlen].
    assert (c `prefix_of` k ++ [n0]) as Hpre' by (by apply prefix_app_r).
    specialize (Hout _ HL HN Hpre'). rewrite length_app in Hout. simpl in Hout. lia.
  - split; [by apply (traversed_log_ext w w')|]. split; [|done].
    by apply (log_ext_is_Some w w').
Qed.

Lemma log_outside_child (w : World) (c : list string) (n : string) (r : bool) :
  log_outside w c → fs w !! (c ++ [n]) = Some (Dir r) → log_outside w (c ++ [n]).
Proof.
  intros Hout Hdir L HL HN Hpre.
  destruct (prefix_snoc_length _ _ _ Hpre) as [Hc Hlen].
  specialize (Hout L HL HN Hc).
  assert (L = c ++ [n]) as ->; [|congruence].
  destruct Hpre as [rest ->]. rewrite !length_app in Hout. simpl in Hout.
  destruct rest; [by rewrite app_nil_r|simpl in Hout; lia].
Qed.

Lemma search_records_app w pattern ds1 ds2 :
  search_records w pattern (ds1 ++ ds2) =
  search_records w pattern ds1 ++ search_records w pattern ds2.
Proof. unfold search_records. by rewrite map_app, concat_app. Qed.

Lemma search_records_ext w w' pattern ds :
  same_process w w' → search_records w' pattern ds = search_records w pattern ds.
Proof.
  intros (_ & Hk & Hl). unfold search_records. f_equal. apply map_ext.
  intros d. by apply record_bytes_ext.
Qed.

Lemma isDirectory_resolved (w : World) (p : string) (c : list string) :
  resolve w p = inr c → isDirectory w p = is_dir (fs w) c.
Proof.
  intros Hres. unfold isDirectory, stat, is_dir. rewrite Hres.
  by destruct (fs w !! c) as [[|]|].
Qed.

(** The descent into one entry, after its name has been looked at. *)
Lemma search_descend_spec fuel pattern p c n w :
  search_ok fuel pattern →
  valid_name n = true → is_Some (fs w !! (c ++ [n])) →
  names_ok (fs w) → resolve w p = inr c → (∃ r, fs w !! c = Some (Dir r)) →
  (∀ k r, fs w !! k = Some (Dir r) → (length k < S fuel + length c)%nat) →
  log_outside w c →
  ∃ w' ds printed,
    (if isDirectory w (p +:+ PATH_SEP +:+ n)
     then searchFile_rec fuel pattern (p +:+ PATH_SEP +:+ n) w else Some w) = Some w' ∧
    same_process w w' ∧ stdout w' = stdout w ++ printed ∧
    fs w' = with_log (search_records w pattern ds) w ∧
    NoDup ds.*1 ∧
    (∀ k q, (k, q) ∈ ds ↔ traversed (fs w) (c ++ [n]) (p +:+ PATH_SEP +:+ n) k q) ∧
    (∀ line, line ∈ printed ↔ found (fs w) pattern (c ++ [n]) (p +:+ PATH_SEP +:+ n) line).
Proof.
  intros Hrec Hn Hsome Hok Hres [r Hc] Hbound Hout.
  assert (resolve w (p +:+ PATH_SEP +:+ n) = inr (c ++ [n])) as Hres'
    by (by eapply resolve_sub).
  rewrite (isDirectory_resolved _ _ _ Hres'). unfold is_dir.
  destruct (fs w !! (c ++ [n])) as [[data t|r']|] eqn:Ecn.
  - exists w, [], []. split_and!; try done.
    + by rewrite app_nil_r.
    + by rewrite with_log_nil.
    + constructor.
    + intros k q. split; [by intros ?%elem_of_nil|].
      intros Ht%traversed_root. congruence.
    + intros line. split; [by intros ?%elem_of_nil|].
      intros (k & q & n0 & Ht%traversed_root & _). congruence.
  - apply Hrec; try done.
    + intros k r0 Hk. specialize (Hbound k r0 Hk). rewrite length_app. simpl. lia.
    + specialize (Hbound _ _ Ecn). rewrite length_app in Hbound. simpl in Hbound. lia.
    + by eapply log_outside_child.
  - by destruct Hsome.
Qed.

Lemma search_entry_spec fuel pattern p c n w :
  search_ok fuel pattern →
  valid_name n = true → is_Some (fs w !! (c ++ [n])) →
  names_ok (fs w) → resolve w p = inr c → (∃ r, fs w !! c = Some (Dir r)) →
  (∀ k r, fs w !! k = Some (Dir r) → (length k < S fuel + length c)%nat) →
  log_outside w c →
  ∃ w' ds printed,
    searchEntry (searchFile_rec fuel pattern) pattern p n w = Some w' ∧
    same_process w w' ∧ stdout w' = stdout w ++ printed ∧
    fs w' = with_log (search_records w pattern ds) w ∧
    NoDup ds.*1 ∧
    (∀ k q, (k, q) ∈ ds ↔ traversed (fs w) (c ++ [n]) (p +:+ PATH_SEP +:+ n) k q) ∧
    (∀ line, line ∈ printed ↔
       (contains pattern n = true ∧ line = p +:+ PATH_SEP +:+ n) ∨
       found (fs w) pattern (c ++ [n]) (p +:+ PATH_SEP +:+ n) line).
Proof.
  intros Hrec Hn Hsome Hok Hres Hc Hbound Hout.
  unfold searchEntry.
  rewrite bool_decide_eq_false_2
    by (apply valid_name_spec in Hn as (_ & ? & ? & _); naive_solver).
  destruct (contains pattern n) eqn:Hcont.
  - destruct (search_descend_spec fuel pattern p c n
                (print (p +:+ PATH_SEP +:+ n) w))
      as (w' & ds & printed & Hrun & Hproc & Hstd & Hfs & Hnd & Hds & Hpr); try done.
    exists w', ds, ((p +:+ PATH_SEP +:+ n) :: printed).
    split_and!; try done.
    + rewrite Hstd. simpl. by rewrite <- (assoc_L (++)).
    + intros line. rewrite elem_of_cons, Hpr. naive_solver.
  - destruct (search_descend_spec fuel pattern p c n w)
      as (w' & ds & printed & Hrun & Hproc & Hstd & Hfs & Hnd & Hds & Hpr); try done.
    exists w', ds, printed. split_and!; try done.
    intros line. rewrite Hpr. naive_solver.
Qed.

(** The loop over the names of a directory. *)
Lemma search_entries_spec fuel pattern p c :
  search_ok fuel pattern →
  ∀ names w,
    NoDup names →
    (∀ n, n ∈ names → valid_name n = true ∧ is_Some (fs w !! (c ++ [n]))) →
    names_ok (fs w) → resolve w p = inr c → (∃ r, fs w !! c = Some (Dir r)) →
    (∀ k r, fs w !! k = Some (Dir r) → (length k < S fuel + length c)%nat) →
    log_outside w c →
    ∃ w' ds printed,
      for_each (searchEntry (searchFile_rec fuel pattern) pattern p) names w = Some w' ∧
      same_process w w' ∧ stdout w' = stdout w ++ printed ∧
      fs w' = with_log (search_records w pattern ds) w ∧
      NoDup ds.*1 ∧
      (∀ k q, (k, q) ∈ ds ↔
         ∃ n, n ∈ names ∧ traversed (fs w) (c ++ [n]) (p +:+ PATH_SEP +:+ n) k q) ∧
      (∀ line, line ∈ printed ↔
         ∃ n, n ∈ names ∧
              ((contains pattern n = true ∧ line = p +:+ PATH_SEP +:+ n) ∨
               found (fs w) pattern (c ++ [n]) (p +:+ PATH_SEP +:+ n) line)).
Proof.
  intros Hrec names. induction names as [|n rest IH];
    intros w Hnd Hnames Hok Hres Hc Hbound Hout.
  { exists w, [], []. split_and!; try done.
    - by rewrite app_nil_r.
    - by rewrite with_log_nil.
    - constructor.
    - intros k q. split; [by intros ?%elem_of_nil|]. by intros (n & ?%elem_of_nil & _).
    - intros line. split; [by intros ?%elem_of_nil|]. by intros (n & ?%elem_of_nil & _). }
  apply NoDup_cons in Hnd as [Hn_rest Hnd].
  destruct (Hnames n) as [Hn Hsome]; [left|].
  destruct (search_entry_spec fuel pattern p c n w)
    as (w1 & ds1 & pr1 & Hrun1 & Hproc1 & Hstd1 & Hfs1 & Hnd1 & Hds1 & Hpr1); try done.
  assert (log_ext w w1) as Hext by (split; eauto).
  destruct (IH w1) as (w2 & ds2 & pr2 & Hrun2 & Hproc2 & Hstd2 & Hfs2 & Hnd2 & Hds2 & Hpr2).
  { done. }
  { intros n' Hn'. destruct (Hnames n') as [? ?]; [by right|].
    split; [done|]. by apply (log_ext_is_Some w w1). }
  { by apply (log_ext_names_ok w w1). }
  { by apply (log_ext_resolve w w1). }
  { destruct Hc as [r Hc]. exists r. by apply (log_ext_dir w w1). }
  { intros k r Hk. apply (Hbound k r). by apply (log_ext_dir w w1). }
  { by apply (log_ext_outside w w1). }
  exists w2, (ds1 ++ ds2), (pr1 ++ pr2). simpl. rewrite Hrun1.
  destruct (log_ext_with_log (search_records w pattern ds1) (search_records w1 pattern ds2)
              w w1 w2) as [Hproc Hfs]; try done.
  split_and!; try done.
  - rewrite Hstd2, Hstd1. by rewrite <- (assoc_L (++)).
  - rewrite Hfs, search_records_app. by rewrite (search_records_ext w w1).
  - rewrite fmap_app. apply NoDup_app. split_and!; try done.
    intros k [[k1 q1] [-> Hin1]]%list_elem_of_fmap [[k2 q2] [Heq Hin2]]%list_elem_of_fmap.
    simpl in *. subst k2.
    apply Hds1, traversed_prefix in Hin1.
    apply Hds2 in Hin2 as (n' & Hn' & Hin2%traversed_prefix).
    assert (n = n') as -> by (by eapply prefix_snoc_inj). done.
  - intros k q. rewrite elem_of_app, Hds1, Hds2. split.
    + intros [Ht|(n' & Hn' & Ht)].
      * exists n. split; [left|done].
      * exists n'. split; [by right|]. by apply (traversed_log_ext w w1).
    + intros (n' & [->|Hn']%elem_of_cons & Ht); [by left|].
      right. exists n'. split; [done|]. by apply (traversed_log_ext w w1).
  - intros line. rewrite elem_of_app, Hpr1, Hpr2. split.
    + intros [H1|(n' & Hn' & H2)].
      * exists n. split; [left|done].
      * exists n'. split; [by right|].
        destruct H2 as [?|Hf]; [by left|right]. by apply (found_log_ext w w1) in Hf.
    + intros (n' & [->|Hn']%elem_of_cons & H); [by left|].
      right. exists n'. split; [done|].
      destruct H as [?|Hf]; [by left|right]. by apply (found_log_ext w w1).
Qed.

Lemma names_ok_child (m : gmap (list string) inode) (c : list string) (n : string) :
  names_ok m → n ∈ children m c → valid_name n = true ∧ is_Some (m !! (c ++ [n])).
Proof.
  intros Hok Hin%elem_of_children. destruct Hin as [v Hv]. split; [|eauto].
  specialize (Hok _ _ Hv). apply Forall_app in Hok as [_ Hn]. by inversion Hn.
Qed.

(** The search of a directory: by induction on the depth of recursion. *)
Lemma searchFile_rec_spec (pattern : string) (fuel : nat) : search_ok fuel pattern.
Proof.
  induction fuel as [|fuel IH]; intros p w c Hok Hres Hbound Hfuel Hout; [lia|].
  simpl. unfold opendir. rewrite Hres.
  destruct (fs w !! c) as [[data t|[|]]|] eqn:Ec.
  1,3,4: (eexists _, [], []; split_and!; [done|done|by rewrite app_nil_r|
            by rewrite with_log_nil|constructor| |]);
    [ intros k q; split; [by intros ?%elem_of_nil|];
       intros Ht%traversed_root; congruence
    | intros line; split; [by intros ?%elem_of_nil|];
       intros (k & q & n0 & Ht%traversed_root & _); congruence ].
  destruct (search_entries_spec fuel pattern p c IH (children (fs w) c) w)
    as (w2 & ds & printed & Hrun & Hproc & Hstd & Hfs & Hnd & Hds & Hpr); try done.
  { apply NoDup_children. }
  { intros n Hn. by apply names_ok_child. }
  { eauto. }
  cbn [for_each]. unfold searchEntry at 1 2.
  rewrite !bool_decide_eq_true_2 by naive_solver.
  rewrite Hrun.
  set (action := "Searched for: " +:+ pattern +:+ " in " +:+ p).
  exists (logAction action w2), (ds ++ [(c, p)]), printed.
  destruct (logAction_process action w2) as (Hproc' & Hstd' & _).
  destruct (log_ext_with_log (search_records w pattern ds) (record_bytes w2 action)
              w w2 (logAction action w2)) as [Hproc'' Hfs'']; try done.
  { apply fs_logAction. }
  split_and!; try done.
  - by rewrite Hstd'.
  - rewrite Hfs'', search_records_app. f_equal. f_equal.
    unfold search_records. simpl. rewrite app_nil_r.
    destruct Hproc as (_ & ? & ?). by apply record_bytes_ext.
  - rewrite fmap_app. apply NoDup_app. split_and!; [done| |apply NoDup_singleton].
    intros k Hk1 Hk2. simpl in Hk2. apply list_elem_of_singleton in Hk2 as ->.
    apply list_elem_of_fmap in Hk1 as [[k1 q1] [Heq Hin1]]. simpl in Heq. subst k1.
    apply Hds in Hin1 as (n & _ & Hin1%traversed_prefix%prefix_snoc_length).
    lia.
  - intros k q. rewrite elem_of_app, Hds, list_elem_of_singleton. split.
    + intros [(n & Hn & Ht)|[= -> ->]].
      * by eapply traversed_down.
      * by apply traversed_here.
    + inversion 1 as [|? ? n ? ? _ Ht]; subst; [by right|].
      left. exists n. split; [|done].
      apply elem_of_children. apply traversed_root in Ht. eauto.
  - intros line. rewrite Hpr. unfold found. split.
    + intros (n & Hn%elem_of_children & [[Hcont ->]|(k & q & n0 & Ht & Hrest)]).
      * exists c, p, n. split_and!; try done. by apply traversed_here.
      * exists k, q, n0. split; [|done]. by eapply traversed_down.
    + intros (k & q & n0 & Ht & Hsome & Hcont & ->).
      inversion Ht as [|? ? n ? ? _ Ht']; subst.
      * exists n0. split; [by apply elem_of_children|]. by left.
      * exists n. split.
        { apply elem_of_children. apply traversed_root in Ht'. eauto. }
        right. by exists k, q, n0.
Qed.

Lemma wf_names_ok (m : gmap (list string) inode) : wf_fs m = true → names_ok m.
Proof. intros Hwf k v Hk. by destruct (wf_fs_lookup m k v Hwf Hk). Qed.

(** With the depth that [searchFile] gives it, the recursion always ends. *)
Lemma searchFile_spec (pattern root : string) (w : World) (c : list string) :
  names_ok (fs w) → resolve w root = inr c → log_outside w c →
  ∃ ds printed,
    searchFile_rec (S (dir_depth (fs w))) pattern root w = Some (searchFile pattern root w) ∧
    same_process w (searchFile pattern root w) ∧
    stdout (searchFile pattern root w) = stdout w ++ printed ∧
    fs (searchFile pattern root w) = with_log (search_records w pattern ds) w ∧
    NoDup ds.*1 ∧
    (∀ k q, (k, q) ∈ ds ↔ traversed (fs w) c root k q) ∧
    (∀ line, line ∈ printed ↔ found (fs w) pattern c root line).
Proof.
  intros Hok Hres Hout.
  destruct (searchFile_rec_spec pattern (S (dir_depth (fs w))) root w c)
    as (w' & ds & printed & Hrun & H); try done; [|lia|].
  { intros k r Hk. apply dir_depth_bound in Hk. lia. }
  exists ds, printed. unfold searchFile. by rewrite Hrun.
Qed.

(** The search that the dispatcher starts, at [.], never has the log
    created below it. *)
Lemma log_outside_dot (w : World) (c : list string) :
  resolve w "." = inr c → log_outside w c.
Proof.
  intros Hres L (c' & r & Hcwd & Hdir & -> & _)%log_key_spec _ _.
  unfold resolve in Hres. simpl in Hres. rewrite Hcwd, Hdir in Hres.
  change (step c' ".") with c' in Hres.
  injection Hres as <-. rewrite length_app. simpl. lia.
Qed.

(** C4: the lines that a search of [root] prints are the full paths of the
    entries whose name has the pattern in it as a substring, in [root] and
    in every directory reached from it through directories that can be
    read, at any depth; only names that are in a directory are printed,
    never [.] or [..]. *)
Theorem search_prints_matches (pattern root : string) (w : World) (c : list string) :
  wf_fs (fs w) = true → resolve w root = inr c → log_outside w c →
  ∃ printed,
    stdout (searchFile pattern root w) = stdout w ++ printed ∧
    ∀ line, line ∈ printed ↔
      ∃ k q n, traversed (fs w) c root k q ∧ is_Some (fs w !! (k ++ [n])) ∧
               (∃ a b, n = a +:+ pattern +:+ b) ∧ n ≠ "." ∧ n ≠ ".." ∧
               line = q +:+ PATH_SEP +:+ n.
Proof.
  intros Hwf Hres Hout. pose proof (wf_names_ok _ Hwf) as Hok.
  destruct (searchFile_spec pattern root w c Hok Hres Hout)
    as (ds & printed & _ & _ & Hstd & _ & _ & _ & Hpr).
  exists printed. split; [done|].
  intros line. rewrite Hpr. unfold found.
  split; intros (k & q & n & Ht & Hsome & H).
  - destruct H as [Hcont ->]. exists k, q, n.
    apply contains_spec in Hcont.
    destruct Hsome as [v Hv]. specialize (Hok _ _ Hv).
    apply Forall_app in Hok as [_ Hn]. inversion Hn as [|? ? Hvalid _]; subst.
    apply valid_name_spec in Hvalid as (_ & ? & ? & _). eauto 10.
  - destruct H as (Hsub & _ & _ & ->). exists k, q, n.
    split_and!; try done. by apply contains_spec.
Qed.

Lemma search_prints_matches_witness :
  ∃ printed,
    stdout (searchFile "a.txt" "." home) = stdout home ++ printed ∧
    ∀ line, line ∈ printed ↔
      ∃ k q n, traversed (fs home) ["home"] "." k q ∧ is_Some (fs home !! (k ++ [n])) ∧
               (∃ a b, n = a +:+ "a.txt" +:+ b) ∧ n ≠ "." ∧ n ≠ ".." ∧
               line = q +:+ PATH_SEP +:+ n.
Proof.
  apply (search_prints_matches "a.txt" "." home ["home"]).
  - vm_compute. reflexivity.
  - vm_compute. reflexivity.
  - apply log_outside_dot. vm_compute. reflexivity.
Defined.

(** The written path of a traversed directory has no newline in it when the
    root as written and the names of the directory have none. *)
Lemma traversed_end m c p k q : traversed m c p k q → m !! k = Some (Dir true).
Proof. by induction 1. Qed.

Lemma traversed_plain m c p k q :
  traversed m c p k q → Forall (λ n, plain n = true) k → plain p = true →
  plain q = true.
Proof.
  induction 1 as [|c p n k q _ Ht IH]; intros Hk Hp; [done|].
  apply IH; [done|]. rewrite !plain_app, Hp. simpl.
  apply traversed_prefix in Ht as [rest ->].
  rewrite <- (assoc_L (++)) in Hk. apply Forall_app in Hk as [_ Hk].
  apply Forall_cons in Hk as [-> _]. done.
Qed.

Lemma search_lines_spec (w : World) (pattern : string)
    (ds : list (list string * string)) :
  plain pattern = true → Forall (λ d, plain d.2 = true) ds →
  lines (search_records w pattern ds) = search_lines w pattern ds.
Proof.
  intros Hpat Hds. unfold search_records, search_lines.
  rewrite <- (map_map (λ d, "Searched for: " +:+ pattern +:+ " in " +:+ d.2)
                     (record_bytes w)).
  rewrite lines_plain_records, map_map; [done|].
  apply Forall_map. eapply Forall_impl; [exact Hds|].
  intros d Hd. simpl. rewrite !plain_app, Hpat, Hd. done.
Qed.

(** A root that is not resolved is not opened: nothing is done. *)
Lemma searchFile_unresolved (pattern root : string) (w : World) (e : errno) :
  resolve w root = inl e → searchFile pattern root w = set_errno e w.
Proof.
  intros Hres. unfold searchFile. simpl. unfold opendir. by rewrite Hres.
Qed.

(** C10, counterexample: a tree of two readable directories, the root and
    a directory whose name has a newline in it.  The search traverses both
    and writes two records, one for each; the log, empty before, has three
    lines: the record of the directory with the newline is two of them. *)
Lemma newline_in_a_name_adds_a_line :
  wf_fs (fs odd) = true ∧ size (fs odd) = 2%nat ∧
  fs odd !! [] = Some (Dir true) ∧ fs odd !! [odd_name] = Some (Dir true) ∧
  log_bytes odd = [] ∧
  log_bytes (searchFile "x" "." odd) =
    search_records odd "x" [ ([odd_name], "." +:+ PATH_SEP +:+ odd_name); ([], ".") ] ∧
  length (history (searchFile "x" "." odd)) = 3%nat.
Proof. by vm_compute. Qed.

(** C10, amended: a search writes one "Searched for" record for each
    directory it traverses: the root, when it can be read, and every
    directory reached from it through directories that can be read; none
    for a directory that cannot be opened, and none at all for a root that
    is not resolved.  [ds] lists these directories, each once, and the log
    is after the search what it was before, with the records of [ds] at its
    end ([appended]: when the log can be opened): one search of a tree with
    [length ds] readable directories makes the log [length ds] records
    longer.  A record is one line, so that the log is [length ds] lines
    longer, when the log ended its last line and neither the pattern, the
    root as written nor a name of the file system has a newline in it.
    The root is [.], as in the search that the dispatcher starts, or such
    that the log, if it is created by the search, is not created below it. *)
Theorem search_writes_a_record_per_directory (pattern root : string) (w : World) :
  wf_fs (fs w) = true →
  (∀ c, resolve w root = inr c → root = "." ∨ log_outside w c →
     ∃ ds : list (list string * string),
       NoDup ds.*1 ∧
       (∀ k q, (k, q) ∈ ds ↔ traversed (fs w) c root k q) ∧
       fs (searchFile pattern root w) = with_log (search_records w pattern ds) w ∧
       log_bytes (searchFile pattern root w) =
         log_bytes w ++ appended w (search_records w pattern ds) ∧
       (terminated (log_bytes w) = true → plain_names (fs w) →
        plain pattern = true → plain root = true →
          history (searchFile pattern root w) =
            history w ++ appended w (search_lines w pattern ds) ∧
          length (history (searchFile pattern root w)) =
            (length (history w) + length (appended w ds))%nat)) ∧
  (∀ e, resolve w root = inl e → fs (searchFile pattern root w) = fs w).
Proof.
  intros Hwf. pose proof (wf_names_ok _ Hwf) as Hok. split.
  2: { intros e Hres. by rewrite (searchFile_unresolved pattern root w e). }
  intros c Hres Hroot.
  assert (log_outside w c) as Hout.
  { destruct Hroot as [->|Hout]; [by apply log_outside_dot|done]. }
  clear Hroot.
  destruct (searchFile_spec pattern root w c Hok Hres Hout)
    as (ds & printed & _ & Hproc & _ & Hfs & Hnd & Hds & _).
  assert (log_bytes (searchFile pattern root w) =
          log_bytes w ++ appended w (search_records w pattern ds)) as Hlog.
  { unfold appended. destruct (log_key w) as [L|] eqn:HL.
    - eapply log_bytes_with_log; [done| |done]. apply Hproc.
    - rewrite app_nil_r. apply log_bytes_ext; [|apply Hproc].
      by rewrite Hfs, with_log_no_key. }
  exists ds. split_and!; try done.
  intros Hterm Hnames Hpat Hroot.
  assert (history (searchFile pattern root w) =
          history w ++ appended w (search_lines w pattern ds)) as Hhist.
  { unfold history. rewrite Hlog, lines_app by done. f_equal.
    unfold appended. destruct (log_key w); [|done].
    apply search_lines_spec; [done|].
    apply Forall_forall. intros [k q] Hkq. apply Hds in Hkq. simpl.
    eapply traversed_plain; [exact Hkq| |done].
    eapply Hnames. eapply traversed_end, Hkq. }
  split; [done|]. rewrite Hhist, length_app. f_equal.
  unfold appended, search_lines. destruct (log_key w); [|done].
  by rewrite length_map.
Qed.

(** The theorem at the search of the dispatcher, from [.], in the sample
    state, and at a root that is not resolved. *)
Lemma search_writes_a_record_per_directory_witness :
  (∃ ds : list (list string * string),
     NoDup ds.*1 ∧
     (∀ k q, (k, q) ∈ ds ↔ traversed (fs home) ["home"] "." k q) ∧
     fs (searchFile "a" "." home) = with_log (search_records home "a" ds) home ∧
     log_bytes (searchFile "a" "." home) =
       log_bytes home ++ appended home (search_records home "a" ds) ∧
     (terminated (log_bytes home) = true → plain_names (fs home) →
      plain "a" = true → plain "." = true →
        history (searchFile "a" "." home) =
          history home ++ appended home (search_lines home "a" ds) ∧
        length (history (searchFile "a" "." home)) =
          (length (history home) + length (appended home ds))%nat)) ∧
  fs (searchFile "a" "nowhere/x" home) = fs home.
Proof.
  split.
  - apply (search_writes_a_record_per_directory "a" "." home).
    + vm_compute. reflexivity.
    + vm_compute. reflexivity.
    + left. reflexivity.
  - apply (search_writes_a_record_per_directory "a" "nowhere/x" home eq_refl) with ENOENT.
    vm_compute. reflexivity.
Defined.

(** In the sample state the search of [.] traverses [.] and [./sub], not
    [./locked], and writes two records. *)
Lemma search_sample :
  stdout (searchFile "a.txt" "." home) = ["./sub/a.txt"; "./sub/a.txt.bak"] ∧
  history (searchFile "a.txt" "." home) =
    [ "[2026-11-01 10:00:00] Checked current directory.";
      "[2026-11-02 08:30:05] Searched for: a.txt in ./sub";
      "[2026-11-02 08:30:05] Searched for: a.txt in ." ].
Proof. by vm_compute. Qed.

End Searching.

(** ** Recursive removal *)

Module Removing.
Import Text Time Posix Explorer Spec Sample TextFacts PosixFacts LogFacts OpFacts Searching.

Lemma with_log_lookup_key (recs : list byte) (w : World) (L : list string) :
  log_key w = Some L →
  with_log recs w !! L =
  if bool_decide (recs = []) then fs w !! L
  else Some (File (log_bytes w ++ recs) (clock w)).
Proof.
  intros HL. unfold with_log. rewrite HL.
  case_bool_decide; [done|]. by rewrite lookup_insert_eq.
Qed.

Lemma log_key_parent (w : World) (L : list string) :
  log_key w = Some L → ∃ cw, cwd w = Some cw ∧ L = cw ++ [LOG_FILE].
Proof. intros (c & r & ? & _ & ? & _)%log_key_spec. eauto. Qed.

Lemma changed_only_refl (P : list string → Prop) (w : World) : changed_only P [] w w.
Proof. unfold changed_only. rewrite with_log_nil. split_and!; auto. done. Qed.

Lemma changed_only_weaken (P Q : list string → Prop) recs w w' :
  (∀ k, P k → Q k) → changed_only P recs w w' → changed_only Q recs w w'.
Proof.
  intros HPQ (Hp & Hout & Hall). split_and!; [done| |done].
  intros k Hk. apply Hout. intros HP. by apply Hk, HPQ.
Qed.

Lemma changed_only_errno (P : list string → Prop) (e : errno) (w : World) :
  changed_only P [] w (set_errno e w).
Proof. unfold changed_only. rewrite with_log_nil. simpl. split_and!; auto. done. Qed.

(** A change that spares the log leaves it where it is, longer by [recs]. *)
Lemma changed_only_log (P : list string → Prop) recs w w' :
  changed_only P recs w w' → spares_log P w →
  log_key w' = log_key w ∧
  (is_Some (log_key w) → log_bytes w' = log_bytes w ++ recs) ∧
  (log_key w = None → log_bytes w' = log_bytes w).
Proof.
  intros ((Hcwd & Hclock & Hlt) & Hout & Hall) Hsp.
  assert (log_key w' = log_key w) as Hkey.
  { rewrite !log_key_is_dir, Hcwd. destruct (cwd w) as [cw|] eqn:Ecw; [|done].
    destruct (Hsp cw Ecw) as [H1 H2].
    unfold is_dir. rewrite !Hout by done.
    fold (is_dir (with_log recs w) cw). fold (is_dir (with_log recs w) (cw ++ [LOG_FILE])).
    by rewrite !with_log_is_dir. }
  split; [done|]. split.
  - intros [L HL]. rewrite (log_bytes_key w' L) by congruence.
    destruct (log_key_parent w L HL) as (cw & Ecw & ->).
    destruct (Hsp cw Ecw) as [_ H2].
    unfold file_data. rewrite Hout by done. rewrite with_log_lookup_key by done.
    case_bool_decide as Hr.
    + subst recs. rewrite app_nil_r. by rewrite (log_bytes_key w _ HL).
    + done.
  - intros HN. rewrite !log_bytes_no_key; [done..|congruence].
Qed.

(** One change after another. *)
Lemma changed_only_trans (P Q : list string → Prop) r1 r2 w w1 w2 :
  changed_only P r1 w w1 → spares_log P w →
  changed_only Q r2 w1 w2 →
  changed_only (λ k, P k ∨ Q k) (r1 ++ r2) w w2.
Proof.
  intros H1 Hsp H2.
  destruct (changed_only_log P r1 w w1 H1 Hsp) as (Hkey & Hbytes & Hnokey).
  destruct H1 as ((Hcwd & Hclock & Hlt) & Hout1 & Hall1).
  destruct H2 as ((Hcwd' & Hclock' & Hlt') & Hout2 & Hall2).
  assert (∀ k, fs w1 !! k = with_log r1 w !! k →
               with_log r2 w1 !! k = with_log (r1 ++ r2) w !! k) as Hcomp.
  { intros k Hk. destruct (decide (log_key w = Some k)) as [HL|HL].
    - destruct (decide (r2 = [])) as [->|Hr2].
      { by rewrite app_nil_r, with_log_nil. }
      rewrite !with_log_lookup_key by congruence.
      rewrite !bool_decide_eq_false_2; [|by intros [_ ?]%app_eq_nil|done].
      rewrite Hbytes by eauto. by rewrite Hclock, <- (assoc_L (++)).
    - rewrite !with_log_lookup_ne by congruence.
      rewrite Hk. by rewrite with_log_lookup_ne. }
  split_and!.
  - unfold same_process. split_and!; congruence.
  - intros k Hk. rewrite Hout2 by naive_solver. apply Hcomp. apply Hout1. naive_solver.
  - intros k. destruct (Hall2 k) as [Hk2|Hk2]; [|by right].
    destruct (decide (log_key w = Some k)) as [HL|HL].
    + left. rewrite Hk2. apply Hcomp. apply Hout1.
      destruct (log_key_parent w k HL) as (cw & Ecw & ->). by apply Hsp.
    + rewrite Hk2. rewrite with_log_lookup_ne by congruence.
      rewrite (with_log_lookup_ne (r1 ++ r2)) by done.
      destruct (Hall1 k) as [Hk1|Hk1]; [left|right; done].
      by rewrite Hk1, with_log_lookup_ne.
Qed.

Lemma changed_only_logAction (P : list string → Prop) (action : string) (w : World) :
  changed_only P (record_bytes w action) w (logAction action w).
Proof.
  split_and!; [apply logAction_process|..]; intros k; rewrite fs_logAction; auto.
Qed.

(** *** Paths that stay resolved *)

Lemma walk_dirs_app m cur cs cs' :
  walk_dirs m cur (cs ++ cs') =
  walk_dirs m cur cs ++
  match walk m cur cs with
  | inr t => walk_dirs m t cs'
  | inl _ => []
  end.
Proof.
  revert cur. induction cs as [|x cs IH]; intros cur; simpl; [done|].
  f_equal. destruct (m !! cur) as [[|]|]; simpl; [done| |done]. apply IH.
Qed.

Lemma walk_stable m m' c cur cs target :
  walk m cur cs = inr target →
  Forall (λ d, ¬ strictly_below c d) (walk_dirs m cur cs) →
  (∀ d, ¬ strictly_below c d → is_dir m' d = is_dir m d) →
  walk m' cur cs = inr target ∧ walk_dirs m' cur cs = walk_dirs m cur cs.
Proof.
  intros Hwalk Hav Hagree. revert cur Hwalk Hav.
  induction cs as [|x cs IH]; intros cur Hwalk Hav; simpl in *; [done|].
  apply Forall_cons in Hav as [Hcur Hav].
  specialize (Hagree cur Hcur). unfold is_dir in Hagree.
  destruct (m !! cur) as [[|r]|] eqn:E; try done.
  destruct (m' !! cur) as [[|r']|] eqn:E'; try done.
  destruct (IH _ Hwalk Hav) as [-> ->]. done.
Qed.

Lemma path_avoids_Forall w p c :
  path_avoids w p c = true ↔ Forall (λ d, ¬ strictly_below c d) (resolve_dirs w p).
Proof.
  unfold path_avoids. rewrite <- Is_true_true, forallb_True.
  apply Forall_iff. intros d. rewrite negb_True, bool_decide_spec. done.
Qed.

Lemma resolve_stable w w' p c target :
  cwd w' = cwd w → resolve w p = inr target → path_avoids w p c = true →
  (∀ d, ¬ strictly_below c d → is_dir (fs w') d = is_dir (fs w) d) →
  resolve w' p = inr target ∧ path_avoids w' p c = true.
Proof.
  intros Hcwd Hres Hav%path_avoids_Forall Hagree.
  rewrite path_avoids_Forall. unfold resolve, resolve_dirs in *. rewrite Hcwd.
  case_bool_decide; [done|].
  destruct (is_absolute p).
  - destruct (walk_stable _ (fs w') c _ _ _ Hres Hav Hagree) as [-> ->]. done.
  - destruct (cwd w) as [cw|]; [|done].
    destruct (walk_stable _ (fs w') c _ _ _ Hres Hav Hagree) as [-> ->]. done.
Qed.

Lemma prefix_snoc_strict (c d : list string) (n : string) :
  (c ++ [n]) `prefix_of` d → strictly_below c d.
Proof.
  intros Hpre. destruct (prefix_snoc_length _ _ _ Hpre) as [Hc Hlen].
  split; [done|]. intros ->. lia.
Qed.

Lemma strictly_below_snoc (c d : list string) (n : string) :
  strictly_below (c ++ [n]) d → strictly_below c d.
Proof. intros [Hpre _]. by eapply prefix_snoc_strict. Qed.

Lemma path_avoids_sub w p c n r :
  resolve w p = inr c → fs w !! c = Some (Dir r) → valid_name n = true →
  path_avoids w p c = true →
  path_avoids w (p +:+ PATH_SEP +:+ n) (c ++ [n]) = true.
Proof.
  intros Hres Hdir Hn Hav%path_avoids_Forall. apply path_avoids_Forall.
  unfold resolve, resolve_dirs in *.
  case_bool_decide as Hp; [done|].
  rewrite bool_decide_eq_false_2 by apply sep_nonempty.
  rewrite is_absolute_sep by done.
  assert (components (p +:+ PATH_SEP +:+ n) = components p ++ [n]) as ->.
  { rewrite components_sep, (components_name n); [done|].
    by apply valid_name_spec in Hn as (_ & _ & _ & ?). }
  assert (∀ cur, walk (fs w) cur (components p) = inr c →
                 Forall (λ d, ¬ strictly_below c d) (walk_dirs (fs w) cur (components p)) →
                 Forall (λ d, ¬ strictly_below (c ++ [n]) d)
                        (walk_dirs (fs w) cur (components p ++ [n]))) as Hw.
  { intros cur Hcur Hall. rewrite walk_dirs_app, Hcur. simpl. rewrite Hdir.
    apply Forall_app. split.
    - eapply Forall_impl; [done|]. intros d Hd Hs. by apply Hd, (strictly_below_snoc c d n).
    - apply Forall_singleton. intros [Hpre _].
      apply prefix_snoc_length in Hpre as [_ ?]. lia. }
  destruct (is_absolute p); [by apply Hw|].
  destruct (cwd w); [by apply Hw|done].
Qed.

Lemma final_component_sub (p n : string) :
  valid_name n = true → final_component (p +:+ PATH_SEP +:+ n) = n.
Proof.
  intros (Hne & _ & _ & Hs)%valid_name_spec. unfold final_component.
  rewrite components_sep, (components_name n) by done.
  rewrite filter_app, filter_cons_True, filter_nil by done. apply last_last.
Qed.

Lemma rm_outside_elim w c cw :
  rm_outside w c = true → cwd w = Some cw → ¬ c `prefix_of` cw ++ [LOG_FILE].
Proof.
  unfold rm_outside. intros H Hcw. rewrite Hcw in H.
  by apply negb_true_iff, bool_decide_eq_false in H.
Qed.

Lemma rm_outside_intro w c :
  (∀ cw, cwd w = Some cw → ¬ c `prefix_of` cw ++ [LOG_FILE]) → rm_outside w c = true.
Proof.
  unfold rm_outside. intros H. destruct (cwd w) as [cw|]; [|done].
  apply negb_true_iff, bool_decide_eq_false. by apply H.
Qed.

Lemma rm_outside_spares w c (Q : list string → Prop) :
  rm_outside w c = true → (∀ k, Q k → c `prefix_of` k) → spares_log Q w.
Proof.
  intros Hout HQ cw Hcw. pose proof (rm_outside_elim w c cw Hout Hcw) as Hn.
  split; intros Hq%HQ; apply Hn; [|done].
  etrans; [done|]. by apply prefix_app_r.
Qed.

Lemma rm_outside_sub w c n : rm_outside w c = true → rm_outside w (c ++ [n]) = true.
Proof.
  intros H. apply rm_outside_intro. intros cw Hcw Hpre.
  apply (rm_outside_elim w c cw H Hcw).
  by apply prefix_snoc_length in Hpre as [? _].
Qed.

(** The log is not in the tree. *)
Lemma rm_outside_log w c k :
  rm_outside w c = true → c `prefix_of` k → log_key w ≠ Some k.
Proof.
  intros Hout Hpre HL.
  destruct (log_key_parent w k HL) as (cw & Hcw & ->).
  by apply (rm_outside_elim w c cw).
Qed.

(** *** The calls that remove *)

Lemma changed_only_delete (c : list string) (w w' : World) :
  same_process w w' → fs w' = delete c (fs w) →
  changed_only (λ k, k = c) [] w w'.
Proof.
  intros Hp Hfs. split; [done|]. rewrite with_log_nil, Hfs. split.
  - intros k Hk. by rewrite lookup_delete_ne.
  - intros k. destruct (decide (c = k)) as [->|Hne].
    + right. apply lookup_delete_eq.
    + left. by apply lookup_delete_ne.
Qed.

Lemma rmdir_changed (w : World) (p : string) (c : list string) :
  resolve w p = inr c → cwd w ≠ Some c →
  changed_only (λ k, k = c) [] w (rmdir w p).1.
Proof.
  intros Hres Hcwd. unfold rmdir. rewrite Hres.
  destruct (fs w !! c) as [[|r]|]; try apply changed_only_errno.
  repeat (case_bool_decide; [apply changed_only_errno|]).
  case_bool_decide; [|apply changed_only_errno].
  rewrite bool_decide_eq_false_2 by done. by apply changed_only_delete.
Qed.

Lemma rmdir_empty (w : World) (p : string) (c : list string) (r : bool) :
  resolve w p = inr c → fs w !! c = Some (Dir r) → proper_target p c = true →
  (∀ n, fs w !! (c ++ [n]) = None) →
  fs (rmdir w p).1 !! c = None.
Proof.
  intros Hres Hdir (H1 & H2 & H3)%bool_decide_eq_true Hempty.
  unfold rmdir. rewrite Hres, Hdir.
  rewrite !bool_decide_eq_false_2 by done.
  rewrite bool_decide_eq_true_2 by (by apply children_nil).
  simpl. apply lookup_delete_eq.
Qed.

Lemma unlink_changed (w : World) (p : string) (c : list string) :
  resolve w p = inr c → changed_only (λ k, k = c) [] w (unlink w p).1.
Proof.
  intros Hres. unfold unlink. rewrite Hres.
  destruct (fs w !! c) as [[|r]|]; try apply changed_only_errno.
  by apply changed_only_delete.
Qed.

Lemma remove_changed (w : World) (p : string) (c : list string) :
  resolve w p = inr c → cwd w ≠ Some c →
  changed_only (λ k, k = c) [] w (remove w p).1.
Proof.
  intros Hres Hcwd. unfold remove, stat. rewrite Hres.
  destruct (fs w !! c) as [[|r]|]; [by apply unlink_changed|
    by apply rmdir_changed|by apply unlink_changed].
Qed.

Lemma remove_file (w : World) (p : string) (c : list string) (data : list byte) (t : Z) :
  resolve w p = inr c → fs w !! c = Some (File data t) →
  fs (remove w p).1 !! c = None.
Proof.
  intros Hres Hf. unfold remove, stat, unlink. rewrite Hres, Hf. simpl.
  apply lookup_delete_eq.
Qed.

(** *** The paths that get a record *)

Lemma removal_logged_prefix m c p k q : removal_logged m c p k q → c `prefix_of` k.
Proof.
  induction 1 as [|c p n k q _ _ _ IH]; [done|].
  etrans; [|exact IH]. by apply prefix_app_r.
Qed.

Lemma removal_logged_ext m m' c p k q :
  (∀ j, c `prefix_of` j → m' !! j = m !! j) →
  removal_logged m c p k q → removal_logged m' c p k q.
Proof.
  intros Hag Hrl. induction Hrl as [c p Hc|c p n k q Hc Hn _ IH].
  - apply removal_here. by rewrite Hag.
  - eapply removal_down.
    + by rewrite Hag.
    + rewrite Hag; [done|]. by apply prefix_app_r.
    + apply IH. intros j Hj. apply Hag. by apply prefix_snoc_length in Hj as [? _].
Qed.

Lemma rm_records_app w ds1 ds2 :
  rm_records w (ds1 ++ ds2) = rm_records w ds1 ++ rm_records w ds2.
Proof. unfold rm_records. by rewrite map_app, concat_app. Qed.

Lemma rm_records_ext w w' ds :
  same_process w w' → rm_records w' ds = rm_records w ds.
Proof.
  intros (_ & Hk & Hl). unfold rm_records. f_equal. apply map_ext.
  intros d. by apply record_bytes_ext.
Qed.

(** *** Trees *)

Lemma strictly_below_parent (c k : list string) :
  strictly_below c k → c `prefix_of` removelast k.
Proof.
  intros [[rest ->] Hne]. destruct rest as [|x rest] using rev_ind.
  - by rewrite app_nil_r in Hne.
  - rewrite (assoc_L (++)), removelast_last. by apply prefix_app_r.
Qed.

(** Nothing lies below what is not a directory. *)
Lemma closed_below_leaf m c j k :
  closed_below m c → c `prefix_of` j → (∀ r, m !! j ≠ Some (Dir r)) →
  strictly_below j k → m !! k = None.
Proof.
  intros Hcl Hcj Hj [[rest ->] Hne].
  induction rest as [|x rest IH] using rev_ind; [by rewrite app_nil_r in Hne|].
  destruct (m !! (j ++ rest ++ [x])) eqn:E; [|done]. exfalso.
  destruct (Hcl (j ++ rest ++ [x])) as [r Hr]; [|eauto|].
  { split.
    - etrans; [done|]. by apply prefix_app_r.
    - intros ->. destruct Hcj as [rest' Heq].
      apply (f_equal length) in Heq. rewrite !length_app in Heq. simpl in Heq. lia. }
  rewrite (assoc_L (++)), removelast_last in Hr.
  destruct rest as [|y rest'] using rev_ind.
  - rewrite app_nil_r in Hr. by eapply Hj.
  - rewrite IH in Hr; [done|]. intros Heq.
    apply (f_equal length) in Heq. rewrite !length_app in Heq. simpl in Heq. lia.
Qed.

Lemma closed_below_sub m c n :
  closed_below m c → closed_below m (c ++ [n]).
Proof. intros Hcl k Hk. apply Hcl. by eapply strictly_below_snoc. Qed.

Lemma all_readable_sub m c n : all_readable m c → all_readable m (c ++ [n]).
Proof.
  intros Hr k r Hk. apply Hr. by apply prefix_snoc_length in Hk as [? _].
Qed.

(** *** The recursion *)

Lemma children_first_app ds1 ds2 :
  children_first (ds1 ++ ds2) ↔
  children_first ds1 ∧ children_first ds2 ∧
  ∀ d1 d2, d1 ∈ ds1 → d2 ∈ ds2 → ¬ strictly_below d1.1 d2.1.
Proof.
  induction ds1 as [|d ds1 IH]; simpl.
  - split; [intros H; split_and!; [done|done|by intros ? ? ?%elem_of_nil]|naive_solver].
  - rewrite IH. split.
    + intros (Hd & H1 & H2 & H12). split_and!; try done.
      * intros d' Hd'. apply Hd. apply elem_of_app. by left.
      * intros d1 d2 [->|Hd1]%elem_of_cons Hd2; [|by apply H12].
        apply Hd. apply elem_of_app. by right.
    + intros ((Hd & H1) & H2 & H12). split_and!; try done.
      * intros d' [Hd'|Hd']%elem_of_app; [by apply Hd|]. apply H12; [left|done].
      * intros d1 d2 Hd1 Hd2. apply H12; [by right|done].
Qed.

Lemma co_below P recs w w' c k :
  changed_only P recs w w' → rm_outside w c = true → c `prefix_of` k →
  fs w' !! k = fs w !! k ∨ fs w' !! k = None.
Proof.
  intros (_ & _ & Hall) Hout Hk. destruct (Hall k) as [Hk'|]; [left|by right].
  rewrite Hk'. apply with_log_lookup_ne. by eapply rm_outside_log.
Qed.

Lemma co_untouched P recs w w' c k :
  changed_only P recs w w' → rm_outside w c = true → c `prefix_of` k → ¬ P k →
  fs w' !! k = fs w !! k.
Proof.
  intros (_ & Hnot & _) Hout Hk HP. rewrite Hnot by done.
  apply with_log_lookup_ne. by eapply rm_outside_log.
Qed.

Lemma co_is_dir P recs w w' d :
  changed_only P recs w w' → ¬ P d → is_dir (fs w') d = is_dir (fs w) d.
Proof.
  intros (_ & Hnot & _) HP. unfold is_dir at 1. rewrite Hnot by done.
  apply with_log_is_dir.
Qed.

Lemma names_ok_with_log recs w : names_ok (fs w) → names_ok (with_log recs w).
Proof.
  intros Hok. apply (log_ext_names_ok w (set_fs (with_log recs w) w)); [|done].
  split; [done|]. by exists recs.
Qed.

Lemma co_names_ok P recs w w' :
  changed_only P recs w w' → names_ok (fs w) → names_ok (fs w').
Proof.
  intros (_ & _ & Hall) Hok k v Hk.
  destruct (Hall k) as [Hk'|Hk']; [|congruence].
  apply (names_ok_with_log recs w Hok k v). congruence.
Qed.

Lemma rm_outside_ext w w' c : cwd w' = cwd w → rm_outside w' c = rm_outside w c.
Proof. intros H. unfold rm_outside. by rewrite H. Qed.

Lemma rm_outside_cwd w c : rm_outside w c = true → cwd w ≠ Some c.
Proof.
  intros Hout Hcw. apply (rm_outside_elim w c c Hout Hcw). by apply prefix_app_r.
Qed.

Lemma remove_nondir (w : World) (p : string) (c : list string) :
  resolve w p = inr c → is_dir (fs w) c = false → fs (remove w p).1 !! c = None.
Proof.
  intros Hres Hnd. unfold is_dir in Hnd. unfold remove, stat, unlink. rewrite Hres.
  destruct (fs w !! c) as [[|]|] eqn:E; try done; simpl.
  apply lookup_delete_eq.
Qed.

Lemma rm_records_one w c p :
  rm_records w [(c, p)] = record_bytes w ("Removed: " +:+ p).
Proof. unfold rm_records. cbn [map concat snd]. apply app_nil_r. Qed.

(** The removal of one entry of the directory [c]. *)
Lemma rm_entry_spec fuel p c n w :
  rm_ok fuel →
  valid_name n = true → is_Some (fs w !! (c ++ [n])) →
  names_ok (fs w) → resolve w p = inr c → (∃ r, fs w !! c = Some (Dir r)) →
  path_avoids w p c = true → rm_outside w c = true →
  (∀ k v, c `prefix_of` k → fs w !! k = Some v → (length k < S fuel + length c)%nat) →
  ∃ w' ds,
    removeEntry (removeRecursive_rec fuel) p n w = Some w' ∧
    changed_only (λ k, (c ++ [n]) `prefix_of` k) (rm_records w ds) w w' ∧
    NoDup ds.*1 ∧
    (∀ k q, (k, q) ∈ ds ↔ removal_logged (fs w) (c ++ [n]) (p +:+ PATH_SEP +:+ n) k q) ∧
    (all_readable (fs w) c → closed_below (fs w) c →
       ∀ k, (c ++ [n]) `prefix_of` k → fs w' !! k = None) ∧
    children_first ds.
Proof.
  intros Hrec Hn [v Hv] Hok Hres [r Hc] Hav Hout Hbound.
  unfold removeEntry.
  rewrite bool_decide_eq_false_2
    by (apply valid_name_spec in Hn as (_ & ? & ? & _); naive_solver).
  destruct (Hrec (p +:+ PATH_SEP +:+ n) w (c ++ [n]))
    as (w' & ds & Hrun & Hco & Hnd & Hds & Hgone & Hord); try done.
  - by eapply resolve_sub.
  - by eapply path_avoids_sub.
  - by apply rm_outside_sub.
  - intros k v' Hk Hkv. apply prefix_snoc_length in Hk as [Hk _].
    specialize (Hbound k v' Hk Hkv). rewrite length_app. simpl. lia.
  - assert (c `prefix_of` c ++ [n]) as Hpre by (by apply prefix_app_r).
    specialize (Hbound _ _ Hpre Hv). rewrite length_app in Hbound. simpl in Hbound. lia.
  - exists w', ds. split_and!; try done.
    intros Hr Hcl. apply Hgone.
    + by apply all_readable_sub.
    + by apply closed_below_sub.
    + apply bool_decide_eq_true. rewrite final_component_sub by done.
      apply valid_name_spec in Hn as (_ & ? & ? & _). split_and!; try done.
      by destruct c.
Qed.

(** The loop over the names of the directory [c]. *)
Lemma rm_entries_spec fuel p c :
  rm_ok fuel →
  ∀ names w,
    NoDup names →
    (∀ n, n ∈ names → valid_name n = true ∧ is_Some (fs w !! (c ++ [n]))) →
    names_ok (fs w) → resolve w p = inr c → (∃ r, fs w !! c = Some (Dir r)) →
    path_avoids w p c = true → rm_outside w c = true →
    (∀ k v, c `prefix_of` k → fs w !! k = Some v → (length k < S fuel + length c)%nat) →
    ∃ w' ds,
      for_each (removeEntry (removeRecursive_rec fuel) p) names w = Some w' ∧
      changed_only (λ k, ∃ n, n ∈ names ∧ (c ++ [n]) `prefix_of` k) (rm_records w ds) w w' ∧
      NoDup ds.*1 ∧
      (∀ k q, (k, q) ∈ ds ↔
         ∃ n, n ∈ names ∧ removal_logged (fs w) (c ++ [n]) (p +:+ PATH_SEP +:+ n) k q) ∧
      (all_readable (fs w) c → closed_below (fs w) c →
         ∀ n k, n ∈ names → (c ++ [n]) `prefix_of` k → fs w' !! k = None) ∧
      children_first ds.
Proof.
  intros Hrec names. induction names as [|n rest IH];
    intros w Hnd Hnames Hok Hres Hc Hav Hout Hbound.
  { exists w, []. split_and!; try done.
    - apply changed_only_refl.
    - constructor.
    - intros k q. split; [by intros ?%elem_of_nil|]. by intros (n & ?%elem_of_nil & _).
    - intros _ _ n k ?%elem_of_nil. done. }
  apply NoDup_cons in Hnd as [Hn_rest Hnd].
  destruct (Hnames n) as [Hn Hsome]; [left|].
  destruct (rm_entry_spec fuel p c n w)
    as (w1 & ds1 & Hrun1 & Hco1 & Hnd1 & Hds1 & Hgone1 & Hord1); try done.
  assert (Hsame : ∀ n' k, n' ≠ n → (c ++ [n']) `prefix_of` k → fs w1 !! k = fs w !! k).
  { intros n' k Hne Hk. apply (co_untouched _ _ w w1 c k Hco1 Hout).
    - by apply prefix_snoc_length in Hk as [? _].
    - intros Hk'. apply Hne. by eapply prefix_snoc_inj. }
  assert (Hc1 : ∀ r, fs w !! c = Some (Dir r) → fs w1 !! c = Some (Dir r)).
  { intros r Hr. rewrite <- Hr. apply (co_untouched _ _ w w1 c c Hco1 Hout); [done|].
    intros Hk%prefix_snoc_length. lia. }
  assert (Hp1 : same_process w w1) by apply Hco1.
  destruct (resolve_stable w w1 p c c) as [Hres1 Hav1]; try done.
  { apply Hp1. }
  { intros d Hd. apply (co_is_dir _ _ _ _ _ Hco1).
    intros Hd'. apply Hd. by eapply prefix_snoc_strict. }
  destruct (IH w1) as (w2 & ds2 & Hrun2 & Hco2 & Hnd2 & Hds2 & Hgone2 & Hord2); try done.
  { intros n' Hn'. destruct (Hnames n') as [? ?]; [by right|]. split; [done|].
    rewrite (Hsame n'); [done| |done]. intros ->. done. }
  { by eapply co_names_ok. }
  { destruct Hc as [r Hr]. eauto. }
  { rewrite (rm_outside_ext w w1); [done|]. apply Hp1. }
  { intros k v Hk Hkv. destruct (co_below _ _ w w1 c k Hco1 Hout Hk) as [Hk'|Hk'];
      [|congruence].
    apply (Hbound k v Hk). congruence. }
  exists w2, (ds1 ++ ds2). simpl. rewrite Hrun1.
  assert (Hco : changed_only (λ k, ∃ n0, n0 ∈ n :: rest ∧ (c ++ [n0]) `prefix_of` k)
                  (rm_records w (ds1 ++ ds2)) w w2).
  { rewrite rm_records_app, <- (rm_records_ext w w1 ds2) by done.
    eapply changed_only_weaken; [|eapply changed_only_trans; [exact Hco1| |exact Hco2]].
    - intros k [Hk|(n' & Hn' & Hk)]; [exists n; split; [left|done]|].
      exists n'. split; [by right|done].
    - apply (rm_outside_spares w c); [done|].
      intros k Hk. by apply prefix_snoc_length in Hk as [? _]. }
  split_and!; try done.
  - rewrite fmap_app. apply NoDup_app. split_and!; try done.
    intros k Hk1 Hk2.
    apply list_elem_of_fmap in Hk1 as [[k1 q1] [Heq1 Hin1]].
    apply list_elem_of_fmap in Hk2 as [[k2 q2] [Heq2 Hin2]]. simpl in *. subst k1 k2.
    apply Hds1, removal_logged_prefix in Hin1.
    apply Hds2 in Hin2 as (n' & Hn' & Hin2%removal_logged_prefix).
    assert (n = n') as -> by (by eapply prefix_snoc_inj). done.
  - intros k q. rewrite elem_of_app, Hds1, Hds2. split.
    + intros [Ht|(n' & Hn' & Ht)].
      * exists n. split; [left|done].
      * exists n'. split; [by right|].
        eapply removal_logged_ext; [|exact Ht]. intros j Hj. symmetry.
        apply (Hsame n'); [|done]. intros ->. done.
    + intros (n' & [->|Hn']%elem_of_cons & Ht); [by left|].
      right. exists n'. split; [done|].
      eapply removal_logged_ext; [|exact Ht]. intros j Hj.
      apply (Hsame n'); [|done]. intros ->. done.
  - intros Hr Hcl n0 k Hn0 Hk.
    assert (Hg1 : ∀ j, (c ++ [n]) `prefix_of` j → fs w1 !! j = None) by (by apply Hgone1).
    assert (Hout1 : rm_outside w1 c = true).
    { rewrite (rm_outside_ext w w1); [done|]. apply Hp1. }
    apply elem_of_cons in Hn0 as [->|Hn0].
    + assert (c `prefix_of` k) as Hck by (by apply prefix_snoc_length in Hk as [? _]).
      destruct (co_below _ _ w1 w2 c k Hco2 Hout1 Hck) as [Hk'|]; [|done].
      rewrite Hk'. by apply Hg1.
    + apply (Hgone2) with (n := n0); try done.
      * intros j r Hj Hjr. apply (Hr j r Hj).
        destruct (co_below _ _ w w1 c j Hco1 Hout Hj); congruence.
      * intros j Hj [v Hv].
        assert (c `prefix_of` j) as Hcj by apply Hj.
        assert (fs w !! j = Some v) as Hv'.
        { destruct (co_below _ _ w w1 c j Hco1 Hout Hcj); congruence. }
        destruct (Hcl j Hj) as [r Hpar]; [eauto|]. exists r.
        rewrite <- Hpar. apply (co_untouched _ _ w w1 c _ Hco1 Hout).
        { by apply strictly_below_parent. }
        intros Hpre. assert ((c ++ [n]) `prefix_of` j) as Hnj.
        { etrans; [exact Hpre|]. destruct j as [|x j] using rev_ind.
          - destruct Hj as [_ Hne]. destruct Hcj as [rest' Heq].
            by destruct c, rest'.
          - rewrite removelast_last. by apply prefix_app_r. }
        rewrite Hg1 in Hv by done. done.
  - apply children_first_app. split_and!; try done.
    intros [k1 q1] [k2 q2] Hin1 Hin2. simpl.
    apply Hds1, removal_logged_prefix in Hin1.
    apply Hds2 in Hin2 as (n' & Hn' & Hin2%removal_logged_prefix).
    intros [Hpre _]. assert (n = n') as ->; [|done].
    eapply prefix_snoc_inj; [|exact Hin2]. by etrans.
Qed.

(** A path that is not a directory: [remove], then the record. *)
Lemma rm_leaf_spec (p : string) (w : World) (c : list string) :
  resolve w p = inr c → rm_outside w c = true → is_dir (fs w) c = false →
  changed_only (λ k, c `prefix_of` k) (rm_records w [(c, p)]) w
    (logAction ("Removed: " +:+ p) (remove w p).1) ∧
  (closed_below (fs w) c →
     ∀ k, c `prefix_of` k → fs (logAction ("Removed: " +:+ p) (remove w p).1) !! k = None).
Proof.
  intros Hres Hout Hnd.
  pose proof (remove_changed w p c Hres (rm_outside_cwd w c Hout)) as Hco1.
  pose proof (changed_only_logAction (λ _, False) ("Removed: " +:+ p) (remove w p).1) as Hco2.
  assert (spares_log (λ k, k = c) w) as Hsp.
  { apply (rm_outside_spares w c); [done|]. by intros k ->. }
  pose proof (changed_only_trans _ _ _ _ _ _ _ Hco1 Hsp Hco2) as Hco.
  simpl in Hco. rewrite (record_bytes_ext w) in Hco by apply Hco1.
  rewrite rm_records_one.
  assert (changed_only (λ k, c `prefix_of` k) (record_bytes w ("Removed: " +:+ p)) w
            (logAction ("Removed: " +:+ p) (remove w p).1)) as Hco'.
  { eapply changed_only_weaken; [|exact Hco]. by intros k [->|[]]. }
  split; [done|].
  intros Hcl k Hk.
  destruct (decide (k = c)) as [->|Hne].
  - assert (rm_outside (remove w p).1 c = true) as Hout1.
    { rewrite (rm_outside_ext w); [done|]. apply Hco1. }
    destruct (co_below _ _ _ _ c c Hco2 Hout1) as [Hc'|]; [done| |done].
    rewrite Hc'. by apply remove_nondir.
  - destruct (co_below _ _ _ _ c k Hco' Hout Hk) as [Hk'|]; [|done].
    rewrite Hk'. apply (closed_below_leaf (fs w) c c k); try done.
    intros r Hr. unfold is_dir in Hnd. by rewrite Hr in Hnd.
Qed.

(** The removal of a path: by induction on the depth of recursion. *)
Lemma removeRecursive_rec_spec (fuel : nat) : rm_ok fuel.
Proof.
  induction fuel as [|fuel IH]; intros p w c Hok Hres Hav Hout Hbound Hfuel; [lia|].
  simpl. rewrite (isDirectory_resolved w p c Hres).
  destruct (is_dir (fs w) c) eqn:Hd.
  2: { destruct (rm_leaf_spec p w c Hres Hout Hd) as [Hco Hgone].
       eexists _, [(c, p)]. split_and!; [done|done|apply NoDup_singleton| | |].
       - intros k q. rewrite list_elem_of_singleton. split.
         + intros [= -> ->]. apply removal_here. intros Hf.
           unfold is_dir in Hd. by rewrite Hf in Hd.
         + inversion 1 as [|? ? n ? ? Hc]; subst; [done|].
           unfold is_dir in Hd. by rewrite Hc in Hd.
       - intros _ Hcl _. by apply Hgone.
       - split; [|done]. by intros d ?%elem_of_nil. }
  unfold opendir. rewrite Hres.
  unfold is_dir in Hd. destruct (fs w !! c) as [[|[|]]|] eqn:Ec; try done.
  2: { eexists _, []. split_and!; [done|apply changed_only_errno|constructor| | |done].
       - intros k q. split; [by intros ?%elem_of_nil|].
         inversion 1 as [? ? Hc|? ? n ? ? Hc]; subst; congruence.
       - intros Hr. by specialize (Hr c false (reflexivity _) Ec). }
  destruct (rm_entries_spec fuel p c IH (children (fs w) c) w)
    as (w2 & ds & Hrun & Hco & Hnd & Hds & Hgone & Hord); try done.
  { apply NoDup_children. }
  { intros n Hn. by apply names_ok_child. }
  { eauto. }
  cbn [for_each]. unfold removeEntry at 1 2.
  rewrite !bool_decide_eq_true_2 by naive_solver.
  rewrite Hrun.
  set (P := λ k, ∃ n, n ∈ children (fs w) c ∧ (c ++ [n]) `prefix_of` k) in *.
  assert (HP : ∀ k, P k → strictly_below c k).
  { intros k (n & _ & Hk). by eapply prefix_snoc_strict. }
  assert (Hsp : spares_log P w).
  { apply (rm_outside_spares w c); [done|]. intros k Hk. by apply HP. }
  assert (Hp2 : same_process w w2) by apply Hco.
  assert (Hout2 : rm_outside w2 c = true).
  { rewrite (rm_outside_ext w); [done|]. apply Hp2. }
  destruct (resolve_stable w w2 p c c) as [Hres2 _]; try done.
  { apply Hp2. }
  { intros d Hd'. apply (co_is_dir _ _ _ _ _ Hco). intros HPd. by apply Hd', HP. }
  pose proof (rmdir_changed w2 p c Hres2 (rm_outside_cwd w2 c Hout2)) as Hco3.
  pose proof (changed_only_trans _ _ _ _ _ _ _ Hco Hsp Hco3) as Hco23.
  pose proof (changed_only_logAction (λ _, False) ("Removed: " +:+ p) (rmdir w2 p).1) as Hco4.
  assert (spares_log (λ k, P k ∨ k = c) w) as Hsp3.
  { apply (rm_outside_spares w c); [done|]. intros k [Hk| ->]; [by apply HP|done]. }
  pose proof (changed_only_trans _ _ _ _ _ _ _ Hco23 Hsp3 Hco4) as Hco'.
  rewrite app_nil_r in Hco', Hco23.
  rewrite (record_bytes_ext w) in Hco' by apply Hco23.
  rewrite <- rm_records_one with (c := c), <- rm_records_app in Hco'.
  assert (Hfinal : changed_only (λ k, c `prefix_of` k) (rm_records w (ds ++ [(c, p)])) w
                     (logAction ("Removed: " +:+ p) (rmdir w2 p).1)).
  { eapply changed_only_weaken; [|exact Hco']. intros k [[Hk| ->]|[]]; [by apply HP|done]. }
  exists (logAction ("Removed: " +:+ p) (rmdir w2 p).1), (ds ++ [(c, p)]).
  split_and!; try done.
  - rewrite fmap_app. apply NoDup_app. split_and!; [done| |apply NoDup_singleton].
    intros k Hk1 Hk2. simpl in Hk2. apply list_elem_of_singleton in Hk2 as ->.
    apply list_elem_of_fmap in Hk1 as [[k1 q1] [Heq Hin1]]. simpl in Heq. subst k1.
    apply Hds in Hin1 as (n & _ & Hin1%removal_logged_prefix%prefix_snoc_length).
    lia.
  - intros k q. rewrite elem_of_app, Hds, list_elem_of_singleton. split.
    + intros [(n & Hn & Ht)|[= -> ->]].
      * eapply removal_down; [done| |done]. by apply elem_of_children.
      * apply removal_here. congruence.
    + inversion 1 as [|? ? n ? ? _ Hn Ht]; subst; [by right|].
      left. exists n. split; [|done]. by apply elem_of_children.
  - intros Hr Hcl Hproper k Hk.
    assert (Hkids : ∀ n j, (c ++ [n]) `prefix_of` j → fs w2 !! j = None).
    { intros n j Hj. destruct (decide (n ∈ children (fs w) c)) as [Hn|Hn].
      - by apply (Hgone Hr Hcl n j).
      - assert (c `prefix_of` j) as Hcj by (by apply prefix_snoc_length in Hj as [? _]).
        destruct (co_below _ _ w w2 c j Hco Hout Hcj) as [Hj'|]; [|done].
        rewrite Hj'. rewrite elem_of_children in Hn.
        destruct (decide (j = c ++ [n])) as [->|Hne].
        + by apply eq_None_not_Some.
        + apply (closed_below_leaf (fs w) c (c ++ [n]) j); try done.
          * by apply prefix_app_r.
          * intros r Hcr. apply Hn. eauto. }
    assert (fs (rmdir w2 p).1 !! c = None) as Hc3.
    { apply (rmdir_empty w2 p c true); try done.
      - rewrite <- Ec. apply (co_untouched _ _ w w2 c c Hco Hout); [done|].
        intros [_ Hne]%HP. done.
      - intros n. by apply (Hkids n). }
    assert (rm_outside (rmdir w2 p).1 c = true) as Hout3.
    { rewrite (rm_outside_ext w2); [done|]. apply Hco3. }
    destruct (co_below _ _ _ _ c k Hco4 Hout3 Hk) as [Hk'|]; [|done].
    rewrite Hk'.
    destruct (decide (k = c)) as [->|Hne]; [done|].
    destruct (co_below _ _ _ _ c k Hco3 Hout2 Hk) as [Hk3|]; [|done].
    rewrite Hk3.
    destruct Hk as [rest ->]. destruct rest as [|n rest]; [by rewrite app_nil_r in Hne|].
    apply (Hkids n). exists rest. by rewrite <- (assoc_L (++)).
  - apply children_first_app. split_and!; [done|by split; [intros d ?%elem_of_nil|]|].
    intros [k1 q1] d2 Hin1 ->%list_elem_of_singleton. simpl. intros [Hpre _].
    apply Hds in Hin1 as (n & _ & Hin1%removal_logged_prefix%prefix_snoc_length).
    apply prefix_length in Hpre. lia.
Qed.

(** *** [removeRecursive] *)

Lemma fs_depth_bound (m : gmap (list string) inode) (k : list string) (v : inode) :
  m !! k = Some v → (length k ≤ fs_depth m)%nat.
Proof.
  intros Hk. unfold fs_depth. apply max_list_elem_of_le.
  apply list_elem_of_fmap. exists (k, v). split; [done|].
  by apply elem_of_map_to_list.
Qed.

Lemma wf_closed_below (m : gmap (list string) inode) (c : list string) :
  wf_fs m = true → closed_below m c.
Proof.
  intros Hwf k [Hpre Hne] [v Hv].
  destruct (wf_fs_lookup m k v Hwf Hv) as [_ Hpar]. apply Hpar.
  intros ->. apply prefix_nil_inv in Hpre. done.
Qed.

Lemma readable_below_all (m : gmap (list string) inode) (c : list string) :
  readable_below m c = true → all_readable m c.
Proof.
  unfold readable_below. intros Hr%Is_true_eq_left k r Hk Hkr.
  rewrite forallb_True, Forall_forall in Hr.
  specialize (Hr (k, Dir r)). simpl in Hr.
  destruct r; [done|]. exfalso.
  assert (Is_true (false || negb (bool_decide (c `prefix_of` k)))) as H.
  { apply Hr. by apply elem_of_map_to_list. }
  simpl in H. apply negb_True in H. by rewrite bool_decide_spec in H.
Qed.

Lemma removal_logged_not_locked m c p k q :
  removal_logged m c p k q → m !! k ≠ Some (Dir false).
Proof. by induction 1. Qed.

(** With the depth that [removeRecursive] gives it, the recursion always
    ends. *)
Lemma removeRecursive_spec (path : string) (w : World) (c : list string) :
  names_ok (fs w) → resolve w path = inr c →
  path_avoids w path c = true → rm_outside w c = true →
  ∃ ds,
    removeRecursive_rec (S (fs_depth (fs w))) path w = Some (removeRecursive path w) ∧
    changed_only (λ k, c `prefix_of` k) (rm_records w ds) w (removeRecursive path w) ∧
    NoDup ds.*1 ∧
    (∀ k q, (k, q) ∈ ds ↔ removal_logged (fs w) c path k q) ∧
    (all_readable (fs w) c → closed_below (fs w) c → proper_target path c = true →
       ∀ k, c `prefix_of` k → fs (removeRecursive path w) !! k = None) ∧
    children_first ds.
Proof.
  intros Hok Hres Hav Hout.
  destruct (removeRecursive_rec_spec (S (fs_depth (fs w))) path w c)
    as (w' & ds & Hrun & H); try done; [|lia|].
  { intros k v _ Hk. apply fs_depth_bound in Hk. lia. }
  exists ds. unfold removeRecursive. by rewrite Hrun.
Qed.

(** C3: [removeRecursive] on a path that resolves to [c], when every
    directory in the tree at [c] can be read and the calls are not made to
    fail by the path itself or by the program's own log (the path is not
    resolved through the tree, does not end in a dot, and the working
    directory with its log is outside the tree).  Afterwards nothing of the
    tree exists: not the file or directory [c], not anything that was below
    it.  Everything else is as it was, but for the records written.  The
    records are those of the paths of the tree, each once, and what is in a
    directory has its record before the directory: the children are removed
    first, then the directory, empty by then.  (A file is the tree of itself
    alone: [ds] is then the one path.) *)
Theorem removeRecursive_removes_tree (path : string) (w : World) (c : list string) :
  wf_fs (fs w) = true → resolve w path = inr c →
  path_avoids w path c = true → rm_outside w c = true →
  proper_target path c = true → readable_below (fs w) c = true →
  (∀ k, c `prefix_of` k → fs (removeRecursive path w) !! k = None) ∧
  ∃ ds,
    (∀ k, ¬ c `prefix_of` k →
       fs (removeRecursive path w) !! k = with_log (rm_records w ds) w !! k) ∧
    NoDup ds.*1 ∧
    (∀ k q, (k, q) ∈ ds ↔ removal_logged (fs w) c path k q) ∧
    (∀ k, c `prefix_of` k → is_Some (fs w !! k) → k ∈ ds.*1) ∧
    children_first ds.
Proof.
  intros Hwf Hres Hav Hout Hproper Hread.
  pose proof (wf_names_ok _ Hwf) as Hok.
  pose proof (wf_closed_below _ c Hwf) as Hcl.
  pose proof (readable_below_all _ _ Hread) as Hall.
  destruct (removeRecursive_spec path w c Hok Hres Hav Hout)
    as (ds & _ & Hco & Hnd & Hds & Hgone & Hord).
  split; [by apply Hgone|]. exists ds. split_and!; try done.
  { apply Hco. }
  (* every path of the tree is reached *)
  assert (Hreach : ∀ rest c0 p0,
            (∀ k r, c0 `prefix_of` k → fs w !! k = Some (Dir r) → r = true) →
            is_Some (fs w !! (c0 ++ rest)) → is_Some (fs w !! c0) →
            ∃ q, removal_logged (fs w) c0 p0 (c0 ++ rest) q).
  { induction rest as [|n rest IH]; intros c0 p0 Hr0 Hk Hc0.
    - rewrite app_nil_r. exists p0. apply removal_here.
      intros Hf. by specialize (Hr0 c0 false (reflexivity _) Hf).
    - assert (∃ r, fs w !! c0 = Some (Dir r)) as [r Hdir].
      { destruct (fs w !! c0) as [[|r]|] eqn:E; [|eauto|by destruct Hc0].
        rewrite (closed_below_leaf (fs w) c0 c0 (c0 ++ n :: rest)) in Hk;
          [by destruct Hk|by apply wf_closed_below|done|congruence|].
        split; [by apply prefix_app_r|]. intros Heq.
        apply (f_equal length) in Heq. rewrite length_app in Heq. simpl in Heq. lia. }
      assert (r = true) as -> by (by apply (Hr0 c0)).
      assert (is_Some (fs w !! (c0 ++ [n]))) as Hn.
      { destruct (fs w !! (c0 ++ [n])) eqn:E; [eauto|].
        destruct rest as [|n' rest'] using rev_ind.
        - by rewrite E in Hk.
        - rewrite (closed_below_leaf (fs w) c0 (c0 ++ [n]) (c0 ++ n :: rest' ++ [n'])) in Hk;
            [by destruct Hk|by apply wf_closed_below|by apply prefix_app_r|congruence|].
          split.
          + exists (rest' ++ [n']). by rewrite <- (assoc_L (++)).
          + intros Heq. apply (f_equal length) in Heq.
            rewrite !length_app in Heq. simpl in Heq. rewrite length_app in Heq.
            simpl in Heq. lia. }
      destruct (IH (c0 ++ [n]) (p0 +:+ PATH_SEP +:+ n)) as [q Hq]; try done.
      + intros k r Hk'. apply Hr0. by apply prefix_snoc_length in Hk' as [? _].
      + by rewrite <- (assoc_L (++)).
      + exists q. eapply removal_down; [done|done|].
        by rewrite <- (assoc_L (++)) in Hq. }
  intros k [rest ->] Hk.
  destruct (Hreach rest c path Hall Hk) as [q Hq].
  { destruct rest as [|n rest]; [by rewrite app_nil_r in Hk|].
    destruct (fs w !! c) as [[|r]|] eqn:E; [eauto|eauto|].
    rewrite (closed_below_leaf (fs w) c c (c ++ n :: rest)) in Hk;
      [by destruct Hk|done|done|congruence|].
    split; [by apply prefix_app_r|]. intros Heq.
    apply (f_equal length) in Heq. rewrite length_app in Heq. simpl in Heq. lia. }
  apply list_elem_of_fmap. exists (c ++ rest, q). split; [done|]. by apply Hds.
Qed.

Lemma removeRecursive_removes_tree_witness :
  (∀ k, ["home"; "sub"] `prefix_of` k → fs (removeRecursive "sub" home) !! k = None) ∧
  ∃ ds,
    (∀ k, ¬ ["home"; "sub"] `prefix_of` k →
       fs (removeRecursive "sub" home) !! k = with_log (rm_records home ds) home !! k) ∧
    NoDup ds.*1 ∧
    (∀ k q, (k, q) ∈ ds ↔ removal_logged (fs home) ["home"; "sub"] "sub" k q) ∧
    (∀ k, ["home"; "sub"] `prefix_of` k → is_Some (fs home !! k) → k ∈ ds.*1) ∧
    children_first ds.
Proof.
  apply (removeRecursive_removes_tree "sub" home ["home"; "sub"]); vm_compute; reflexivity.
Defined.

(** The removal of [sub] in the sample state: the two files, then the
    directory. *)
Lemma removeRecursive_sample :
  history (removeRecursive "sub" home) =
    [ "[2026-11-01 10:00:00] Checked current directory.";
      "[2026-11-02 08:30:05] Removed: sub/a.txt";
      "[2026-11-02 08:30:05] Removed: sub/a.txt.bak";
      "[2026-11-02 08:30:05] Removed: sub" ] ∧
  children (fs (removeRecursive "sub" home)) ["home"] =
    ["notes.txt"; "activity_log.txt"; "locked"].
Proof. by vm_compute. Qed.






(** With the working directory at the root, [rm /home] in the sample state
    fails to remove [locked] and with it [/home], and still writes "Removed:
    /home"; it writes nothing for [locked]. *)
Lemma removeRecursive_failing_sample :
  history (removeRecursive "/home" (set_cwd (Some []) home)) =
    [ "[2026-11-02 08:30:05] Removed: /home/notes.txt";
      "[2026-11-02 08:30:05] Removed: /home/activity_log.txt";
      "[2026-11-02 08:30:05] Removed: /home/sub/a.txt";
      "[2026-11-02 08:30:05] Removed: /home/sub/a.txt.bak";
      "[2026-11-02 08:30:05] Removed: /home/sub";
      "[2026-11-02 08:30:05] Removed: /home" ] ∧
  is_Some (fs (removeRecursive "/home" (set_cwd (Some []) home)) !! ["home"; "locked"; "a.txt"]).
Proof. split; [by vm_compute|]. vm_compute. eauto. Qed.

End Removing.

(** ** The history *)

Module History.
Import Text Time Posix Explorer Spec Sample TextFacts PosixFacts LogFacts OpFacts.
Import LineFacts RenameFacts Searching Removing Copying.

(** *** The names that calls create *)






(** *** One command *)






Lemma prints_fs (ls : list string) (w : World) :
  fs (foldl (λ w line, print line w) w ls) = fs w ∧
  same_process w (foldl (λ w line, print line w) w ls).
Proof.
  revert w. induction ls as [|l ls IH]; intros w; simpl; [done|].
  destruct (IH (print l w)) as [H1 (H2 & H3 & H4)].
  unfold same_process. by rewrite H1, H2, H3, H4.
Qed.















Lemma showHistory_fs (w : World) :
  fs (showHistory w) = fs w ∧ same_process w (showHistory w).
Proof.
  unfold showHistory.
  assert (fs (fopen_rb w LOG_FILE).1 = fs w ∧ same_process w (fopen_rb w LOG_FILE).1) as H.
  { unfold fopen_rb. destruct (resolve w LOG_FILE) as [e|c]; [done|].
    by destruct (fs w !! c) as [[|[|]]|]. }
  destruct (fopen_rb w LOG_FILE) as [w1 [h|]]; simpl in *; [|done].
  pose proof (prints_fs (lines (default [] (file_data w1 h)))
                (print "----------- ACTIVITY LOG -----------" w1)) as [H1 (H2 & H3 & H4)].
  destruct H as [G1 (G2 & G3 & G4)].
  unfold same_process. simpl in *. by rewrite H1, H2, H3, H4.
Qed.

Lemma dispatch_unknown (cmd : string) (rest : list string) (w : World) :
  cmd ∉ commands →
  dispatch (cmd :: rest) w = Some (print "Unknown command. Type 'help' for list." w) ∧
  succeeded (cmd :: rest) w = false.
Proof.
  intros Hcmd. unfold dispatch, succeeded.
  assert (∀ c, c ∈ commands → cmd ≠ c) as Hne by (intros c Hc ->; done).
  rewrite !bool_decide_eq_false_2; [done|..];
    try (apply Hne; unfold commands; set_solver).
  intros [?|?]; eapply Hne; [| done | | done]; unfold commands; set_solver.
Qed.


(** *** A session *)

Lemma prompt_fs (w : World) : fs (prompt w) = fs w ∧ same_process w (prompt w).
Proof. unfold prompt, getcwd. destruct (cwd w); [case_bool_decide|]; done. Qed.




(** The same by [cd]: the log is a file of the working directory, and the
    history after a change of directory is that of another file. *)
Lemma cd_changes_the_log :
  successes ["touch f"; "mkdir d"; "cd d"] fresh = 3%nat ∧
  history (repl ["touch f"; "mkdir d"] fresh) =
    [ "[2026-11-02 08:30:05] Created or updated file: f";
      "[2026-11-02 08:30:05] Created directory: d" ] ∧
  history (repl ["touch f"; "mkdir d"; "cd d"] fresh) =
    [ "[2026-11-02 08:30:05] Changed directory to: d" ].
Proof. by vm_compute. Qed.



(** That session in the sample state: six commands succeed and the
    history has eight lines more, in the order of the commands. *)
Lemma session_sample :
  successes ["touch f"; "mv f g"; "cd ."; "search a.txt"; "rm sub"; "cp g h"; "history"]
    home = 6%nat ∧
  history (repl ["touch f"; "mv f g"; "cd ."; "search a.txt"; "rm sub"; "cp g h";
                 "history"] home) =
    [ "[2026-11-01 10:00:00] Checked current directory.";
      "[2026-11-02 08:30:05] Created or updated file: f";
      "[2026-11-02 08:30:05] Moved/Renamed: f -> g";
      "[2026-11-02 08:30:05] Changed directory to: .";
      "[2026-11-02 08:30:05] Searched for: a.txt in ./sub";
      "[2026-11-02 08:30:05] Searched for: a.txt in .";
      "[2026-11-02 08:30:05] Removed: sub/a.txt";
      "[2026-11-02 08:30:05] Removed: sub/a.txt.bak";
      "[2026-11-02 08:30:05] Removed: sub";
      "[2026-11-02 08:30:05] Copied file: g -> h" ].
Proof. by vm_compute. Qed.

End History.
(** ** The words of a command line *)

Module Words.
Import Text Time Posix Explorer Spec Sample Props TextFacts.

Lemma list_ascii_app (a b : string) :
  list_ascii_of_string (a +:+ b) = list_ascii_of_string a ++ list_ascii_of_string b.
Proof. induction a as [|c a IH]; [done|]. rewrite app_cons. simpl. by rewrite IH. Qed.

Lemma split_aux_blank (gap rest : string) :
  blank gap = true → split_aux [] (gap +:+ rest) = split_aux [] rest.
Proof.
  unfold blank. induction gap as [|c gap IH]; [done|]. simpl.
  intros [Hc Hgap]%andb_true_iff. rewrite Hc. by apply IH.
Qed.

Lemma split_aux_chars (word rest : string) (cur : list ascii) :
  forallb (λ c, negb (isspace c)) (list_ascii_of_string word) = true →
  split_aux cur (word +:+ rest) =
  split_aux (rev (list_ascii_of_string word) ++ cur) rest.
Proof.
  revert cur. induction word as [|c word IH]; intros cur; [done|]. simpl.
  intros [Hc%negb_true_iff Hword]%andb_true_iff.
  rewrite Hc, IH by done. by rewrite <- (assoc_L (++)).
Qed.

Lemma split_aux_end (cur : list ascii) (rest : string) :
  cur ≠ [] → word_end rest →
  split_aux cur rest = string_of_list_ascii (rev cur) :: split_aux [] rest.
Proof.
  intros Hcur Hrest. destruct rest as [|c rest]; simpl in *.
  - by destruct cur.
  - rewrite Hrest. by destruct cur.
Qed.

Lemma split_word (word rest : string) :
  is_word word = true → word_end rest →
  split (word +:+ rest) = word :: split rest.
Proof.
  unfold is_word, split. intros [Hne%negb_true_iff Hword]%andb_true_iff Hrest.
  apply bool_decide_eq_false in Hne.
  rewrite split_aux_chars by done. rewrite app_nil_r.
  rewrite split_aux_end; [|intros H%(f_equal (@rev ascii))|done].
  2: { rewrite rev_involutive in H. by destruct word. }
  by rewrite rev_involutive, string_of_list_ascii_of_string.
Qed.

Lemma split_blank (gap rest : string) :
  blank gap = true → split (gap +:+ rest) = split rest.
Proof. apply split_aux_blank. Qed.

Lemma word_end_blank (gap rest : string) :
  blank gap = true → gap ≠ "" → word_end (gap +:+ rest).
Proof.
  destruct gap as [|c gap]; [done|]. unfold blank. simpl.
  by intros [Hc _]%andb_true_iff _.
Qed.

Lemma split_aux_words (cur : list ascii) (line : string) :
  forallb (λ c, negb (isspace c)) cur = true →
  Forall (λ word, is_word word = true) (split_aux cur line).
Proof.
  assert (∀ cur, cur ≠ [] → forallb (λ c, negb (isspace c)) cur = true →
                 is_word (string_of_list_ascii (rev cur)) = true) as Hword.
  { intros l Hl Hall. unfold is_word. apply andb_true_iff. split.
    - apply negb_true_iff, bool_decide_eq_false. intros H.
      apply (f_equal list_ascii_of_string) in H.
      rewrite list_ascii_of_string_of_list_ascii in H.
      apply (f_equal (@rev ascii)) in H. rewrite rev_involutive in H. done.
    - rewrite list_ascii_of_string_of_list_ascii.
      apply forallb_forall. intros c Hc%in_rev.
      by eapply forallb_forall in Hall. }
  revert cur. induction line as [|c line IH]; intros cur Hcur; simpl.
  - destruct cur as [|x cur]; [done|]. apply Forall_singleton. by apply Hword.
  - destruct (isspace c) eqn:Hc.
    + destruct cur as [|x cur]; [by apply IH|].
      apply Forall_cons. split; [by apply Hword|by apply IH].
    + apply IH. simpl. by rewrite Hc.
Qed.

Lemma split_aux_nil (cur : list ascii) (line : string) :
  split_aux cur line = [] ↔ cur = [] ∧ blank line = true.
Proof.
  revert cur. induction line as [|c line IH]; intros cur; simpl.
  - destruct cur; naive_solver.
  - unfold blank. simpl. destruct (isspace c) eqn:Hc; simpl.
    + destruct cur as [|x cur]; [|naive_solver].
      rewrite IH. naive_solver.
    + rewrite IH. naive_solver.
Qed.

(** X1: the words that [split] reads from a line are not empty and hold no
    white space, and there is none exactly when the line is nothing but
    white space; the loop of [main] then goes on to the next line with
    nothing done but the prompt. *)
Theorem split_gives_words (line : string) (rest : list string) (w : World) :
  Forall (λ word, is_word word = true) (split line) ∧
  (split line = [] ↔ blank line = true) ∧
  (blank line = true → repl (line :: rest) w = repl rest (prompt w)).
Proof.
  split_and!.
  - by apply split_aux_words.
  - unfold split. rewrite split_aux_nil. naive_solver.
  - intros Hb. assert (split line = []) as Hs.
    { unfold split. apply split_aux_nil. done. }
    simpl. by rewrite Hs.
Qed.

(** X2: [split] gives back the words that a line was made of: words set one
    after the other with white space between them, white space before the
    first and after the last or not, are the words of the line, in that
    order. *)
Theorem split_of_joined_words (words : list string) (sep before after : string) :
  Forall (λ word, is_word word = true) words →
  blank sep = true → sep ≠ "" → blank before = true → blank after = true →
  split (before +:+ String.concat sep words +:+ after) = words.
Proof.
  intros Hwords Hsep Hne Hbefore Hafter. rewrite split_blank by done.
  assert (split after = []) as Hend.
  { unfold split. by apply split_aux_nil. }
  induction Hwords as [|word words Hword _ IH].
  - simpl. done.
  - destruct words as [|word' words].
    + simpl. rewrite split_word; [by rewrite Hend|done|].
      destruct after as [|c after]; [done|]. unfold blank in Hafter. simpl in *.
      by apply andb_true_iff in Hafter as [? _].
    + change (String.concat sep (word :: word' :: words))
        with (word +:+ sep +:+ String.concat sep (word' :: words)).
      rewrite !app_assoc.
      rewrite split_word; [|done|by apply word_end_blank].
      rewrite split_blank by done. by rewrite IH.
Qed.

Lemma split_of_joined_words_witness :
  split ("  " +:+ String.concat tab ["cp"; "a.txt"; "b.txt"] +:+ " ") =
  ["cp"; "a.txt"; "b.txt"].
Proof.
  apply (split_of_joined_words ["cp"; "a.txt"; "b.txt"] tab "  " " ").
  - repeat constructor.
  - reflexivity.
  - discriminate.
  - reflexivity.
  - reflexivity.
Defined.

End Words.
(** ** The loop of commands *)

Module Shell.
Import Text Time Posix Explorer Spec Sample Props TextFacts History.

Lemma leaves_dispatch (line : string) (w : World) :
  leaves line = true → dispatch (split line) w = None.
Proof.
  unfold leaves, dispatch. destruct (split line) as [|cmd rest]; [done|].
  by intros ->.
Qed.

(** X3: [exit] and [quit], as the first word of a line, end the loop like
    the end of the input: the lines after it are not read, and the session
    is the one of the lines before it. *)
Theorem exit_ends_the_session (before after : list string) (line : string) (w : World) :
  leaves line = true →
  repl (before ++ line :: after) w = repl before w ∧
  main (before ++ line :: after) w = main before w.
Proof.
  intros Hl.
  assert (∀ w, repl (before ++ line :: after) w = repl before w) as Hrepl.
  { clear w. induction before as [|l before IH]; intros w; simpl.
    - by rewrite leaves_dispatch.
    - destruct (dispatch (split l) (prompt w)); [apply IH|done]. }
  split; [apply Hrepl|]. unfold main. by rewrite Hrepl.
Qed.

Lemma exit_ends_the_session_witness :
  repl (["mkdir d"] ++ " quit now" :: ["rm d"]) home = repl ["mkdir d"] home ∧
  main (["mkdir d"] ++ " quit now" :: ["rm d"]) home = main ["mkdir d"] home.
Proof. apply (exit_ends_the_session ["mkdir d"] ["rm d"] " quit now" home). reflexivity. Defined.

(** X4: a command with fewer arguments than it needs is not run: its usage
    line is printed and nothing else happens; no record is written.  A
    first word that is not a command gives the line "Unknown command" in
    the same way. *)
Theorem short_command_prints_usage (cmd text : string) (n : nat) (rest : list string)
    (w : World) :
  ((cmd, (n, text)) ∈ usage → (length rest < n)%nat →
     dispatch (cmd :: rest) w = Some (print text w)) ∧
  (cmd ∉ commands →
     dispatch (cmd :: rest) w = Some (print "Unknown command. Type 'help' for list." w)) ∧
  fs (print text w) = fs w ∧ cwd (print text w) = cwd w ∧
  stderr (print text w) = stderr w ∧ history (print text w) = history w.
Proof.
  split_and!; try done.
  - unfold usage. intros Hin Hlen.
    repeat (apply elem_of_cons in Hin as [[= -> -> ->]|Hin]);
      [..|by apply elem_of_nil in Hin];
      destruct rest as [|a1 [|a2 rest]]; simpl in *; try done; lia.
  - intros Hcmd. by apply dispatch_unknown.
Qed.

(** X5: a command reads as many words after its name as it has operands
    (two for [cp] and [mv]; one for [ls], [cd], [rm], [touch], [mkdir] and
    [search], whose second word, a root, is not read; none for the
    others): the words after these change nothing. *)
Theorem more_words_are_ignored (cmd : string) (rest : list string) (w : World) :
  dispatch (cmd :: take (arity cmd) rest) w = dispatch (cmd :: rest) w.
Proof.
  destruct (decide (cmd ∈ commands)) as [Hcmd|Hcmd].
  - unfold commands in Hcmd.
    repeat (apply elem_of_cons in Hcmd as [->|Hcmd]); [..|by apply elem_of_nil in Hcmd];
      by destruct rest as [|a1 [|a2 rest]].
  - destruct (dispatch_unknown cmd rest w Hcmd) as [-> _].
    by destruct (dispatch_unknown cmd (take (arity cmd) rest) w Hcmd) as [-> _].
Qed.

End Shell.
(** ** Writing and showing the log *)

Module Logging.
Import Text Time Posix Explorer Spec Sample Props TextFacts PosixFacts LogFacts.
Import LineFacts OpFacts.

Lemma prints_out (ls : list string) (w : World) :
  stdout (foldl (λ w line, print line w) w ls) = stdout w ++ ls ∧
  stderr (foldl (λ w line, print line w) w ls) = stderr w ∧
  fs (foldl (λ w line, print line w) w ls) = fs w ∧
  cwd (foldl (λ w line, print line w) w ls) = cwd w.
Proof.
  revert w. induction ls as [|l ls IH]; intros w; simpl.
  - by rewrite app_nil_r.
  - destruct (IH (print l w)) as (-> & -> & -> & ->). simpl.
    by rewrite <- (assoc_L (++)).
Qed.

(** The output of [showHistory] when the log is a file. *)
Lemma showHistory_file (w : World) (c : list string) (r : bool) (data : list byte) (t : Z) :
  cwd w = Some c → fs w !! c = Some (Dir r) →
  fs w !! (c ++ [LOG_FILE]) = Some (File data t) →
  stdout (showHistory w) =
  stdout w ++ "----------- ACTIVITY LOG -----------" :: lines data ++
              ["------------------------------------"].
Proof.
  intros Hcwd Hc HL. unfold showHistory, fopen_rb.
  rewrite resolve_log, Hcwd, Hc, HL. simpl.
  destruct (prints_out (lines (default [] (file_data w (c ++ [LOG_FILE]))))
              (print "----------- ACTIVITY LOG -----------" w)) as (-> & _).
  unfold file_data. rewrite HL. simpl. by rewrite <- !(assoc_L (++)).
Qed.

(** X6: [history] only reads.  [showHistory] changes no file (it does not
    create the log, and writes no record of itself), keeps the working
    directory and reports no error.  Without a log file in the working
    directory it prints the line "No activity history found yet."; with one,
    its lines between the two banner lines. *)
Theorem showHistory_only_reads (w : World) (c : list string) (r : bool) :
  fs (showHistory w) = fs w ∧ cwd (showHistory w) = cwd w ∧
  stderr (showHistory w) = stderr w ∧
  (cwd w = Some c → fs w !! c = Some (Dir r) →
   (fs w !! (c ++ [LOG_FILE]) = None →
      stdout (showHistory w) = stdout w ++ ["No activity history found yet."]) ∧
   (∀ data t, fs w !! (c ++ [LOG_FILE]) = Some (File data t) →
      stdout (showHistory w) =
      stdout w ++ "----------- ACTIVITY LOG -----------" :: lines data ++
                  ["------------------------------------"])).
Proof.
  assert (fs (showHistory w) = fs w ∧ cwd (showHistory w) = cwd w ∧
          stderr (showHistory w) = stderr w) as (H1 & H2 & H3).
  { unfold showHistory, fopen_rb. destruct (resolve w LOG_FILE) as [e|k]; [done|].
    destruct (fs w !! k) as [[data t|[|]]|]; try done;
      match goal with
      | |- context [foldl _ ?w0 ?ls] =>
          destruct (prints_out ls w0) as (_ & G1 & G2 & G3)
      end; simpl; by rewrite G1, G2, G3. }
  split_and!; try done. intros Hcwd Hc. split.
  - intros HL. unfold showHistory, fopen_rb. by rewrite resolve_log, Hcwd, Hc, HL.
  - intros data t HL. by eapply showHistory_file.
Qed.

(** X7: what [logAction] writes is what [showHistory] shows.  When the log
    can be opened and holds whole lines, the history shown after an action
    has been logged is the lines that were there, then the line of the
    action with its time stamp, as one line and the last, between the two
    banner lines. *)
Theorem logged_action_is_shown (action : string) (w : World) :
  is_Some (log_key w) → terminated (log_bytes w) = true →
  tm_ok (localtime w (clock w)) → plain action = true →
  stdout (showHistory (logAction action w)) =
  stdout w ++ "----------- ACTIVITY LOG -----------" ::
              (history w ++ [record_line w action]) ++
              ["------------------------------------"].
Proof.
  intros [L HL] Hterm Htm Hplain.
  destruct (logAction_process action w) as ((Hcwd & Hclock & Hlt) & Hout & _).
  pose proof (fs_logAction action w) as Hfs.
  pose proof HL as Hkey. apply log_key_spec in Hkey as (c & r & Hc & Hdir & -> & Hnd).
  assert (fs (logAction action w) !! (c ++ [LOG_FILE]) =
          Some (File (log_bytes w ++ record_bytes w action) (clock w))) as Hlog.
  { rewrite Hfs. unfold with_log. rewrite HL.
    rewrite bool_decide_eq_false_2 by apply record_bytes_nonempty.
    by rewrite lookup_insert_eq. }
  assert (fs (logAction action w) !! c = Some (Dir r)) as Hdir'.
  { rewrite Hfs, with_log_lookup_ne; [done|]. rewrite HL. intros [= Heq].
    apply (f_equal length) in Heq. rewrite length_app in Heq. simpl in Heq. lia. }
  rewrite (showHistory_file _ c r _ _ ltac:(by rewrite Hcwd) Hdir' Hlog).
  rewrite Hout. unfold history. rewrite lines_app by done.
  rewrite lines_record; [done|]. by apply plain_record_line.
Qed.

Lemma logged_action_is_shown_witness :
  stdout (showHistory (logAction "Checked current directory." home)) =
  stdout home ++ "----------- ACTIVITY LOG -----------" ::
     (history home ++ [record_line home "Checked current directory."]) ++
     ["------------------------------------"].
Proof.
  apply (logged_action_is_shown "Checked current directory." home).
  - by eexists.
  - reflexivity.
  - vm_compute. repeat split; discriminate.
  - reflexivity.
Defined.

(** X8: a log that cannot be opened is passed over in silence.  When the
    working directory is gone, or [activity_log.txt] in it is a directory,
    [logAction] changes no file, prints nothing and reports nothing, and the
    history stays what it was. *)
Theorem logAction_fails_in_silence (action : string) (w : World) :
  (∀ c, cwd w = Some c →
        (∀ r, fs w !! c ≠ Some (Dir r)) ∨
        (∃ r, fs w !! (c ++ [LOG_FILE]) = Some (Dir r))) →
  fs (logAction action w) = fs w ∧ cwd (logAction action w) = cwd w ∧
  stdout (logAction action w) = stdout w ∧ stderr (logAction action w) = stderr w ∧
  history (logAction action w) = history w.
Proof.
  intros Hno.
  assert (log_key w = None) as HL.
  { destruct (log_key w) as [L|] eqn:E; [|done].
    apply log_key_spec in E as (c & r & Hc & Hdir & -> & Hnd).
    destruct (Hno c Hc) as [Hmiss|[r' Hr']]; [by destruct (Hmiss r)|by destruct (Hnd r')]. }
  destruct (logAction_process action w) as ((Hcwd & _) & Hout & Herr).
  assert (fs (logAction action w) = fs w) as Hfs
    by (by rewrite fs_logAction, with_log_no_key).
  split_and!; try done. unfold history. by rewrite (log_bytes_ext w).
Qed.

Lemma logAction_fails_in_silence_witness :
  fs (logAction "Checked current directory." blocked) = fs blocked ∧
  cwd (logAction "Checked current directory." blocked) = cwd blocked ∧
  stdout (logAction "Checked current directory." blocked) = stdout blocked ∧
  stderr (logAction "Checked current directory." blocked) = stderr blocked ∧
  history (logAction "Checked current directory." blocked) = history blocked.
Proof.
  apply (logAction_fails_in_silence "Checked current directory." blocked).
  intros c [= <-]. right. exists true. reflexivity.
Defined.

Lemma length_append (a b : string) :
  String.length (a +:+ b) = (String.length a + String.length b)%nat.
Proof. induction a as [|c a IH]; [done|]. simpl. by rewrite IH. Qed.

(** X9: the time stamp of a record has 19 characters, for every time that
    [localtime] can give in a year of four digits, so that the buffer of 64
    bytes that [strftime] is given holds it; the record of an action is 23
    bytes longer than the action. *)
Theorem time_stamp_fits_the_buffer (action : string) (w : World) :
  tm_ok (localtime w (clock w)) →
  String.length (strftime (localtime w (clock w))) = 19%nat ∧
  (String.length (strftime (localtime w (clock w))) < 64)%nat ∧
  length (record_bytes w action) = (23 + String.length action)%nat.
Proof.
  intros (Hy & Hm & Hd & Hh & Hi & Hs).
  assert (String.length (strftime (localtime w (clock w))) = 19%nat) as Hlen.
  { unfold strftime.
    destruct (digits_4_inv _ (digits_4_years _ Hy)) as (y1 & y2 & y3 & y4 & -> & _).
    destruct (digits_2_inv (pad2 (tm_mon (localtime w (clock w)) + 1)))
      as (m1 & m2 & -> & _); [apply digits_2_pad2; lia|].
    destruct (digits_2_inv (pad2 (tm_mday (localtime w (clock w)))))
      as (d1 & d2 & -> & _); [apply digits_2_pad2; lia|].
    destruct (digits_2_inv (pad2 (tm_hour (localtime w (clock w)))))
      as (h1 & h2 & -> & _); [apply digits_2_pad2; lia|].
    destruct (digits_2_inv (pad2 (tm_min (localtime w (clock w)))))
      as (i1 & i2 & -> & _); [apply digits_2_pad2; lia|].
    destruct (digits_2_inv (pad2 (tm_sec (localtime w (clock w)))))
      as (s1 & s2 & -> & _); [apply digits_2_pad2; lia|].
    reflexivity. }
  split_and!; [done|lia|].
  unfold record_bytes, log_record.
  assert (∀ s, length (list_byte_of_string s) = String.length s) as Hb.
  { intros s. unfold list_byte_of_string. rewrite length_map.
    induction s as [|c s IH]; [done|]. simpl. by rewrite IH. }
  rewrite Hb, !length_append, Hlen. simpl. lia.
Qed.

Lemma time_stamp_fits_the_buffer_witness :
  String.length (strftime (localtime home (clock home))) = 19%nat ∧
  (String.length (strftime (localtime home (clock home))) < 64)%nat ∧
  length (record_bytes home "Removed: sub") = (23 + String.length "Removed: sub")%nat.
Proof.
  apply (time_stamp_fits_the_buffer "Removed: sub" home).
  vm_compute. repeat split; discriminate.
Defined.

End Logging.
(** ** Listing a directory *)

Module Listing.
Import Text Time Posix Explorer Spec Sample Props TextFacts PosixFacts LogFacts.
Import OpFacts Searching.

Lemma listEntry_out (path name : string) (w : World) (c : list string) (r : bool) :
  resolve w path = inr c → fs w !! c = Some (Dir r) → valid_name name = true →
  listEntry path name w =
  match fs w !! (c ++ [name]) with
  | Some i => print (entry_line name i) w
  | None => w
  end.
Proof.
  intros Hres Hc Hname. unfold listEntry.
  pose proof Hname as (Hn0 & Hn1 & Hn2 & _)%valid_name_spec.
  rewrite bool_decide_eq_false_2 by (by intros [?|?]).
  rewrite (isDirectory_resolved w _ (c ++ [name])) by (by eapply resolve_sub).
  unfold stat. rewrite (resolve_sub w path name c r) by done.
  unfold is_dir, entry_line. by destruct (fs w !! (c ++ [name])) as [[|]|].
Qed.

Lemma listEntries_out (path : string) (c : list string) (r : bool)
    (names : list string) (w : World) :
  resolve w path = inr c → fs w !! c = Some (Dir r) →
  Forall (λ n, valid_name n = true) names →
  stdout (foldl (λ w name, listEntry path name w) w names) =
    stdout w ++ (listing (fs w) c names).*2 ∧
  stderr (foldl (λ w name, listEntry path name w) w names) = stderr w.
Proof.
  intros Hres Hc Hnames. revert w Hres Hc.
  induction Hnames as [|n names Hn _ IH]; intros w Hres Hc; simpl.
  - by rewrite app_nil_r.
  - rewrite (listEntry_out path n w c r) by done.
    destruct (fs w !! (c ++ [n])) as [i|] eqn:E; simpl.
    + destruct (IH (print (entry_line n i) w)) as [-> ->]; [done..|].
      simpl. by rewrite <- (assoc_L (++)).
    + by apply IH.
Qed.

(** What [listFiles] prints for a directory that can be read. *)
Lemma listFiles_out (path : string) (w : World) (c : list string) :
  resolve w path = inr c → fs w !! c = Some (Dir true) →
  Forall (λ n, valid_name n = true) (children (fs w) c) →
  stdout (listFiles path w) =
    stdout w ++ ("Contents of " +:+ path +:+ ":") ::
                (listing (fs w) c (children (fs w) c)).*2 ∧
  stderr (listFiles path w) = stderr w.
Proof.
  intros Hres Hc Hnames. unfold listFiles, opendir. rewrite Hres, Hc.
  destruct (logAction_process ("Listed contents of: " +:+ path)
    (foldl (λ w name, listEntry path name w)
           (print ("Contents of " +:+ path +:+ ":") w)
           ("." :: ".." :: children (fs w) c))) as (_ & -> & ->).
  assert (∀ w0, listEntry path "." w0 = w0) as Hdot by done.
  assert (∀ w0, listEntry path ".." w0 = w0) as Hdots by done.
  cbn [foldl]. rewrite Hdot, Hdots.
  destruct (listEntries_out path c true (children (fs w) c)
              (print ("Contents of " +:+ path +:+ ":") w)) as [-> ->]; try done.
  simpl. by rewrite <- (assoc_L (++)).
Qed.

Lemma listing_names (m : gmap (list string) inode) (c : list string) (names : list string) :
  Forall (λ n, is_Some (m !! (c ++ [n]))) names → (listing m c names).*1 = names.
Proof.
  induction 1 as [|n names [i Hi] _ IH]; [done|].
  unfold listing. simpl. rewrite Hi. simpl. f_equal. apply IH.
Qed.

Lemma elem_of_listing (m : gmap (list string) inode) (c : list string)
    (names : list string) (n line : string) :
  (n, line) ∈ listing m c names → ∃ i, m !! (c ++ [n]) = Some i ∧ line = entry_line n i.
Proof.
  unfold listing. rewrite list_elem_of_omap. intros (n' & _ & Hn).
  destruct (m !! (c ++ [n'])) as [i|] eqn:E; [|done].
  injection Hn as <- <-. eauto.
Qed.

Lemma shown_entry_line (n : string) (i : inode) : shown n i (entry_line n i).
Proof. destruct i as [data t|r]; [done|]. by exists 4096. Qed.

(** X10: [ls] of a directory that can be read prints the line "Contents of",
    then one line for each entry of the directory, each entry once, in
    whatever order the directory gives them, and no other line: the name,
    after the mark [DIR] for a directory and after seven spaces for a file,
    with the size in bytes, which for a file is the number of its bytes.
    Nothing is reported as an error. *)
Theorem ls_prints_the_entries (path : string) (w : World) (c : list string) :
  wf_fs (fs w) = true → resolve w path = inr c → fs w !! c = Some (Dir true) →
  ∃ entries : list (string * string),
    stdout (listFiles path w) =
      stdout w ++ ("Contents of " +:+ path +:+ ":") :: entries.*2 ∧
    stderr (listFiles path w) = stderr w ∧
    NoDup entries.*1 ∧
    (∀ n, n ∈ entries.*1 ↔ is_Some (fs w !! (c ++ [n]))) ∧
    (∀ n line, (n, line) ∈ entries → ∃ i, fs w !! (c ++ [n]) = Some i ∧ shown n i line).
Proof.
  intros Hwf Hres Hc.
  destruct (listFiles_out path w c Hres Hc) as [Hout Herr].
  { apply Forall_forall. intros n Hn. by eapply wf_fs_child. }
  assert ((listing (fs w) c (children (fs w) c)).*1 = children (fs w) c) as Hnames.
  { apply listing_names, Forall_forall. intros n. by rewrite elem_of_children. }
  exists (listing (fs w) c (children (fs w) c)). split_and!; try done.
  - rewrite Hnames. apply NoDup_children.
  - intros n. rewrite Hnames. apply elem_of_children.
  - intros n line (i & Hi & ->)%elem_of_listing. exists i. split; [done|].
    apply shown_entry_line.
Qed.

Lemma ls_prints_the_entries_witness :
  ∃ entries : list (string * string),
    stdout (listFiles "sub" home) = stdout home ++ "Contents of sub:" :: entries.*2 ∧
    stderr (listFiles "sub" home) = stderr home ∧
    NoDup entries.*1 ∧
    (∀ n, n ∈ entries.*1 ↔ is_Some (fs home !! (["home"; "sub"] ++ [n]))) ∧
    (∀ n line, (n, line) ∈ entries →
       ∃ i, fs home !! (["home"; "sub"] ++ [n]) = Some i ∧ shown n i line).
Proof.
  apply (ls_prints_the_entries "sub" home ["home"; "sub"]); by vm_compute.
Defined.

End Listing.
(** ** A new directory, a new file in it, and its listing *)

Module Scenario.
Import Text Time Posix Explorer Spec Sample Props TextFacts PosixFacts LogFacts.
Import OpFacts Searching Listing.

(** A name is resolved in the working directory. *)
Lemma resolve_name (w : World) (c : list string) (r : bool) (n : string) :
  cwd w = Some c → fs w !! c = Some (Dir r) → valid_name n = true →
  resolve w n = inr (c ++ [n]).
Proof.
  intros Hcwd Hc Hn. pose proof Hn as (Hn0 & _ & _ & Hs)%valid_name_spec.
  unfold resolve. rewrite bool_decide_eq_false_2 by done.
  assert (is_absolute n = false) as ->.
  { destruct n as [|x n]; [done|]. simpl in *. by apply orb_false_iff in Hs as [-> _]. }
  rewrite Hcwd, components_name by done. simpl. rewrite Hc. by rewrite step_name.
Qed.

(** In a well-formed file system nothing lies below a path that is
    missing. *)
Lemma wf_fs_below_missing (m : gmap (list string) inode) (k rest : list string) :
  wf_fs m = true → m !! k = None → m !! (k ++ rest) = None.
Proof.
  intros Hwf Hk. induction rest as [|x rest IH] using rev_ind.
  - by rewrite app_nil_r.
  - destruct (m !! (k ++ rest ++ [x])) as [v|] eqn:E; [|done].
    destruct (wf_fs_lookup m _ v Hwf E) as [_ Hparent].
    destruct Hparent as [r Hr]; [by destruct k, rest|].
    rewrite (assoc_L (++)), removelast_last in Hr. congruence.
Qed.

Lemma log_key_length (w : World) (c L : list string) :
  cwd w = Some c → log_key w = Some L → length L = S (length c).
Proof.
  intros Hcwd (c' & r & Hc & _ & -> & _)%log_key_spec.
  rewrite Hcwd in Hc. injection Hc as <-. rewrite length_app. simpl. lia.
Qed.

(** A record in the log changes nothing two levels below the working
    directory, nor the working directory. *)
Lemma with_log_deep (recs : list byte) (w : World) (c k : list string) :
  cwd w = Some c → length k ≠ S (length c) → with_log recs w !! k = fs w !! k.
Proof.
  intros Hcwd Hlen. apply with_log_lookup_ne. intros HL.
  by apply (log_key_length w c k Hcwd) in HL.
Qed.

Lemma singleton_list {A} (l : list A) (a : A) :
  NoDup l → (∀ x, x ∈ l ↔ x = a) → l = [a].
Proof.
  intros Hnd Hl. destruct l as [|x l].
  - assert (a ∈ @nil A) as H by (by apply Hl). by apply elem_of_nil in H.
  - assert (x = a) as -> by (apply Hl; left).
    destruct l as [|y l]; [done|].
    assert (y = a) as -> by (apply Hl; right; left).
    apply NoDup_cons in Hnd as [Hnd _]. destruct Hnd. left.
Qed.

(** X11: after [mkdir d] and [touch d/n], [ls d] lists exactly one entry,
    [n], as a file of 0 bytes without the mark [DIR]; the three commands
    print their three lines of success before it and report no error.  [d]
    and [n] are any names, [d] not yet in the working directory. *)
Theorem new_file_is_listed (d n : string) (w : World) (c : list string) (r : bool) :
  wf_fs (fs w) = true → cwd w = Some c → fs w !! c = Some (Dir r) →
  valid_name d = true → valid_name n = true → fs w !! (c ++ [d]) = None →
  stdout (listFiles d (touchFile (d +:+ PATH_SEP +:+ n) (makeDir d w))) =
    stdout w ++ [ "Directory created: " +:+ d;
                  "File created/updated: " +:+ d +:+ PATH_SEP +:+ n;
                  "Contents of " +:+ d +:+ ":";
                  "       " +:+ n +:+ tab +:+ "(0 bytes)" ] ∧
  stderr (listFiles d (touchFile (d +:+ PATH_SEP +:+ n) (makeDir d w))) = stderr w.
Proof.
  intros Hwf Hcwd Hc Hd Hn Hmiss.
  assert (∀ x, length (c ++ [d; x]) ≠ S (length c)) as Hlen2
    by (intros x; rewrite length_app; simpl; lia).
  assert (length c ≠ S (length c)) as Hlen0 by lia.
  (* mkdir d *)
  set (wa := set_fs (<[c ++ [d] := Dir true]> (fs w)) w).
  set (w1 := makeDir d w).
  assert (w1 = logAction ("Created directory: " +:+ d)
                 (print ("Directory created: " +:+ d) wa)) as Hw1.
  { unfold w1, makeDir, mkdir. by rewrite (resolve_name w c r d), Hmiss. }
  assert (cwd w1 = Some c ∧ stdout w1 = stdout w ++ ["Directory created: " +:+ d] ∧
          stderr w1 = stderr w) as (Hcwd1 & Hout1 & Herr1).
  { rewrite Hw1.
    destruct (logAction_process ("Created directory: " +:+ d)
                (print ("Directory created: " +:+ d) wa)) as ((-> & _) & -> & ->).
    done. }
  assert (fs w1 !! c = Some (Dir r)) as Hc1.
  { rewrite Hw1, fs_logAction, (with_log_deep _ _ c) by done. simpl.
    rewrite lookup_insert_ne; [done|].
    intros Heq. apply (f_equal length) in Heq. rewrite length_app in Heq. simpl in Heq. lia. }
  assert (fs w1 !! (c ++ [d]) = Some (Dir true)) as Hd1.
  { rewrite Hw1, fs_logAction. apply with_log_dir. simpl. by rewrite lookup_insert_eq. }
  assert (∀ x, fs w1 !! (c ++ [d; x]) = None) as Hx1.
  { intros x. rewrite Hw1, fs_logAction, (with_log_deep _ _ c) by done. simpl.
    rewrite lookup_insert_ne.
    - change (c ++ [d; x]) with (c ++ ([d] ++ [x])). rewrite (assoc_L (++)).
      by apply wf_fs_below_missing.
    - intros Heq. apply (f_equal length) in Heq. rewrite !length_app in Heq. simpl in Heq. lia. }
  clearbody w1. clear Hw1.
  (* touch d/n *)
  assert (resolve w1 d = inr (c ++ [d])) as Hrd1 by (by eapply resolve_name).
  assert (resolve w1 (d +:+ PATH_SEP +:+ n) = inr (c ++ [d; n])) as Hrn1.
  { rewrite (resolve_sub w1 d n (c ++ [d]) true) by done.
    by rewrite <- (assoc_L (++)). }
  set (wb := set_fs (<[c ++ [d; n] := File [] (clock w1)]> (fs w1)) w1).
  set (w2 := touchFile (d +:+ PATH_SEP +:+ n) w1).
  assert (w2 = logAction ("Created or updated file: " +:+ d +:+ PATH_SEP +:+ n)
                 (print ("File created/updated: " +:+ d +:+ PATH_SEP +:+ n) wb)) as Hw2.
  { unfold w2, touchFile, fopen_ab. by rewrite Hrn1, Hx1. }
  assert (cwd w2 = Some c ∧
          stdout w2 = stdout w1 ++ ["File created/updated: " +:+ d +:+ PATH_SEP +:+ n] ∧
          stderr w2 = stderr w1) as (Hcwd2 & Hout2 & Herr2).
  { rewrite Hw2.
    destruct (logAction_process ("Created or updated file: " +:+ d +:+ PATH_SEP +:+ n)
                (print ("File created/updated: " +:+ d +:+ PATH_SEP +:+ n) wb))
      as ((-> & _) & -> & ->).
    done. }
  assert (fs w2 !! (c ++ [d]) = Some (Dir true)) as Hd2.
  { rewrite Hw2, fs_logAction. apply with_log_dir. simpl.
    rewrite lookup_insert_ne; [done|].
    intros Heq. apply (f_equal length) in Heq. rewrite !length_app in Heq. simpl in Heq. lia. }
  assert (fs w2 !! c = Some (Dir r)) as Hc2.
  { rewrite Hw2, fs_logAction, (with_log_deep _ _ c) by done. simpl.
    rewrite lookup_insert_ne; [done|].
    intros Heq. apply (f_equal length) in Heq. rewrite length_app in Heq. simpl in Heq. lia. }
  assert (∀ x, fs w2 !! (c ++ [d; x]) =
               if bool_decide (x = n) then Some (File [] (clock w1)) else None) as Hx2.
  { intros x. rewrite Hw2, fs_logAction, (with_log_deep _ _ c) by done. simpl.
    case_bool_decide as Hx.
    - subst x. by rewrite lookup_insert_eq.
    - rewrite lookup_insert_ne; [done|]. intros Heq. apply Hx.
      apply app_inv_head in Heq. by injection Heq. }
  clearbody w2. clear Hw2.
  (* ls d *)
  assert (children (fs w2) (c ++ [d]) = [n]) as Hch.
  { apply singleton_list; [apply NoDup_children|]. intros x.
    rewrite elem_of_children, <- (assoc_L (++)). simpl. rewrite Hx2.
    case_bool_decide; [done|]. split; [by intros [? ?]|done]. }
  destruct (listFiles_out d w2 (c ++ [d])) as [-> ->].
  { by eapply resolve_name. }
  { done. }
  { rewrite Hch. by apply Forall_singleton. }
  unfold listing. rewrite Hch. simpl. rewrite <- (assoc_L (++)). simpl.
  rewrite Hx2, bool_decide_eq_true_2 by done. simpl.
  rewrite Hout2, Hout1, Herr2, Herr1. by rewrite <- !(assoc_L (++)).
Qed.

Lemma new_file_is_listed_witness :
  stdout (listFiles "sub2" (touchFile ("sub2" +:+ PATH_SEP +:+ "a.txt") (makeDir "sub2" home))) =
    stdout home ++ [ "Directory created: " +:+ "sub2";
                     "File created/updated: " +:+ "sub2" +:+ PATH_SEP +:+ "a.txt";
                     "Contents of " +:+ "sub2" +:+ ":";
                     "       " +:+ "a.txt" +:+ tab +:+ "(0 bytes)" ] ∧
  stderr (listFiles "sub2" (touchFile ("sub2" +:+ PATH_SEP +:+ "a.txt") (makeDir "sub2" home))) =
    stderr home.
Proof.
  apply (new_file_is_listed "sub2" "a.txt" home ["home"] true); by vm_compute.
Defined.

End Scenario.
(** ** What a command says of its outcome *)

Module Reports.
Import Text Time Posix Explorer Spec Sample Props TextFacts PosixFacts LogFacts.
Import OpFacts Copying.

Lemma fwrite_out (h : list string) (buf : list byte) (w : World) :
  stdout (fwrite h buf w) = stdout w ∧ stderr (fwrite h buf w) = stderr w.
Proof. unfold fwrite. by destruct (fs w !! h) as [[|]|]. Qed.

Lemma copy_loop_out (fuel : nat) (inp out : list string) (pos : nat) (w w' : World) :
  copy_loop fuel inp out pos w = Some w' →
  stdout w' = stdout w ∧ stderr w' = stderr w.
Proof.
  revert pos w. induction fuel as [|fuel IH]; intros pos w; simpl; [done|].
  case_bool_decide.
  - intros [-> ->]%IH. apply fwrite_out.
  - by intros [= <-].
Qed.

Lemma stream_copy_out (inp out : list string) (w : World) :
  stdout (stream_copy inp out w) = stdout w ∧
  stderr (stream_copy inp out w) = stderr w.
Proof.
  unfold stream_copy.
  destruct (copy_loop _ inp out 0 w) as [w'|] eqn:E; [|done].
  by eapply copy_loop_out.
Qed.

Lemma copyFile_out (src dest : string) (w : World) :
  stdout (copyFile src dest w).1 = stdout w ∧
  stderr (copyFile src dest w).1 = stderr w.
Proof.
  unfold copyFile, fopen_rb, fopen_wb.
  destruct (resolve w src) as [e|ks]; [done|].
  destruct (fs w !! ks) as [[data t|[|]]|]; try done;
    (destruct (resolve w dest) as [e|kd]; [done|]);
    (destruct (fs w !! kd) as [[d0 t0|r0]|]; try done);
    simpl;
    match goal with
    | |- context [logAction ?a ?w0] =>
        destruct (logAction_process a w0) as (_ & -> & ->)
    end;
    match goal with
    | |- context [stream_copy ?i ?o ?w0] =>
        by destruct (stream_copy_out i o w0) as [-> ->]
    end.
Qed.

Lemma listEntries_err (path : string) (names : list string) (w : World) :
  stderr (foldl (λ w name, listEntry path name w) w names) = stderr w.
Proof.
  revert w. induction names as [|n names IH]; intros w; simpl; [done|].
  rewrite IH. unfold listEntry. case_bool_decide; [done|].
  by destruct (stat w _).
Qed.

(** X12: a command says once how it went.  When the call of [cd], [mv],
    [touch], [mkdir], [cp] or [ls] fails, one line goes to the standard
    error, the name of the command with the error of the call, and nothing
    to the standard output; when it succeeds, its one line of success (for
    [ls], the listing) goes to the standard output and nothing to the
    standard error. *)
Theorem outcome_is_reported_once (p src dest : string) (w : World) :
  (if (chdir w p).2
   then stdout (changeDir p w) = stdout w ++ ["Changed directory to: " +:+ p] ∧
        stderr (changeDir p w) = stderr w
   else stdout (changeDir p w) = stdout w ∧
        stderr (changeDir p w) = stderr w ++ [("cd", errno_var (chdir w p).1)]) ∧
  (if (rename w src dest).2
   then stdout (moveFile src dest w) =
          stdout w ++ ["Moved: " +:+ src +:+ " -> " +:+ dest] ∧
        stderr (moveFile src dest w) = stderr w
   else stdout (moveFile src dest w) = stdout w ∧
        stderr (moveFile src dest w) =
          stderr w ++ [("mv", errno_var (rename w src dest).1)]) ∧
  (match (fopen_ab w p).2 with
   | Some _ =>
       stdout (touchFile p w) = stdout w ++ ["File created/updated: " +:+ p] ∧
       stderr (touchFile p w) = stderr w
   | None =>
       stdout (touchFile p w) = stdout w ∧
       stderr (touchFile p w) = stderr w ++ [("touch", errno_var (fopen_ab w p).1)]
   end) ∧
  (if (mkdir w p).2
   then stdout (makeDir p w) = stdout w ++ ["Directory created: " +:+ p] ∧
        stderr (makeDir p w) = stderr w
   else stdout (makeDir p w) = stdout w ∧
        stderr (makeDir p w) = stderr w ++ [("mkdir", errno_var (mkdir w p).1)]) ∧
  (match (opendir w p).2 with
   | Some _ => stderr (listFiles p w) = stderr w
   | None =>
       stdout (listFiles p w) = stdout w ∧
       stderr (listFiles p w) = stderr w ++ [("ls", errno_var (opendir w p).1)]
   end) ∧
  ∃ w', dispatch ["cp"; src; dest] w = Some w' ∧
    if (copyFile src dest w).2
    then stdout w' = stdout w ++ ["Copied: " +:+ src +:+ " -> " +:+ dest] ∧
         stderr w' = stderr w
    else stdout w' = stdout w ∧
         stderr w' = stderr w ++ [("cp", errno_var (copyFile src dest w).1)].
Proof.
  split_and!.
  - unfold changeDir. destruct (chdir w p) as [w1 [|]] eqn:E; simpl.
    + destruct (logAction_process ("Changed directory to: " +:+ p)
                  (print ("Changed directory to: " +:+ p) w1)) as (_ & -> & ->).
      revert E. unfold chdir. destruct (resolve w p) as [e|c]; [done|].
      destruct (fs w !! c) as [[|]|]; try done. by intros [= <-].
    + destruct (chdir_false w p) as [e He]; [by rewrite E|].
      rewrite E in He. simpl in He. by subst w1.
  - unfold moveFile. destruct (rename w src dest) as [w1 [|]] eqn:E; simpl.
    + destruct (logAction_process ("Moved/Renamed: " +:+ src +:+ " -> " +:+ dest)
                  (print ("Moved: " +:+ src +:+ " -> " +:+ dest) w1)) as (_ & -> & ->).
      assert (stdout w1 = stdout w ∧ stderr w1 = stderr w) as [H1 H2].
      { revert E. unfold rename.
        destruct (resolve w src) as [e|ko]; [done|].
        destruct (resolve w dest) as [e|kn]; [done|].
        destruct (fs w !! ko) as [node|]; [|done].
        destruct (fs w !! kn) as [[|]|], node;
          repeat case_bool_decide; try done; by intros [= <-]. }
      simpl. by rewrite H1, H2.
    + destruct (rename_false w src dest) as [e He]; [by rewrite E|].
      rewrite E in He. simpl in He. by subst w1.
  - unfold touchFile. destruct (fopen_ab w p) as [w1 [h|]] eqn:E; simpl.
    + destruct (logAction_process ("Created or updated file: " +:+ p)
                  (print ("File created/updated: " +:+ p) w1)) as (_ & -> & ->).
      revert E. unfold fopen_ab. destruct (resolve w p) as [e|c]; [done|].
      destruct (fs w !! c) as [[|]|]; try done; by intros [= <- _].
    + destruct (fopen_ab_None w p) as [e He]; [by rewrite E|].
      rewrite E in He. simpl in He. by subst w1.
  - unfold makeDir. destruct (mkdir w p) as [w1 [|]] eqn:E; simpl.
    + destruct (logAction_process ("Created directory: " +:+ p)
                  (print ("Directory created: " +:+ p) w1)) as (_ & -> & ->).
      revert E. unfold mkdir. destruct (resolve w p) as [e|c]; [done|].
      destruct (fs w !! c) as [[|]|]; try done; by intros [= <-].
    + destruct (logAction_process ("Created directory: " +:+ p)
                  (perror "mkdir" w1)) as (_ & -> & ->).
      destruct (mkdir_false w p) as [e He]; [by rewrite E|].
      rewrite E in He. simpl in He. by subst w1.
  - unfold listFiles. destruct (opendir w p) as [w1 [names|]] eqn:E; simpl.
    + destruct (logAction_process ("Listed contents of: " +:+ p)
                  (foldl (λ w name, listEntry p name w)
                         (print ("Contents of " +:+ p +:+ ":") w1) names))
        as (_ & _ & ->).
      rewrite listEntries_err. simpl.
      pose proof (opendir_Some w p names) as Hw. rewrite E in Hw.
      simpl in Hw. by rewrite (Hw eq_refl).
    + destruct (opendir_None w p) as [e He]; [by rewrite E|].
      rewrite E in He. simpl in He. by subst w1.
  - destruct (copyFile_out src dest w) as [H1 H2]. simpl.
    destruct (copyFile src dest w) as [w1 [|]]; eexists; (split; [done|]);
      simpl in *; by rewrite H1, H2.
Qed.

End Reports.
(** ** The working directory and new directories *)

Module Directories.
Import Text Time Posix Explorer Spec Sample Props TextFacts PosixFacts LogFacts.
Import OpFacts Searching Scenario.

(** X13: [pwd] prints the path of the working directory when it has fewer
    than 1024 characters, the size of the buffer less the final zero.  With
    a longer path nothing is printed and the error [ERANGE] of [getcwd] is
    reported. *)
Theorem pwd_prints_the_path_that_fits (w : World) (c : list string) :
  cwd w = Some c →
  if bool_decide (String.length (path_string c) < 1024)%nat
  then stdout (printPwd w) = stdout w ++ [path_string c] ∧
       stderr (printPwd w) = stderr w
  else stdout (printPwd w) = stdout w ∧
       stderr (printPwd w) = stderr w ++ [("pwd", ERANGE)].
Proof.
  intros Hcwd. unfold printPwd, getcwd. rewrite Hcwd.
  case_bool_decide;
    match goal with
    | |- context [logAction ?a ?w0] =>
        by destruct (logAction_process a w0) as (_ & -> & ->)
    end.
Qed.

Lemma pwd_prints_the_path_that_fits_witness :
  (stdout (printPwd deep) = stdout deep ∧
   stderr (printPwd deep) = stderr deep ++ [("pwd", ERANGE)]) ∧
  (stdout (printPwd home) = stdout home ++ ["/home"] ∧
   stderr (printPwd home) = stderr home).
Proof.
  split.
  - apply (pwd_prints_the_path_that_fits deep [long_name]). reflexivity.
  - apply (pwd_prints_the_path_that_fits home ["home"]). reflexivity.
Defined.

(** The components of the path that [getcwd] gives. *)
Lemma components_path (k : list string) :
  k ≠ [] → Forall (λ n, has_slash n = false) k →
  ∃ rest, foldr (λ n s, "/" +:+ n +:+ s) "" k = "/" +:+ rest ∧ components rest = k.
Proof.
  intros Hk Hnames. induction Hnames as [|n k Hn Hnames IH]; [done|].
  destruct k as [|n' k].
  - exists n. simpl. rewrite app_empty_r. split; [done|]. by apply components_name.
  - destruct IH as (rest & Hrest & Hcs); [done|].
    exists (n +:+ PATH_SEP +:+ rest). split.
    + change (foldr _ "" (n :: n' :: k)) with
        ("/" +:+ n +:+ foldr (λ n s, "/" +:+ n +:+ s) "" (n' :: k)).
      by rewrite Hrest.
    + rewrite components_sep, components_name, Hcs by done. done.
Qed.

Lemma wf_prefix_dir (m : gmap (list string) inode) (pre suf : list string) (v : inode) :
  wf_fs m = true → m !! (pre ++ suf) = Some v → suf ≠ [] →
  ∃ r, m !! pre = Some (Dir r).
Proof.
  intros Hwf. revert v. induction suf as [|x suf IH] using rev_ind; [done|].
  intros v Hv _. destruct (wf_fs_lookup m _ v Hwf Hv) as [_ Hparent].
  destruct Hparent as [r Hr]; [by destruct pre, suf|].
  rewrite (assoc_L (++)), removelast_last in Hr.
  destruct suf as [|y suf]; [rewrite app_nil_r in Hr; eauto|].
  by eapply IH.
Qed.

Lemma walk_down (m : gmap (list string) inode) (cur k : list string) (v : inode) :
  wf_fs m = true → m !! (cur ++ k) = Some v →
  walk m cur k = inr (cur ++ k).
Proof.
  intros Hwf. revert cur. induction k as [|n k IH]; intros cur Hv; simpl.
  - by rewrite app_nil_r.
  - destruct (wf_prefix_dir m cur (n :: k) v Hwf Hv) as [r ->]; [done|].
    destruct (wf_fs_lookup m _ v Hwf Hv) as [Hnames _].
    apply Forall_app in Hnames as [_ Hnames]. apply Forall_cons in Hnames as [Hn _].
    rewrite step_name by done.
    rewrite (IH (cur ++ [n])); by rewrite <- (assoc_L (++)).
Qed.

(** The path that [getcwd] gives for a directory names it, from
    anywhere. *)
Lemma resolve_path_string (w : World) (k : list string) (r : bool) :
  wf_fs (fs w) = true → fs w !! k = Some (Dir r) →
  resolve w (path_string k) = inr k.
Proof.
  intros Hwf Hk. unfold resolve, path_string. destruct k as [|n k].
  - simpl. change (step [] "") with (@nil string). by rewrite !Hk.
  - destruct (wf_fs_lookup _ _ _ Hwf Hk) as [Hnames _].
    destruct (components_path (n :: k)) as (rest & -> & Hcs); [done| |].
    { eapply Forall_impl; [exact Hnames|]. by intros x (_ & _ & _ & ?)%valid_name_spec. }
    rewrite bool_decide_eq_false_2 by done.
    change (is_absolute ("/" +:+ rest)) with true.
    change (components ("/" +:+ rest)) with ("" :: components rest). rewrite Hcs.
    destruct (wf_prefix_dir (fs w) [] (n :: k) _ Hwf Hk) as [r0 Hroot]; [done|].
    cbn [walk]. rewrite Hroot. change (step [] "") with (@nil string).
    by apply (walk_down _ [] (n :: k) (Dir r)).
Qed.

(** X14: [cd] to what [pwd] prints leads to the directory [pwd] was run in,
    from whatever working directory it is done: [pwd] prints an absolute
    path of the working directory. *)
Theorem cd_to_the_path_of_pwd (w w' : World) (c : list string) (r : bool) :
  wf_fs (fs w) = true → cwd w = Some c → fs w !! c = Some (Dir r) →
  (String.length (path_string c) < 1024)%nat → fs w' = fs w →
  stdout (printPwd w) = stdout w ++ [path_string c] ∧
  (chdir w' (path_string c)).2 = true ∧
  cwd (changeDir (path_string c) w') = Some c.
Proof.
  intros Hwf Hcwd Hc Hlen Hfs. rewrite <- Hfs in Hwf, Hc. split_and!.
  - unfold printPwd, getcwd. rewrite Hcwd, bool_decide_eq_true_2 by done.
    by destruct (logAction_process "Checked current directory."
                   (print (path_string c) w)) as (_ & -> & _).
  - unfold chdir. by rewrite (resolve_path_string w' c r), Hc.
  - unfold changeDir, chdir. rewrite (resolve_path_string w' c r), Hc by done.
    by destruct (logAction_process ("Changed directory to: " +:+ path_string c)
                   (print ("Changed directory to: " +:+ path_string c)
                          (set_cwd (Some c) w'))) as ((-> & _) & _).
Qed.

Lemma cd_to_the_path_of_pwd_witness :
  stdout (printPwd (set_cwd (Some ["home"; "sub"]) home)) =
    stdout home ++ ["/home/sub"] ∧
  (chdir home "/home/sub").2 = true ∧
  cwd (changeDir "/home/sub" home) = Some ["home"; "sub"].
Proof.
  apply (cd_to_the_path_of_pwd (set_cwd (Some ["home"; "sub"]) home) home
           ["home"; "sub"] true).
  - by vm_compute.
  - reflexivity.
  - by vm_compute.
  - vm_compute. lia.
  - reflexivity.
Defined.

(** X15: [cd] into a directory of the working directory and [cd ..] after
    it lead back to where one was; a [cd] that fails leaves the working
    directory as it is. *)
Theorem cd_down_and_up (n p : string) (w : World) (c : list string) (r r' : bool) :
  cwd w = Some c → fs w !! c = Some (Dir r) → valid_name n = true →
  fs w !! (c ++ [n]) = Some (Dir r') →
  cwd (changeDir n w) = Some (c ++ [n]) ∧
  cwd (changeDir ".." (changeDir n w)) = Some c ∧
  ((chdir w p).2 = false → cwd (changeDir p w) = cwd w).
Proof.
  intros Hcwd Hc Hn Hcn.
  set (w0 := print ("Changed directory to: " +:+ n) (set_cwd (Some (c ++ [n])) w)).
  assert (changeDir n w = logAction ("Changed directory to: " +:+ n) w0) as Hw1.
  { unfold changeDir, chdir. by rewrite (resolve_name w c r n), Hcn. }
  destruct (logAction_process ("Changed directory to: " +:+ n) w0) as ((Hcwd1 & _) & _).
  pose proof (fs_logAction ("Changed directory to: " +:+ n) w0) as Hfs1.
  rewrite <- Hw1 in Hcwd1, Hfs1.
  assert (∀ k x, fs w !! k = Some (Dir x) → fs (changeDir n w) !! k = Some (Dir x)) as Hdirs.
  { intros k x Hk. rewrite Hfs1. by apply with_log_dir. }
  split_and!; [by rewrite Hcwd1| |].
  - unfold changeDir at 1. unfold chdir, resolve.
    rewrite bool_decide_eq_false_2 by done.
    change (is_absolute "..") with false. rewrite Hcwd1. simpl.
    rewrite (Hdirs _ _ Hcn).
    change (step (c ++ [n]) "..") with (removelast (c ++ [n])).
    rewrite removelast_last, (Hdirs _ _ Hc).
    by destruct (logAction_process ("Changed directory to: " +:+ "..")
                   (print ("Changed directory to: " +:+ "..")
                          (set_cwd (Some c) (changeDir n w)))) as ((-> & _) & _).
  - intros Hf. destruct (chdir_false w p Hf) as [e He].
    unfold changeDir. destruct (chdir w p) as [w1 [|]]; [done|].
    simpl in He. by subst w1.
Qed.

Lemma cd_down_and_up_witness :
  cwd (changeDir "sub" home) = Some (["home"] ++ ["sub"]) ∧
  cwd (changeDir ".." (changeDir "sub" home)) = Some ["home"] ∧
  ((chdir home "nowhere").2 = false → cwd (changeDir "nowhere" home) = cwd home).
Proof. apply (cd_down_and_up "sub" "nowhere" home ["home"] true true); by vm_compute. Defined.

Lemma resolve_two_names (w : World) (c : list string) (r : bool) (a b : string) :
  cwd w = Some c → fs w !! c = Some (Dir r) →
  valid_name a = true → valid_name b = true →
  resolve w (a +:+ PATH_SEP +:+ b) =
  match fs w !! (c ++ [a]) with
  | Some (Dir _) => inr (c ++ [a; b])
  | Some (File _ _) => inl ENOTDIR
  | None => inl ENOENT
  end.
Proof.
  intros Hcwd Hc Ha Hb.
  pose proof Ha as (Ha0 & _ & _ & Hsa)%valid_name_spec.
  pose proof Hb as (_ & _ & _ & Hsb)%valid_name_spec.
  unfold resolve. rewrite bool_decide_eq_false_2 by apply sep_nonempty.
  rewrite is_absolute_sep by done.
  assert (is_absolute a = false) as ->.
  { destruct a as [|x a]; [done|]. simpl in *. by apply orb_false_iff in Hsa as [-> _]. }
  rewrite Hcwd, components_sep, !components_name by done. cbn [app walk].
  rewrite Hc, step_name by done.
  destruct (fs w !! (c ++ [a])) as [[|]|]; try done.
  by rewrite step_name, <- (assoc_L (++)).
Qed.

(** X16: [mkdir] makes one directory, not the directories on the way to
    it, and not a directory that is there.  For [a/b] with no [a] in the
    working directory the call fails with [ENOENT], and a second [mkdir] of
    a path just made fails with [EEXIST]; in both cases the file system is
    as before but for the record, "Created directory", which is written all
    the same. *)
Theorem mkdir_makes_one_directory (a b p : string) (w : World)
    (c : list string) (r : bool) :
  (cwd w = Some c → fs w !! c = Some (Dir r) →
   valid_name a = true → valid_name b = true → fs w !! (c ++ [a]) = None →
     stderr (makeDir (a +:+ PATH_SEP +:+ b) w) = stderr w ++ [("mkdir", ENOENT)] ∧
     fs (makeDir (a +:+ PATH_SEP +:+ b) w) =
       with_log (record_bytes w ("Created directory: " +:+ a +:+ PATH_SEP +:+ b)) w) ∧
  ((mkdir w p).2 = true →
     isDirectory (makeDir p w) p = true ∧
     stderr (makeDir p (makeDir p w)) = stderr w ++ [("mkdir", EEXIST)] ∧
     fs (makeDir p (makeDir p w)) =
       with_log (record_bytes w ("Created directory: " +:+ p)) (makeDir p w)).
Proof.
  split.
  - intros Hcwd Hc Ha Hb Hmiss.
    assert (mkdir w (a +:+ PATH_SEP +:+ b) = (set_errno ENOENT w, false)) as Hmk.
    { unfold mkdir. by rewrite (resolve_two_names w c r a b), Hmiss. }
    unfold makeDir. rewrite Hmk.
    destruct (logAction_process ("Created directory: " +:+ a +:+ PATH_SEP +:+ b)
                (perror "mkdir" (set_errno ENOENT w))) as (_ & _ & ->).
    split; [done|]. by rewrite fs_logAction.
  - intros Hok.
    assert (∃ k, resolve w p = inr k ∧ fs w !! k = None) as (k & Hres & Hk).
    { revert Hok. unfold mkdir. destruct (resolve w p) as [e|k]; [done|].
      destruct (fs w !! k) eqn:E; [done|]. eauto. }
    set (w0 := print ("Directory created: " +:+ p)
                     (set_fs (<[k := Dir true]> (fs w)) w)).
    assert (makeDir p w = logAction ("Created directory: " +:+ p) w0) as Hw1.
    { unfold makeDir, mkdir. by rewrite Hres, Hk. }
    destruct (logAction_process ("Created directory: " +:+ p) w0)
      as ((Hcwd1 & Hclock1 & Hlt1) & _ & Herr1).
    pose proof (fs_logAction ("Created directory: " +:+ p) w0) as Hfs1.
    rewrite <- Hw1 in Hcwd1, Hclock1, Hlt1, Herr1, Hfs1.
    assert (fs (makeDir p w) !! k = Some (Dir true)) as Hk1.
    { rewrite Hfs1. apply with_log_dir. simpl. by rewrite lookup_insert_eq. }
    assert (resolve (makeDir p w) p = inr k) as Hres1.
    { apply (resolve_same_dirs w); [done| |done].
      intros j x Hj. exists x. rewrite Hfs1. apply with_log_dir. simpl.
      rewrite lookup_insert_ne; [done|]. intros ->. congruence. }
    assert (mkdir (makeDir p w) p = (set_errno EEXIST (makeDir p w), false)) as Hmk.
    { unfold mkdir. by rewrite Hres1, Hk1. }
    split_and!.
    + unfold isDirectory, stat. by rewrite Hres1, Hk1.
    + unfold makeDir at 1. rewrite Hmk.
      destruct (logAction_process ("Created directory: " +:+ p)
                  (perror "mkdir" (set_errno EEXIST (makeDir p w)))) as (_ & _ & ->).
      simpl. by rewrite Herr1.
    + unfold makeDir at 1. rewrite Hmk, fs_logAction.
      rewrite (record_bytes_ext w) by done. done.
Qed.

Lemma mkdir_makes_one_directory_witness :
  (stderr (makeDir ("x" +:+ PATH_SEP +:+ "y") home) = stderr home ++ [("mkdir", ENOENT)] ∧
   fs (makeDir ("x" +:+ PATH_SEP +:+ "y") home) =
     with_log (record_bytes home ("Created directory: " +:+ "x" +:+ PATH_SEP +:+ "y")) home) ∧
  (isDirectory (makeDir "d" home) "d" = true ∧
   stderr (makeDir "d" (makeDir "d" home)) = stderr home ++ [("mkdir", EEXIST)] ∧
   fs (makeDir "d" (makeDir "d" home)) =
     with_log (record_bytes home ("Created directory: " +:+ "d")) (makeDir "d" home)).
Proof.
  destruct (mkdir_makes_one_directory "x" "y" "d" home ["home"] true) as [H1 H2].
  split; [apply H1|apply H2]; by vm_compute.
Defined.

End Directories.
(** ** Moving and renaming *)

Module Moving.
Import Text Time Posix Explorer Spec Sample Props TextFacts PosixFacts LogFacts.
Import OpFacts RenameFacts Searching Scenario Directories.

(** The file system after a move: [moved]. *)
Lemma move_tree_lookup (src dst : list string) (m : gmap (list string) inode)
    (k : list string) :
  (∀ j, dst `prefix_of` j → j ≠ dst → m !! j = None) →
  ¬ src `prefix_of` dst →
  move_tree src dst m !! k = moved src dst m k.
Proof.
  intros Hbelow Hnot. unfold move_tree, moved.
  set (l := map (λ kv, (rebase src dst kv.1, kv.2)) (map_to_list (delete dst m))).
  assert (∀ x, (∀ y, (k, y) ∈ l → y = x) → (∃ y, (k, y) ∈ l) →
            (list_to_map l : gmap (list string) inode) !! k = Some x)
    as Hsome.
  { intros x Huniq [y Hy]. pose proof (Huniq y Hy) as ->.
    apply elem_of_list_to_map_1'; [|done]. intros y Hy'. symmetry. by apply Huniq. }
  assert ((∀ y, (k, y) ∉ l) →
          (list_to_map l : gmap (list string) inode) !! k = None) as Hnone.
  { intros Hno. destruct ((list_to_map l : gmap (list string) inode) !! k) as [y|] eqn:E; [|done].
    apply elem_of_list_to_map_2 in E. by destruct (Hno y). }
  assert (∀ k0 y, m !! k0 = Some y → k0 ≠ dst → k = rebase src dst k0 →
            (∃ rest, k0 = src ++ rest ∧ k = dst ++ rest) ∨
            (¬ src `prefix_of` k0 ∧ k = k0 ∧ ¬ dst `prefix_of` k)) as Hcases.
  { intros k0 y Hy Hne ->. destruct (decide (src `prefix_of` k0)) as [[rest ->]|Hout].
    - left. exists rest. by rewrite rebase_under.
    - right. rewrite rebase_outside by done. split_and!; try done.
      intros Hpre. rewrite (Hbelow k0 Hpre Hne) in Hy. done. }
  destruct (strip_prefix dst k) as [rest|] eqn:Ed.
  - apply strip_prefix_spec in Ed as ->.
    destruct (m !! (src ++ rest)) as [x|] eqn:Ex.
    + apply Hsome.
      * intros y (k0 & Hk0 & Hne & Hk)%elem_of_move_tree.
        destruct (Hcases k0 y Hk0 Hne Hk) as [(rest' & -> & Heq)|(_ & _ & Hout)].
        -- apply app_inv_head in Heq as ->. congruence.
        -- destruct Hout. by exists rest.
      * exists x. apply elem_of_move_tree. exists (src ++ rest). split_and!; [done| |].
        -- intros <-. apply Hnot. by exists rest.
        -- by rewrite rebase_under.
    + apply Hnone. intros y (k0 & Hk0 & Hne & Hk)%elem_of_move_tree.
      destruct (Hcases k0 y Hk0 Hne Hk) as [(rest' & -> & Heq)|(_ & _ & Hout)].
      * apply app_inv_head in Heq as ->. congruence.
      * destruct Hout. by exists rest.
  - apply strip_prefix_None in Ed. case_bool_decide as Hs.
    + destruct Hs as [rest Hs]. apply strip_prefix_spec in Hs as ->.
      apply Hnone. intros y (k0 & Hk0 & Hne & Hk)%elem_of_move_tree.
      destruct (Hcases k0 y Hk0 Hne Hk) as [(rest' & -> & Heq)|(Hout & <- & _)].
      * apply Ed. rewrite Heq. by exists rest'.
      * apply Hout. by exists rest.
    + assert (¬ src `prefix_of` k) as Hout.
      { intros Hp. apply Hs. destruct Hp as [rest ->]. exists rest.
        by apply strip_prefix_spec. }
      destruct (m !! k) as [x|] eqn:Ex.
      * apply Hsome.
        -- intros y (k0 & Hk0 & Hne & Hk)%elem_of_move_tree.
           destruct (Hcases k0 y Hk0 Hne Hk) as [(rest' & -> & Heq)|(_ & <- & _)].
           ++ destruct Ed. rewrite Heq. by exists rest'.
           ++ congruence.
        -- exists x. apply elem_of_move_tree. exists k. split_and!; [done| |].
           ++ intros ->. by apply Ed.
           ++ by rewrite rebase_outside.
      * apply Hnone. intros y (k0 & Hk0 & Hne & Hk)%elem_of_move_tree.
        destruct (Hcases k0 y Hk0 Hne Hk) as [(rest' & -> & Heq)|(_ & <- & _)].
        -- destruct Ed. rewrite Heq. by exists rest'.
        -- congruence.
Qed.

Lemma moved_same (src : list string) (m : gmap (list string) inode) (k : list string) :
  moved src src m k = m !! k.
Proof.
  unfold moved. destruct (strip_prefix src k) as [rest|] eqn:E.
  - by apply strip_prefix_spec in E as ->.
  - by rewrite bool_decide_eq_false_2 by (by intros [? ?]).
Qed.

(** Where the resolution of a path ends: at a directory, or at a name in
    a directory. *)
Lemma walk_end (m : gmap (list string) inode) (cur cs k : list string) :
  wf_fs m = true → walk m cur cs = inr k → cs ≠ [] →
  (∃ r, m !! k = Some (Dir r)) ∨ (k ≠ [] ∧ ∃ r, m !! removelast k = Some (Dir r)).
Proof.
  intros Hwf. revert cur. induction cs as [|x cs IH]; intros cur Hw Hne; [done|].
  simpl in Hw. destruct (m !! cur) as [[|r]|] eqn:Ecur; try done.
  destruct cs as [|y cs]; [|by eapply IH].
  simpl in Hw. injection Hw as <-. unfold step.
  case_bool_decide; [eauto|]. case_bool_decide.
  - left. destruct cur as [|z cur] using rev_ind; [eauto|].
    rewrite removelast_last.
    destruct (wf_prefix_dir m cur [z] (Dir r) Hwf Ecur) as [r' Hr']; eauto.
  - right. rewrite removelast_last. split; [by destruct cur|eauto].
Qed.

Lemma resolve_end (w : World) (p : string) (k : list string) :
  wf_fs (fs w) = true → resolve w p = inr k →
  (∃ r, fs w !! k = Some (Dir r)) ∨
  (k ≠ [] ∧ ∃ r, fs w !! removelast k = Some (Dir r)).
Proof.
  intros Hwf. unfold resolve. case_bool_decide; [done|].
  destruct (is_absolute p).
  - intros Hw. eapply walk_end; [done..|apply components_nonempty].
  - destruct (cwd w) as [c|]; [|done].
    intros Hw. eapply walk_end; [done..|apply components_nonempty].
Qed.

(** Nothing lies below a file, and no path goes through one. *)
Lemma file_not_above (w : World) (p : string) (ks kd : list string)
    (data : list byte) (t : Z) :
  wf_fs (fs w) = true → fs w !! ks = Some (File data t) →
  resolve w p = inr kd → ks `prefix_of` kd → ks = kd.
Proof.
  intros Hwf Hks Hres [rest ->].
  destruct rest as [|x rest] using rev_ind; [by rewrite app_nil_r|].
  clear IHrest. exfalso.
  destruct (resolve_end w p _ Hwf Hres) as [[r Hr]|[_ [r Hr]]].
  - destruct (wf_prefix_dir (fs w) ks (rest ++ [x]) _ Hwf Hr) as [r' Hr'];
      [by destruct rest|congruence].
  - rewrite (assoc_L (++)), removelast_last in Hr.
    destruct rest as [|y rest].
    + rewrite app_nil_r in Hr. congruence.
    + destruct (wf_prefix_dir (fs w) ks (y :: rest) _ Hwf Hr) as [r' Hr']; [done|congruence].
Qed.

Lemma nothing_below (m : gmap (list string) inode) (dst j : list string) :
  wf_fs m = true →
  (∀ r, m !! dst = Some (Dir r) → children m dst = []) →
  dst `prefix_of` j → j ≠ dst → m !! j = None.
Proof.
  intros Hwf Hdst [rest ->] Hne.
  destruct rest as [|x rest]; [by rewrite app_nil_r in Hne|].
  destruct (m !! (dst ++ x :: rest)) as [v|] eqn:E; [|done]. exfalso.
  assert (is_Some (m !! (dst ++ [x]))) as [v' Hv'].
  { destruct rest as [|y rest]; [eauto|].
    change (dst ++ x :: y :: rest) with (dst ++ [x] ++ y :: rest) in E.
    rewrite (assoc_L (++)) in E.
    destruct (wf_prefix_dir m _ _ _ Hwf E) as [r Hr]; [done|eauto]. }
  destruct (wf_prefix_dir m dst [x] _ Hwf Hv') as [r Hr]; [done|].
  pose proof (Hdst r Hr) as Hch. rewrite children_nil in Hch. by rewrite Hch in Hv'.
Qed.

(** What a [rename] that succeeds does. *)
Lemma rename_moves (w : World) (src dest : string) (ks kd : list string) :
  wf_fs (fs w) = true → resolve w src = inr ks → resolve w dest = inr kd →
  (rename w src dest).2 = true →
  (∀ k, fs (rename w src dest).1 !! k = moved ks kd (fs w) k) ∧
  cwd (rename w src dest).1 = rebase ks kd <$> cwd w ∧
  clock (rename w src dest).1 = clock w ∧
  localtime (rename w src dest).1 = localtime w ∧
  stdout (rename w src dest).1 = stdout w.
Proof.
  intros Hwf Hs Hd. unfold rename. rewrite Hs, Hd.
  destruct (fs w !! ks) as [node|] eqn:Eks; [|done].
  case_bool_decide; [done|]. case_bool_decide; [done|].
  case_bool_decide as Hsame.
  { subst kd. intros _. simpl. split_and!; try done.
    - intros k. by rewrite moved_same.
    - destruct (cwd w) as [cw|]; [|done]. simpl. by rewrite rebase_same. }
  assert (¬ ks `prefix_of` kd →
          (∀ r, fs w !! kd = Some (Dir r) → children (fs w) kd = []) →
          ∀ k, move_tree ks kd (fs w) !! k = moved ks kd (fs w) k) as Hmove.
  { intros Hnot Hempty k. apply move_tree_lookup; [|done].
    intros j Hpre Hne. by eapply nothing_below. }
  destruct node as [data t|r].
  - assert (¬ ks `prefix_of` kd) as Hnot.
    { intros Hpre. apply Hsame. by eapply file_not_above. }
    destruct (fs w !! kd) as [[d0 t0|r0]|] eqn:Ekd; [|done|];
      intros _; simpl; (split_and!; [|done..]); apply Hmove; done.
  - destruct (fs w !! kd) as [[d0 t0|r0]|] eqn:Ekd; [done| |].
    + case_bool_decide as Hpre; [done|]. case_bool_decide as Hfull; [done|].
      intros _. simpl. split_and!; [|done..]. apply Hmove.
      * intros [rest ->]. apply Hpre. exists rest. by apply strip_prefix_spec.
      * intros r1 _. destruct (decide (children (fs w) kd = [])) as [|Hne]; [done|].
        by destruct Hfull.
    + case_bool_decide as Hpre; [done|].
      rewrite bool_decide_eq_false_2 by (by intros [? _]).
      intros _. simpl. split_and!; [|done..]. apply Hmove.
      * intros [rest ->]. apply Hpre. exists rest. by apply strip_prefix_spec.
      * done.
Qed.

(** X17: a [mv] that succeeds moves the whole tree.  Afterwards what was
    at a path below the source is at the same path below the destination,
    nothing is where the source was, and every other file and directory is
    what it was; a working directory inside the tree has moved with it.
    This is said of every path but the log file, to which the record of the
    move is then added.  (A [mv] of a path to itself changes nothing.) *)
Theorem mv_moves_the_tree (src dest : string) (w : World) (ks kd : list string) :
  wf_fs (fs w) = true → resolve w src = inr ks → resolve w dest = inr kd →
  (rename w src dest).2 = true →
  cwd (moveFile src dest w) = rebase ks kd <$> cwd w ∧
  (∀ k, log_key (rename w src dest).1 ≠ Some k →
        fs (moveFile src dest w) !! k = moved ks kd (fs w) k) ∧
  (∀ rest, log_key (rename w src dest).1 ≠ Some (kd ++ rest) →
        fs (moveFile src dest w) !! (kd ++ rest) = fs w !! (ks ++ rest)).
Proof.
  intros Hwf Hs Hd Hok.
  destruct (rename_moves w src dest ks kd Hwf Hs Hd Hok) as (Hfs & Hcwd & _).
  unfold moveFile. destruct (rename w src dest) as [w1 [|]]; [|done]. simpl in *.
  destruct (logAction_process ("Moved/Renamed: " +:+ src +:+ " -> " +:+ dest)
              (print ("Moved: " +:+ src +:+ " -> " +:+ dest) w1)) as ((-> & _) & _).
  assert (∀ k, log_key w1 ≠ Some k →
            fs (logAction ("Moved/Renamed: " +:+ src +:+ " -> " +:+ dest)
                  (print ("Moved: " +:+ src +:+ " -> " +:+ dest) w1)) !! k =
            moved ks kd (fs w) k) as Hall.
  { intros k Hk. rewrite fs_logAction, with_log_lookup_ne; [apply Hfs|].
    by rewrite (log_key_ext w1). }
  split_and!; [done|done|].
  intros rest Hk. rewrite Hall by done. unfold moved.
  by rewrite (proj2 (strip_prefix_spec kd (kd ++ rest) rest) eq_refl).
Qed.

Lemma mv_moves_the_tree_witness :
  cwd (moveFile "sub" "new" home) = rebase ["home"; "sub"] ["home"; "new"] <$> cwd home ∧
  (∀ k, log_key (rename home "sub" "new").1 ≠ Some k →
        fs (moveFile "sub" "new" home) !! k =
        moved ["home"; "sub"] ["home"; "new"] (fs home) k) ∧
  (∀ rest, log_key (rename home "sub" "new").1 ≠ Some (["home"; "new"] ++ rest) →
        fs (moveFile "sub" "new" home) !! (["home"; "new"] ++ rest) =
        fs home !! (["home"; "sub"] ++ rest)).
Proof.
  apply (mv_moves_the_tree "sub" "new" home ["home"; "sub"] ["home"; "new"]);
    by vm_compute.
Defined.

Lemma final_component_name (n : string) :
  valid_name n = true → final_component n = n.
Proof.
  intros (Hn & _ & _ & Hs)%valid_name_spec. unfold final_component.
  rewrite components_name by done.
  by rewrite filter_cons_True, filter_nil by done.
Qed.

(** X18: [mv a b], for two names of the working directory of which [a] is
    a file and [b] is no directory, succeeds: afterwards there is no [a],
    and [b] is the file that [a] was, with its bytes and its time stamp,
    whatever [b] was before.  Neither name is the one of the log. *)
Theorem mv_renames_a_file (a b : string) (w : World) (c : list string) (r : bool)
    (data : list byte) (t : Z) :
  wf_fs (fs w) = true → cwd w = Some c → fs w !! c = Some (Dir r) →
  valid_name a = true → valid_name b = true → a ≠ b →
  a ≠ LOG_FILE → b ≠ LOG_FILE →
  fs w !! (c ++ [a]) = Some (File data t) →
  (∀ r', fs w !! (c ++ [b]) ≠ Some (Dir r')) →
  (rename w a b).2 = true ∧
  stdout (moveFile a b w) = stdout w ++ ["Moved: " +:+ a +:+ " -> " +:+ b] ∧
  fs (moveFile a b w) !! (c ++ [a]) = None ∧
  fs (moveFile a b w) !! (c ++ [b]) = Some (File data t).
Proof.
  intros Hwf Hcwd Hc Ha Hb Hab HaL HbL Hfile Hnodir.
  pose proof (resolve_name w c r a Hcwd Hc Ha) as Hra.
  pose proof (resolve_name w c r b Hcwd Hc Hb) as Hrb.
  pose proof Ha as (_ & Ha1 & Ha2 & _)%valid_name_spec.
  pose proof Hb as (_ & Hb1 & Hb2 & _)%valid_name_spec.
  assert (c ++ [a] ≠ c ++ [b]) as Hne by (intros [= ?]%app_inv_head; done).
  assert ((rename w a b).2 = true) as Hok.
  { unfold rename. rewrite Hra, Hrb, Hfile, !final_component_name by done.
    rewrite bool_decide_eq_false_2 by naive_solver.
    rewrite bool_decide_eq_false_2 by (intros [?|?]; by destruct c).
    rewrite bool_decide_eq_false_2 by done.
    destruct (fs w !! (c ++ [b])) as [[|r']|] eqn:E; [done| |done].
    by destruct (Hnodir r'). }
  destruct (rename_moves w a b _ _ Hwf Hra Hrb Hok) as (Hfs & Hcwd1 & _ & _ & Hout1).
  assert (¬ (c ++ [a]) `prefix_of` c) as Hout.
  { intros [rest Heq]. apply (f_equal length) in Heq.
    rewrite !length_app in Heq. simpl in Heq. lia. }
  rewrite Hcwd in Hcwd1. simpl in Hcwd1. rewrite rebase_outside in Hcwd1 by done.
  unfold moveFile. destruct (rename w a b) as [w1 [|]]; [|done]. simpl in *.
  destruct (logAction_process ("Moved/Renamed: " +:+ a +:+ " -> " +:+ b)
              (print ("Moved: " +:+ a +:+ " -> " +:+ b) w1)) as (_ & -> & _).
  assert (∀ n, n ≠ LOG_FILE → log_key (print ("Moved: " +:+ a +:+ " -> " +:+ b) w1)
                              ≠ Some (c ++ [n])) as HL.
  { intros n Hn (c' & _ & Hc' & _ & Heq & _)%log_key_spec. simpl in Hc'.
    rewrite Hcwd1 in Hc'. injection Hc' as <-. apply app_inv_head in Heq.
    by injection Heq. }
  split_and!; [done| | |].
  - simpl. by rewrite Hout1.
  - rewrite fs_logAction, with_log_lookup_ne by (by apply HL). simpl.
    rewrite Hfs. unfold moved.
    assert (strip_prefix (c ++ [b]) (c ++ [a]) = None) as ->.
    { apply strip_prefix_None. intros [rest Heq].
      destruct rest as [|x rest]; [by rewrite app_nil_r in Heq|].
      apply (f_equal length) in Heq. rewrite !length_app in Heq. simpl in Heq. lia. }
    rewrite bool_decide_eq_true_2; [done|].
    exists []. apply strip_prefix_spec. by rewrite app_nil_r.
  - rewrite fs_logAction, with_log_lookup_ne by (by apply HL). simpl.
    rewrite Hfs. unfold moved.
    rewrite (proj2 (strip_prefix_spec (c ++ [b]) (c ++ [b]) []))
      by (by rewrite app_nil_r).
    by rewrite app_nil_r.
Qed.

Lemma mv_renames_a_file_witness :
  (rename home "notes.txt" "n2").2 = true ∧
  stdout (moveFile "notes.txt" "n2" home) =
    stdout home ++ ["Moved: " +:+ "notes.txt" +:+ " -> " +:+ "n2"] ∧
  fs (moveFile "notes.txt" "n2" home) !! (["home"] ++ ["notes.txt"]) = None ∧
  fs (moveFile "notes.txt" "n2" home) !! (["home"] ++ ["n2"]) = Some (File hello 100).
Proof.
  apply (mv_renames_a_file "notes.txt" "n2" home ["home"] true hello 100);
    by vm_compute.
Defined.

(** X19: a directory named as the destination is not a place to put the
    file in.  For a file [a] and a directory [b] of the working directory,
    [mv a b] and [cp a b] fail with [EISDIR] and change nothing: [a] is not
    moved or copied to [b/a]. *)
Theorem no_move_into_a_directory (a b : string) (w : World) (c : list string)
    (r rb : bool) (data : list byte) (t : Z) :
  cwd w = Some c → fs w !! c = Some (Dir r) →
  valid_name a = true → valid_name b = true →
  fs w !! (c ++ [a]) = Some (File data t) → fs w !! (c ++ [b]) = Some (Dir rb) →
  fs (moveFile a b w) = fs w ∧
  stderr (moveFile a b w) = stderr w ++ [("mv", EISDIR)] ∧
  copyFile a b w = (set_errno EISDIR w, false) ∧
  dispatch ["cp"; a; b] w = Some (perror "cp" (set_errno EISDIR w)).
Proof.
  intros Hcwd Hc Ha Hb Hfile Hdir.
  pose proof (resolve_name w c r a Hcwd Hc Ha) as Hra.
  pose proof (resolve_name w c r b Hcwd Hc Hb) as Hrb.
  pose proof Ha as (_ & Ha1 & Ha2 & _)%valid_name_spec.
  pose proof Hb as (_ & Hb1 & Hb2 & _)%valid_name_spec.
  assert (c ++ [a] ≠ c ++ [b]) as Hne by (intros Heq; congruence).
  assert (rename w a b = (set_errno EISDIR w, false)) as Hmv.
  { unfold rename. rewrite Hra, Hrb, Hfile, Hdir, !final_component_name by done.
    rewrite bool_decide_eq_false_2 by naive_solver.
    rewrite bool_decide_eq_false_2 by (intros [?|?]; by destruct c).
    by rewrite bool_decide_eq_false_2 by done. }
  assert (copyFile a b w = (set_errno EISDIR w, false)) as Hcp.
  { unfold copyFile, fopen_rb, fopen_wb. by rewrite Hra, Hfile, Hrb, Hdir. }
  split_and!; [| |done|].
  - unfold moveFile. by rewrite Hmv.
  - unfold moveFile. by rewrite Hmv.
  - simpl. by rewrite Hcp.
Qed.

Lemma no_move_into_a_directory_witness :
  fs (moveFile "notes.txt" "sub" home) = fs home ∧
  stderr (moveFile "notes.txt" "sub" home) = stderr home ++ [("mv", EISDIR)] ∧
  copyFile "notes.txt" "sub" home = (set_errno EISDIR home, false) ∧
  dispatch ["cp"; "notes.txt"; "sub"] home = Some (perror "cp" (set_errno EISDIR home)).
Proof.
  apply (no_move_into_a_directory "notes.txt" "sub" home ["home"] true true hello 100);
    by vm_compute.
Defined.

End Moving.
(** ** Copies *)

Module Copies.
Import Text Time Posix Explorer Spec Sample Props TextFacts PosixFacts LogFacts.
Import OpFacts Searching Copying Reports.

(** The log of a state is the file [activity_log.txt] of its working
    directory, if any. *)
Lemma log_key_cwd (w : World) (c L : list string) :
  cwd w = Some c → log_key w = Some L → L = c ++ [LOG_FILE].
Proof.
  intros Hcwd (c' & _ & Hc' & _ & -> & _)%log_key_spec. congruence.
Qed.

(** X20: [cp] of a file to another path writes the destination and the log
    and nothing else.  The destination has the bytes of the source, no
    more and no fewer, whatever it held before; the source is as it was;
    every other file and directory is as it was; and the one line printed
    is "Copied:". *)
Theorem cp_writes_the_destination_only (src dest : string) (w : World)
    (ks kd : list string) (data : list byte) (t : Z) :
  resolve w src = inr ks → fs w !! ks = Some (File data t) →
  resolve w dest = inr kd → (∀ r, fs w !! kd ≠ Some (Dir r)) →
  ks ≠ kd → log_key w ≠ Some ks → log_key w ≠ Some kd →
  ∃ w', dispatch ["cp"; src; dest] w = Some w' ∧
    stdout w' = stdout w ++ ["Copied: " +:+ src +:+ " -> " +:+ dest] ∧
    stderr w' = stderr w ∧
    file_data w' kd = Some data ∧
    fs w' !! ks = Some (File data t) ∧
    ∀ k, k ≠ kd → (∀ c, cwd w = Some c → k ≠ c ++ [LOG_FILE]) → fs w' !! k = fs w !! k.
Proof.
  intros Hs Hks Hd Hkd Hne HLs HLd.
  destruct (copyFile_distinct src dest w ks kd data t) as (Hok & Hdata & Hsrc); try done.
  destruct (copyFile_out src dest w) as [Hout Herr].
  assert (∀ k, k ≠ kd → (∀ c, cwd w = Some c → k ≠ c ++ [LOG_FILE]) →
               fs (copyFile src dest w).1 !! k = fs w !! k) as Hframe.
  { intros k Hk HkL. unfold copyFile, fopen_rb, fopen_wb. rewrite Hs, Hks, Hd.
    set (w2 := set_fs (<[kd := File [] (clock w)]> (fs w)) w).
    assert ((match fs w !! kd with
             | Some (Dir _) => (set_errno EISDIR w, None)
             | _ => (w2, Some kd)
             end) = (w2, Some kd)) as ->.
    { destruct (fs w !! kd) as [[|r]|] eqn:E; [done|by destruct (Hkd r)|done]. }
    destruct (stream_copy_frame ks kd w2) as ((Hcwd & _) & Hfr). simpl.
    rewrite fs_logAction, with_log_lookup_ne.
    - rewrite Hfr by done. subst w2. simpl. by rewrite lookup_insert_ne.
    - intros HL. destruct (cwd w) as [c|] eqn:Ec.
      + apply (log_key_cwd _ c) in HL; [|by rewrite Hcwd]. by apply (HkL c).
      + apply log_key_spec in HL as (c' & _ & Hc' & _). rewrite Hcwd in Hc'.
        subst w2. simpl in Hc'. congruence. }
  simpl. destruct (copyFile src dest w) as [w1 [|]]; [|done]. simpl in *.
  eexists. split; [done|]. simpl. by rewrite Hout, Herr.
Qed.

Lemma cp_writes_the_destination_only_witness :
  ∃ w', dispatch ["cp"; "sub/a.txt.bak"; "notes.txt"] home = Some w' ∧
    stdout w' = stdout home ++ ["Copied: " +:+ "sub/a.txt.bak" +:+ " -> " +:+ "notes.txt"] ∧
    stderr w' = stderr home ∧
    file_data w' ["home"; "notes.txt"] = Some hello ∧
    fs w' !! ["home"; "sub"; "a.txt.bak"] = Some (File hello 100) ∧
    ∀ k, k ≠ ["home"; "notes.txt"] →
         (∀ c, cwd home = Some c → k ≠ c ++ [LOG_FILE]) → fs w' !! k = fs home !! k.
Proof.
  apply (cp_writes_the_destination_only "sub/a.txt.bak" "notes.txt" home
           ["home"; "sub"; "a.txt.bak"] ["home"; "notes.txt"] hello 100);
    by vm_compute.
Defined.



End Copies.
(** ** What the recursive commands do not say *)

Module Quiet.
Import Text Time Posix Explorer Spec Sample Props TextFacts PosixFacts LogFacts.
Import OpFacts.

Lemma for_each_inv (R : World → World → Prop) (body : string → World → option World)
    (names : list string) (w w' : World) :
  (∀ a, R a a) → (∀ a b c, R a b → R b c → R a c) →
  (∀ n a b, body n a = Some b → R a b) →
  for_each body names w = Some w' → R w w'.
Proof.
  intros Hrefl Htrans Hbody. revert w.
  induction names as [|n names IH]; intros w; simpl.
  - by intros [= <-].
  - destruct (body n w) as [w1|] eqn:E; [|done].
    intros H. eapply Htrans; [by eapply Hbody|by apply IH].
Qed.

Lemma opendir_out (w : World) (p : string) :
  stdout (opendir w p).1 = stdout w ∧ stderr (opendir w p).1 = stderr w.
Proof.
  unfold opendir. destruct (resolve w p) as [e|c]; [done|].
  by destruct (fs w !! c) as [[|[|]]|].
Qed.

Lemma rmdir_out (w : World) (p : string) :
  stdout (rmdir w p).1 = stdout w ∧ stderr (rmdir w p).1 = stderr w.
Proof.
  unfold rmdir. destruct (resolve w p) as [e|c]; [done|].
  destruct (fs w !! c) as [[|]|]; try done. by repeat case_bool_decide.
Qed.

Lemma remove_out (w : World) (p : string) :
  stdout (remove w p).1 = stdout w ∧ stderr (remove w p).1 = stderr w.
Proof.
  unfold remove. destruct (stat w p) as [e|[|]]; try apply rmdir_out;
    unfold unlink; (destruct (resolve w p) as [e'|c]; [done|]);
    by destruct (fs w !! c) as [[|]|].
Qed.

Lemma removeRecursive_rec_out (fuel : nat) (path : string) (w w' : World) :
  removeRecursive_rec fuel path w = Some w' →
  stdout w' = stdout w ∧ stderr w' = stderr w.
Proof.
  revert path w w'. induction fuel as [|fuel IH]; intros path w w'; simpl; [done|].
  destruct (isDirectory w path).
  - destruct (opendir_out w path) as [Ho He].
    destruct (opendir w path) as [w1 [entries|]]; simpl in *.
    + destruct (for_each _ entries w1) as [w2|] eqn:E; [|done].
      intros [= <-].
      destruct (logAction_process ("Removed: " +:+ path) (rmdir w2 path).1)
        as (_ & -> & ->).
      destruct (rmdir_out w2 path) as [-> ->]. rewrite <- Ho, <- He.
      revert E. apply (for_each_inv (λ a b, stdout b = stdout a ∧ stderr b = stderr a)).
      * done.
      * by intros a b c [-> ->] [-> ->].
      * intros n a b. unfold removeEntry. case_bool_decide; [by intros [= <-]|].
        apply IH.
    + by intros [= <-].
  - intros [= <-].
    destruct (logAction_process ("Removed: " +:+ path) (remove w path).1)
      as (_ & -> & ->).
    apply remove_out.
Qed.

Lemma searchFile_rec_err (fuel : nat) (pattern path : string) (w w' : World) :
  searchFile_rec fuel pattern path w = Some w' → stderr w' = stderr w.
Proof.
  revert path w w'. induction fuel as [|fuel IH]; intros path w w'; simpl; [done|].
  destruct (opendir_out w path) as [_ He].
  destruct (opendir w path) as [w1 [entries|]]; simpl in *.
  - destruct (for_each _ entries w1) as [w2|] eqn:E; [|done].
    intros [= <-].
    destruct (logAction_process ("Searched for: " +:+ pattern +:+ " in " +:+ path) w2)
      as (_ & _ & ->).
    rewrite <- He. revert E. apply (for_each_inv (λ a b, stderr b = stderr a)).
    + done.
    + by intros a b c -> ->.
    + intros n a b. unfold searchEntry. case_bool_decide; [by intros [= <-]|].
      destruct (contains pattern n); simpl;
        match goal with
        | |- context [isDirectory ?w0 ?p] => destruct (isDirectory w0 p)
        end; try (by intros [= <-]); by intros ->%IH.
  - by intros [= <-].
Qed.

(** X22: [rm] and [search] report nothing.  Whatever the path and whatever
    fails on the way (a path that does not exist, a directory that cannot
    be read or is not empty), [removeRecursive] writes nothing to the
    standard output or the standard error, and [searchFile] nothing to the
    standard error; this holds of the recursion at every depth. *)
Theorem rm_and_search_report_nothing (pattern path : string) (w w' : World) (fuel : nat) :
  stdout (removeRecursive path w) = stdout w ∧
  stderr (removeRecursive path w) = stderr w ∧
  stderr (searchFile pattern path w) = stderr w ∧
  (removeRecursive_rec fuel path w = Some w' →
     stdout w' = stdout w ∧ stderr w' = stderr w) ∧
  (searchFile_rec fuel pattern path w = Some w' → stderr w' = stderr w).
Proof.
  split_and!.
  - unfold removeRecursive.
    destruct (removeRecursive_rec _ path w) as [w1|] eqn:E; [|done].
    by apply removeRecursive_rec_out in E as [? ?].
  - unfold removeRecursive.
    destruct (removeRecursive_rec _ path w) as [w1|] eqn:E; [|done].
    by apply removeRecursive_rec_out in E as [? ?].
  - unfold searchFile.
    destruct (searchFile_rec _ pattern path w) as [w1|] eqn:E; [|done].
    by apply searchFile_rec_err in E.
  - apply removeRecursive_rec_out.
  - apply searchFile_rec_err.
Qed.

End Quiet.
(** ** Touching a file twice *)

Module Retouch.
Import Text Time Posix Explorer Spec Sample Props TextFacts PosixFacts LogFacts.
Import OpFacts Searching Touching.

(** X23: [touch] makes a file that is missing, empty, and leaves the bytes
    of a file that is there; a second [touch] of the same path finds the
    file and leaves it as the first one left it.  The path is not the one
    of the log, which gets the records. *)
Theorem touch_again_changes_nothing (p : string) (w : World) (c : list string) :
  resolve w p = inr c → log_key w ≠ Some c →
  (fs w !! c = None → fs (touchFile p w) !! c = Some (File [] (clock w))) ∧
  (∀ data t, fs w !! c = Some (File data t) →
             fs (touchFile p w) !! c = Some (File data t)) ∧
  fs (touchFile p (touchFile p w)) !! c = fs (touchFile p w) !! c.
Proof.
  intros Hres HL. pose proof (touchFile_spec w p c Hres HL) as Hspec.
  split_and!.
  - intros Hc. by rewrite Hc in Hspec.
  - intros data t Hc. by rewrite Hc in Hspec.
  - destruct (fs w !! c) as [[data t|r]|] eqn:Ec.
    + (* a file that is there *)
      assert (touchFile p w = logAction ("Created or updated file: " +:+ p)
                (print ("File created/updated: " +:+ p) w)) as Hw1.
      { unfold touchFile, fopen_ab. by rewrite Hres, Ec. }
      set (w0 := print ("File created/updated: " +:+ p) w) in *.
      destruct (logAction_process ("Created or updated file: " +:+ p) w0)
        as ((Hcwd & _) & _).
      pose proof (fs_logAction ("Created or updated file: " +:+ p) w0) as Hfs.
      rewrite <- Hw1 in Hcwd, Hfs.
      assert (resolve (touchFile p w) p = inr c) as Hres1.
      { apply (resolve_same_dirs w); [done| |done].
        intros j x Hj. exists x. rewrite Hfs. by apply with_log_dir. }
      assert (log_key (touchFile p w) ≠ Some c) as HL1.
      { rewrite (log_key_with_log _ w0) by done. by rewrite (log_key_ext w). }
      pose proof (touchFile_spec (touchFile p w) p c Hres1 HL1) as Hspec1.
      rewrite Hspec in Hspec1. by rewrite Hspec1, Hspec.
    + (* a directory: both calls fail *)
      assert (touchFile p w = perror "touch" (set_errno EISDIR w)) as Hw1.
      { unfold touchFile, fopen_ab. by rewrite Hres, Ec. }
      assert (resolve (touchFile p w) p = inr c) as Hres1 by (by rewrite Hw1).
      assert (log_key (touchFile p w) ≠ Some c) as HL1.
      { rewrite Hw1. by rewrite (log_key_ext w). }
      pose proof (touchFile_spec (touchFile p w) p c Hres1 HL1) as Hspec1.
      rewrite Hspec, Ec in Hspec1. by rewrite Hspec1, Hspec.
    + (* a file that is missing *)
      set (wa := set_fs (<[c := File [] (clock w)]> (fs w)) w).
      assert (touchFile p w = logAction ("Created or updated file: " +:+ p)
                (print ("File created/updated: " +:+ p) wa)) as Hw1.
      { unfold touchFile, fopen_ab. by rewrite Hres, Ec. }
      set (w0 := print ("File created/updated: " +:+ p) wa) in *.
      destruct (logAction_process ("Created or updated file: " +:+ p) w0)
        as ((Hcwd & _) & _).
      pose proof (fs_logAction ("Created or updated file: " +:+ p) w0) as Hfs.
      rewrite <- Hw1 in Hcwd, Hfs.
      assert (resolve (touchFile p w) p = inr c) as Hres1.
      { apply (resolve_same_dirs w); [done| |done].
        intros j x Hj. exists x. rewrite Hfs. apply with_log_dir. simpl.
        rewrite lookup_insert_ne; [done|]. intros ->. congruence. }
      assert (log_key (touchFile p w) ≠ Some c) as HL1.
      { rewrite (log_key_with_log _ w0) by done.
        intros (cw & r & Hcw & Hdir & -> & Hnd)%log_key_spec. apply HL.
        apply log_key_spec. exists cw, r. simpl in *. split_and!; try done.
        - rewrite lookup_insert_ne in Hdir; [done|].
          intros Heq. apply (f_equal length) in Heq. rewrite length_app in Heq.
          simpl in Heq. lia.
        - intros r'. by rewrite Ec. }
      pose proof (touchFile_spec (touchFile p w) p c Hres1 HL1) as Hspec1.
      rewrite Hspec in Hspec1. by rewrite Hspec1, Hspec.
Qed.

Lemma touch_again_changes_nothing_witness :
  (fs home !! ["home"; "f"] = None →
     fs (touchFile "f" home) !! ["home"; "f"] = Some (File [] (clock home))) ∧
  (∀ data t, fs home !! ["home"; "f"] = Some (File data t) →
             fs (touchFile "f" home) !! ["home"; "f"] = Some (File data t)) ∧
  fs (touchFile "f" (touchFile "f" home)) !! ["home"; "f"] =
    fs (touchFile "f" home) !! ["home"; "f"].
Proof. apply (touch_again_changes_nothing "f" home ["home"; "f"]); by vm_compute. Defined.

End Retouch.
(** ** Sessions that only read *)

Module ReadOnly.
Import Text Time Posix Explorer Spec Sample Props TextFacts PosixFacts LogFacts.
Import OpFacts Operations Searching History.

Lemma log_ext_trans (w w1 w2 : World) : log_ext w w1 → log_ext w1 w2 → log_ext w w2.
Proof.
  intros [Hp1 [r1 Hf1]] [Hp2 [r2 Hf2]].
  destruct (log_ext_with_log r1 r2 w w1 w2) as [Hp Hf]; try done.
  split; [done|]. by exists (r1 ++ r2).
Qed.

Lemma log_ext_same (w w' : World) : fs w' = fs w → same_process w w' → log_ext w w'.
Proof. intros Hfs Hp. split; [done|]. exists []. by rewrite with_log_nil. Qed.

Lemma log_ext_logAction (action : string) (w w1 : World) :
  log_ext w w1 → log_ext w (logAction action w1).
Proof.
  intros H. eapply log_ext_trans; [exact H|]. split.
  - apply logAction_process.
  - eexists. apply fs_logAction.
Qed.

Lemma log_ext_prints (ls : list string) (w : World) :
  log_ext w (foldl (λ w line, print line w) w ls).
Proof. destruct (prints_fs ls w). by apply log_ext_same. Qed.

Lemma listFiles_reads (p : string) (w : World) : log_ext w (listFiles p w).
Proof.
  unfold listFiles. destruct (opendir w p) as [w1 [names|]] eqn:E.
  - pose proof (opendir_Some w p names) as Hw. rewrite E in Hw. simpl in Hw.
    rewrite (Hw eq_refl). apply log_ext_logAction.
    destruct (listEntries_fs p names (print ("Contents of " +:+ p +:+ ":") w)) as [Hfs Hp].
    by apply log_ext_same.
  - destruct (opendir_None w p) as [e He]; [by rewrite E|].
    rewrite E in He. simpl in He. subst w1. by apply log_ext_same.
Qed.

Lemma printPwd_reads (w : World) : log_ext w (printPwd w).
Proof.
  unfold printPwd, getcwd. apply log_ext_logAction.
  destruct (cwd w); [case_bool_decide|]; by apply log_ext_same.
Qed.

Lemma searchFile_reads (pattern : string) (w : World) :
  names_ok (fs w) → log_ext w (searchFile pattern "." w).
Proof.
  intros Hok. destruct (resolve w ".") as [e|c] eqn:Hres.
  - unfold searchFile. simpl. unfold opendir. rewrite Hres. simpl.
    apply log_ext_errno.
  - destruct (searchFile_spec pattern "." w c Hok Hres (log_outside_dot w c Hres))
      as (ds & printed & _ & Hp & _ & Hfs & _).
    split; [done|]. eauto.
Qed.

Lemma dispatch_reads (args : list string) (w w' : World) :
  names_ok (fs w) → reads_only args = true → dispatch args w = Some w' →
  log_ext w w'.
Proof.
  intros Hok Hro. destruct args as [|cmd rest].
  { intros [= <-]. apply log_ext_refl. }
  destruct (decide (cmd ∈ commands)) as [Hcmd|Hcmd].
  - unfold commands in Hcmd.
    repeat (apply elem_of_cons in Hcmd as [->|Hcmd]); [..|by apply elem_of_nil in Hcmd];
      try done; simpl.
    + intros [= <-]. apply log_ext_prints.
    + intros [= <-]. apply listFiles_reads.
    + intros [= <-]. apply printPwd_reads.
    + destruct rest as [|a1 rest]; intros [= <-];
        [apply log_ext_print|by apply searchFile_reads].
    + intros [= <-]. destruct (showHistory_fs w). by apply log_ext_same.
  - destruct (dispatch_unknown cmd rest w Hcmd) as [-> _].
    intros [= <-]. apply log_ext_print.
Qed.

Lemma repl_reads (input : list string) (w : World) :
  names_ok (fs w) → Forall (λ line, reads_only (split line) = true) input →
  log_ext w (repl input w).
Proof.
  intros Hok Hin. revert w Hok.
  induction Hin as [|line input Hline _ IH]; intros w Hok; simpl.
  - destruct (prompt_fs w). by apply log_ext_same.
  - assert (log_ext w (prompt w)) as Hp
      by (destruct (prompt_fs w); by apply log_ext_same).
    destruct (dispatch (split line) (prompt w)) as [w1|] eqn:E; [|done].
    assert (log_ext (prompt w) w1) as H1.
    { eapply dispatch_reads; [|done..]. by eapply log_ext_names_ok. }
    eapply log_ext_trans; [exact Hp|]. eapply log_ext_trans; [exact H1|].
    apply IH. eapply log_ext_names_ok; [|exact Hok]. by eapply log_ext_trans.
Qed.

(** X24: a session that only reads changes no file.  When no line of the
    input has [cd], [cp], [mv], [rm], [touch] or [mkdir] as its command
    (whatever else it has: [ls], [pwd], [search], [history], [help], words
    that are no command, empty lines, [exit]), then after [main] the
    working directory is what it was and every path holds what it held,
    but for the log file, to which records were added. *)
Theorem reading_changes_no_file (input : list string) (w : World) :
  wf_fs (fs w) = true →
  Forall (λ line, reads_only (split line) = true) input →
  cwd (main input w) = cwd w ∧
  (∀ k, log_key w ≠ Some k → fs (main input w) !! k = fs w !! k) ∧
  ∃ recs, fs (main input w) = with_log recs w.
Proof.
  intros Hwf Hin. unfold main.
  set (w0 := foldl (λ w line, print line w) w _).
  assert (log_ext w w0) as H0 by apply log_ext_prints.
  assert (log_ext w (repl input w0)) as [(Hcwd & _) [recs Hfs]].
  { eapply log_ext_trans; [exact H0|]. apply repl_reads; [|done].
    eapply log_ext_names_ok; [exact H0|]. by apply wf_names_ok. }
  simpl. split_and!; [done| |by exists recs].
  intros k Hk. rewrite Hfs. by apply with_log_lookup_ne.
Qed.

Lemma reading_changes_no_file_witness :
  cwd (main ["ls sub"; "search a"; ""; "pwd"; "history"; "dir"; "quit"] home) = cwd home ∧
  (∀ k, log_key home ≠ Some k →
        fs (main ["ls sub"; "search a"; ""; "pwd"; "history"; "dir"; "quit"] home) !! k =
        fs home !! k) ∧
  ∃ recs, fs (main ["ls sub"; "search a"; ""; "pwd"; "history"; "dir"; "quit"] home) =
          with_log recs home.
Proof.
  apply (reading_changes_no_file
           ["ls sub"; "search a"; ""; "pwd"; "history"; "dir"; "quit"] home).
  - by vm_compute.
  - repeat constructor.
Defined.

End ReadOnly.
